(** * The negotiation agent of fdi_pln_2612_p1 (main.py): codec, rate limiter,
      mailbox handling and decision heuristic, with the properties of its
      specification.

    Conventions of the embedding.
    - A Python [str] is a list of Unicode code points; a Python [int] is a [Z].
    - An insertion-ordered [dict] (resources, objective, mailbox, decoded JSON
      objects) is an association list with distinct keys; the two cooldown
      tables and the blacklist, which are only read by key, are [gmap]s.
    - [time.time()] returns an exact rational; the rounding of binary floating
      point timestamps is not modelled.
    - Exceptions are values of [result]. The interpreter is CPython with its
      default settings: a conversion between [int] and [str] is refused beyond
      4300 digits. The recursion limit and the memory are not bounded. *)

From Stdlib Require Import ZArith NArith QArith List Bool Ascii String Lia Lqa.
From stdpp Require Import gmap list.
Close Scope Q_scope.
Open Scope N_scope.

(** ** Text *)

Definition char := N.
Definition str := list char.

(** ASCII literal of the source as a list of code points. *)
Definition u (s : string) : str := List.map N_of_ascii (list_ascii_of_string s).

Definition in_range (lo hi c : char) : bool := (lo <=? c) && (c <=? hi).

Definition str_eqb (a b : str) : bool := bool_decide (a = b).

(** [str.isspace] on one character, which is also the class [\s] of a
    Unicode pattern. *)
Definition isspace (c : char) : bool :=
  in_range 0x09 0x0D c || in_range 0x1C 0x20 c || (c =? 0x85) || (c =? 0xA0)
  || (c =? 0x1680) || in_range 0x2000 0x200A c || (c =? 0x2028) || (c =? 0x2029)
  || (c =? 0x202F) || (c =? 0x205F) || (c =? 0x3000).

(** First code point of every run of ten decimal digits (category Nd,
    Unicode 15.0); U+1D7CE starts five consecutive runs. *)
Definition nd_starts : list N :=
  [0x30; 0x660; 0x6F0; 0x7C0; 0x966; 0x9E6; 0xA66; 0xAE6; 0xB66; 0xBE6; 0xC66;
   0xCE6; 0xD66; 0xDE6; 0xE50; 0xED0; 0xF20; 0x1040; 0x1090; 0x17E0; 0x1810;
   0x1946; 0x19D0; 0x1A80; 0x1A90; 0x1B50; 0x1BB0; 0x1C40; 0x1C50; 0xA620;
   0xA8D0; 0xA900; 0xA9D0; 0xA9F0; 0xAA50; 0xABF0; 0xFF10; 0x104A0; 0x10D30;
   0x11066; 0x110F0; 0x11136; 0x111D0; 0x112F0; 0x11450; 0x114D0; 0x11650;
   0x116C0; 0x11730; 0x118E0; 0x11950; 0x11C50; 0x11D50; 0x11DA0; 0x11F50;
   0x16A60; 0x16AC0; 0x16B50; 0x1D7CE; 0x1D7D8; 0x1D7E2; 0x1D7EC; 0x1D7F6;
   0x1E140; 0x1E2F0; 0x1E4F0; 0x1E950; 0x1FBF0].

Fixpoint decimal_in (starts : list N) (c : char) : option Z :=
  match starts with
  | [] => None
  | s :: rest => if in_range s (s + 9) c then Some (Z.of_N (c - s)) else decimal_in rest c
  end.

(** Value of a decimal digit, [None] for any other character. *)
Definition decimal_value (c : char) : option Z := decimal_in nd_starts c.
Arguments decimal_value : simpl never.

(** [\d] of a Unicode pattern. *)
Definition isdecimal (c : char) : bool := bool_decide (is_Some (decimal_value c)).

(** Simple lower-case mapping, as the regex engine folds case. It is given
    for Basic Latin, Latin-1 and the three code points outside them whose
    image is a Latin-1 letter; other code points are left as they are, since
    no pattern of this program mentions a letter they could fold to. *)
Definition unicode_tolower (c : char) : char :=
  if in_range 0x41 0x5A c then c + 32
  else if in_range 0xC0 0xDE c && negb (c =? 0xD7) then c + 32
  else if c =? 0x130 then 0x69
  else if c =? 0x212A then 0x6B
  else if c =? 0x212B then 0xE5
  else c.

(** Full lower-case mapping of one character ([str.lower]), on the same
    domain: U+0130 becomes "i" followed by a combining dot. *)
Definition lower_char (c : char) : str :=
  if c =? 0x130 then [0x69; 0x307] else [unicode_tolower c].

Definition lower (s : str) : str := flat_map lower_char s.

Fixpoint lstrip (s : str) : str :=
  match s with
  | c :: s' => if isspace c then lstrip s' else s
  | [] => []
  end.

Definition rstrip (s : str) : str := rev (lstrip (rev s)).

(** [str.strip()] *)
Definition strip (s : str) : str := rstrip (lstrip s).

(** ** Regular expressions: a backtracking matcher with the priorities of
    Python's [re]: a greedy repetition tries the longest run first, a lazy one
    the shortest, and [search] returns the first match of the leftmost start. *)

Inductive regex : Type :=
| Chr (p : char -> bool)        (* one character of a class *)
| Seq (r1 r2 : regex)
| Star (p : char -> bool)       (* p*  *)
| StarLazy (p : char -> bool)   (* p*? *)
| Plus (p : char -> bool)       (* p+  *)
| Group (n : nat) (r : regex)
| Empty.

Definition groups := list (nat * str).

Fixpoint group (g : groups) (n : nat) : str :=
  match g with
  | [] => []
  | (m, w) :: g' => if Nat.eqb m n then w else group g' n
  end.

Section Matcher.
Context {A : Type}.

Fixpoint star_greedy (p : char -> bool) (s : str) (k : str -> option A) : option A :=
  match s with
  | c :: s' =>
      if p c then
        match star_greedy p s' k with
        | Some a => Some a
        | None => k s
        end
      else k s
  | [] => k []
  end.

Fixpoint star_lazy (p : char -> bool) (s : str) (k : str -> option A) : option A :=
  match k s with
  | Some a => Some a
  | None =>
      match s with
      | c :: s' => if p c then star_lazy p s' k else None
      | [] => None
      end
  end.

Fixpoint rmatch (r : regex) (s : str) (g : groups)
    (k : str -> groups -> option A) : option A :=
  match r with
  | Empty => k s g
  | Chr p =>
      match s with
      | c :: s' => if p c then k s' g else None
      | [] => None
      end
  | Seq r1 r2 => rmatch r1 s g (fun s' g' => rmatch r2 s' g' k)
  | Star p => star_greedy p s (fun s' => k s' g)
  | StarLazy p => star_lazy p s (fun s' => k s' g)
  | Plus p =>
      match s with
      | c :: s' => if p c then star_greedy p s' (fun s'' => k s'' g) else None
      | [] => None
      end
  | Group n r1 =>
      rmatch r1 s g
        (fun s' g' => k s' ((n, take (length s - length s')%nat s) :: g'))
  end.

End Matcher.

(** [pattern.search(s)]: the groups of the first match, if any. *)
Fixpoint search (r : regex) (s : str) : option groups :=
  match rmatch r s [] (fun _ g => Some g) with
  | Some g => Some g
  | None =>
      match s with
      | _ :: s' => search r s'
      | [] => None
      end
  end.

Fixpoint seq_of (rs : list regex) : regex :=
  match rs with
  | [] => Empty
  | [r] => r
  | r :: rs' => Seq r (seq_of rs')
  end.

(** A literal character under [re.IGNORECASE]: the subject character is
    folded and compared with the folded literal; "i" and "s" also accept the
    dotless i and the long s. *)
Definition lit_i (l : char) (c : char) : bool :=
  let lo := unicode_tolower l in
  let c' := unicode_tolower c in
  (c' =? lo) || ((lo =? 0x69) && (c' =? 0x131)) || ((lo =? 0x73) && (c' =? 0x17F)).

Definition lit (s : string) : regex := seq_of (List.map (fun l => Chr (lit_i l)) (u s)).

(** A positive character set under [re.IGNORECASE]. *)
Definition set_i (members : str) (c : char) : bool :=
  existsb (fun l => lit_i l c) members.

Definition ascii_letters : str :=
  u "abcdefghijklmnopqrstuvwxyzABCDEFGHIJKLMNOPQRSTUVWXYZ".

(** [a-zA-ZáéíóúñÑ] *)
Definition item_letters : str :=
  ascii_letters ++ [0xE1; 0xE9; 0xED; 0xF3; 0xFA; 0xF1; 0xD1].

Definition dot (c : char) : bool := negb (c =? 0x0A).
Definition dot_all (c : char) : bool := true.

(** [\{.*?\}] *)
Definition braces : regex := seq_of [lit "{"; StarLazy dot; lit "}"].

Definition TAG_OFFER_RE : regex :=
  seq_of [lit "[OFERTA_V1]"; Star isspace; lit "quiero="; Group 1 braces;
          Star isspace; lit "ofrezco="; Group 2 braces].

Definition TAG_ACCEPT_RE : regex :=
  seq_of [lit "[ACEPTO_V1]"; Star isspace; lit "te_envio="; Group 1 braces;
          Star isspace; lit "espero="; Group 2 braces].

Definition OFFER_RE : regex :=
  seq_of [lit "necesit"; Chr (set_i (u "oa")); Plus isspace;
          Group 1 (Plus isdecimal); Plus isspace;
          Group 2 (Plus (set_i item_letters)); StarLazy dot_all;
          lit "ofrezc"; Chr (set_i (u "oa")); Plus isspace;
          Group 3 (Plus isdecimal); Plus isspace;
          Group 4 (Plus (set_i item_letters))].


(** ** Exceptions *)

Inductive exn : Type :=
| ValueError | TypeError | OverflowError | JSONDecodeError | RequestException.

Inductive result (A : Type) : Type :=
| Ok (a : A)
| Raise (e : exn).
Arguments Ok {A} a.
Arguments Raise {A} e.

#[export] Instance result_ret : MRet result := fun _ a => Ok a.
#[export] Instance result_bind : MBind result :=
  fun _ _ f m => match m with Ok a => f a | Raise e => Raise e end.

(** ** Integers and their decimal notation *)

Fixpoint digits_fuel (fuel : nat) (n : N) (acc : str) : str :=
  match fuel with
  | O => acc
  | S f =>
      let acc' := (0x30 + n mod 10) :: acc in
      if n <? 10 then acc' else digits_fuel f (n / 10) acc'
  end.

(** [str(n)] for a natural number: it has at most [log2 n + 1] digits. *)
Definition str_of_N (n : N) : str := digits_fuel (S (N.to_nat (N.log2 n))) n [].

(** Decimal notation of an integer. *)
Definition str_of_Z (z : Z) : str :=
  if (z <? 0)%Z then 0x2D :: str_of_N (Z.to_N (- z)) else str_of_N (Z.to_N z).

(** [sys.get_int_max_str_digits()] as the interpreter starts: converting an
    [int] to a [str] or back raises [ValueError] when the notation has more
    digits than this. *)
Definition int_max_str_digits : nat := 4300.

(** [str(z)], which is also how an f-string and [json.dumps] print an int. *)
Definition str_of_int (z : Z) : result str :=
  if (int_max_str_digits <? length (str_of_N (Z.abs_N z)))%nat then Raise ValueError
  else Ok (str_of_Z z).

(** Value of a run of decimal digits read from the left, [None] when a
    character is not a digit. *)
Fixpoint horner (acc : Z) (ds : str) : option Z :=
  match ds with
  | [] => Some acc
  | c :: ds' =>
      match decimal_value c with
      | Some d => horner (acc * 10 + d) ds'
      | None => None
      end
  end.

(** Digits of an [int()] argument: single underscores may separate them. *)
Fixpoint int_digits (acc : Z) (prev_digit : bool) (ds : str) : option Z :=
  match ds with
  | [] => if prev_digit then Some acc else None
  | c :: ds' =>
      if c =? 0x5F then (if prev_digit then int_digits acc false ds' else None)
      else match decimal_value c with
           | Some d => int_digits (acc * 10 + d) true ds'
           | None => None
           end
  end.

Definition count_digits (s : str) : nat := length (List.filter isdecimal s).

(** The blanks that [int()] skips around the digits. A character below
    U+007F is read as it is, and of those only the six of C's [isspace] are
    skipped; beyond it every character of [str.isspace] is first turned into a
    space. The separators U+001C to U+001F are thus not skipped, although
    [str.strip] removes them. *)
Definition int_blank (c : char) : bool := isspace c && negb (in_range 0x1C 0x1F c).

Fixpoint skip_blanks (s : str) : str :=
  match s with
  | c :: s' => if int_blank c then skip_blanks s' else s
  | [] => []
  end.

Definition trim_blanks (s : str) : str := rev (skip_blanks (rev (skip_blanks s))).

(** [int(s)] for a string: surrounding blanks, an optional sign, digits,
    no more of them than the limit. *)
Definition int_of_str (s : str) : result Z :=
  match trim_blanks s with
  | [] => Raise ValueError
  | c :: ds =>
      let signed := (c =? 0x2D) || (c =? 0x2B) in
      let digits := if signed then ds else c :: ds in
      match int_digits 0 false digits with
      | Some z =>
          if (int_max_str_digits <? count_digits digits)%nat then Raise ValueError
          else Ok (if c =? 0x2D then (- z)%Z else z)
      | None => Raise ValueError
      end
  end.

(** ** JSON values, [json.dumps] and [json.loads] *)

#[local] Set Warnings "-register-all".

(** A number with a fraction or an exponent, as it was written:
    [(-1)^neg * mant * 10^e10]; [float()] rounds it to binary64. *)
Inductive pyfloat : Type :=
| FNum (neg : bool) (mant : N) (e10 : Z)
| FNaN
| FInf (neg : bool).

Inductive json : Type :=
| JNull
| JBool (b : bool)
| JInt (z : Z)
| JFloat (f : pyfloat)
| JStr (s : str)
| JList (l : list json)
| JDict (d : list (str * json)).

Definition pydict := list (str * json).

Section Dict.
Context {V : Type}.

(** [d.get(k)] *)
Fixpoint dict_get (k : str) (d : list (str * V)) : option V :=
  match d with
  | [] => None
  | (k', v) :: d' => if str_eqb k' k then Some v else dict_get k d'
  end.

(** [d[k] = v]: an existing key keeps its place, a new one goes last. *)
Fixpoint dict_set (k : str) (v : V) (d : list (str * V)) : list (str * V) :=
  match d with
  | [] => [(k, v)]
  | (k', v') :: d' => if str_eqb k' k then (k, v) :: d' else (k', v') :: dict_set k v d'
  end.

(** [d.pop(k, None)] *)
Fixpoint dict_pop (k : str) (d : list (str * V)) : list (str * V) :=
  match d with
  | [] => []
  | (k', v) :: d' => if str_eqb k' k then d' else (k', v) :: dict_pop k d'
  end.

Definition dict_has (k : str) (d : list (str * V)) : bool :=
  match dict_get k d with Some _ => true | None => false end.

End Dict.

Definition hex_digit (n : N) : char := if n <? 10 then 0x30 + n else 0x61 + (n - 10).

(** One character inside a JSON string, [ensure_ascii=False]. *)
Definition escape_char (c : char) : str :=
  if c =? 0x22 then u "\" ++ [0x22]
  else if c =? 0x5C then u "\\"
  else if c =? 0x0A then u "\n"
  else if c =? 0x0D then u "\r"
  else if c =? 0x09 then u "\t"
  else if c =? 0x08 then u "\b"
  else if c =? 0x0C then u "\f"
  else if c <? 0x20 then u "\u00" ++ [hex_digit (c / 16); hex_digit (c mod 16)]
  else [c].

Definition encode_basestring (s : str) : str := [0x22] ++ flat_map escape_char s ++ [0x22].

Fixpoint join (sep : str) (parts : list str) : str :=
  match parts with
  | [] => []
  | [p] => p
  | p :: ps => p ++ sep ++ join sep ps
  end.

Fixpoint dump_items (d : list (str * Z)) : result (list str) :=
  match d with
  | [] => Ok []
  | (k, v) :: d' =>
      sv ← str_of_int v;
      rest ← dump_items d';
      mret ((encode_basestring k ++ u ": " ++ sv) :: rest)
  end.

(** [json.dumps(d, ensure_ascii=False)] for a [dict[str, int]]. *)
Definition json_dumps (d : list (str * Z)) : result str :=
  items ← dump_items d;
  mret (u "{" ++ join (u ", ") items ++ u "}").

Definition is_json_ws (c : char) : bool :=
  (c =? 0x20) || (c =? 0x09) || (c =? 0x0A) || (c =? 0x0D).

Fixpoint skip_ws (s : str) : str :=
  match s with
  | c :: s' => if is_json_ws c then skip_ws s' else s
  | [] => []
  end.

Definition hex_value (c : char) : option N :=
  if in_range 0x30 0x39 c then Some (c - 0x30)
  else if in_range 0x61 0x66 c then Some (c - 0x61 + 10)
  else if in_range 0x41 0x46 c then Some (c - 0x41 + 10)
  else None.

Definition hex4 (a b c d : char) : option N :=
  match hex_value a, hex_value b, hex_value c, hex_value d with
  | Some x, Some y, Some z, Some w => Some (((x * 16 + y) * 16 + z) * 16 + w)
  | _, _, _, _ => None
  end.

(** The character of a one-letter escape. *)
Definition unescape (e : char) : option char :=
  if e =? 0x22 then Some 0x22
  else if e =? 0x5C then Some 0x5C
  else if e =? 0x2F then Some 0x2F
  else if e =? 0x62 then Some 0x08
  else if e =? 0x66 then Some 0x0C
  else if e =? 0x6E then Some 0x0A
  else if e =? 0x72 then Some 0x0D
  else if e =? 0x74 then Some 0x09
  else None.

(** A low surrogate escape that completes the high surrogate [hi]. *)
Definition low_surrogate (hi b x l1 l2 l3 l4 : char) : option char :=
  if in_range 0xD800 0xDBFF hi && (b =? 0x5C) && (x =? 0x75) then
    match hex4 l1 l2 l3 l4 with
    | Some lo =>
        if in_range 0xDC00 0xDFFF lo
        then Some (0x10000 + (hi - 0xD800) * 0x400 + (lo - 0xDC00))
        else None
    | None => None
    end
  else None.

Definition cons_to {B : Type} (c : char) (r : option (str * B)) : option (str * B) :=
  match r with
  | Some (w, rest) => Some (c :: w, rest)
  | None => None
  end.

(** [scanstring] in strict mode, after the opening quote: the decoded
    string and the text after the closing quote. *)
Fixpoint scanstring (s : str) : option (str * str) :=
  match s with
  | [] => None
  | c :: s1 =>
      if c =? 0x22 then Some ([], s1)
      else if c =? 0x5C then
        match s1 with
        | [] => None
        | e :: s2 =>
            if e =? 0x75 then
              match s2 with
              | h1 :: h2 :: h3 :: h4 :: s3 =>
                  match hex4 h1 h2 h3 h4 with
                  | None => None
                  | Some uni =>
                      match s3 with
                      | b :: x :: l1 :: l2 :: l3 :: l4 :: s4 =>
                          match low_surrogate uni b x l1 l2 l3 l4 with
                          | Some joined => cons_to joined (scanstring s4)
                          | None => cons_to uni (scanstring s3)
                          end
                      | _ => cons_to uni (scanstring s3)
                      end
                  end
              | _ => None
              end
            else
              match unescape e with
              | Some ch => cons_to ch (scanstring s2)
              | None => None
              end
        end
      else if c <? 0x20 then None
      else cons_to c (scanstring s1)
  end.

Definition is_digit (c : char) : bool := in_range 0x30 0x39 c.

(** Longest prefix of ASCII digits and what follows it. *)
Fixpoint span_digits (s : str) : str * str :=
  match s with
  | c :: s' => if is_digit c then let (ds, r) := span_digits s' in (c :: ds, r) else ([], s)
  | [] => ([], [])
  end.

Definition digits_value (ds : str) : Z := default 0%Z (horner 0 ds).

(** Integer part of a JSON number: [0] or a run that does not start with 0. *)
Definition int_part (s : str) : option (str * str) :=
  match s with
  | c :: s' =>
      if c =? 0x30 then Some ([c], s')
      else if is_digit c then Some (span_digits s)
      else None
  | [] => None
  end.

(** [.digits], when there is at least one digit. *)
Definition frac_part (s : str) : option (str * str) :=
  match s with
  | p :: s' =>
      if p =? 0x2E then
        match span_digits s' with
        | ([], _) => None
        | (ds, r) => Some (ds, r)
        end
      else None
  | [] => None
  end.

(** [[eE][-+]?digits], when there is at least one digit. *)
Definition exp_part (s : str) : option (Z * str) :=
  match s with
  | e :: s' =>
      if (e =? 0x65) || (e =? 0x45) then
        let '(neg, s'') :=
          match s' with
          | sg :: t => if sg =? 0x2D then (true, t) else if sg =? 0x2B then (false, t) else (false, s')
          | [] => (false, s')
          end in
        match span_digits s'' with
        | ([], _) => None
        | (ds, r) => Some (if neg then (- digits_value ds)%Z else digits_value ds, r)
        end
      else None
  | [] => None
  end.

(** A JSON number at the head of [s]; an integer beyond the limit of digits
    makes the conversion, and so [json.loads], raise. *)
Definition match_number (s : str) : option (json * str) :=
  let '(neg, s0) :=
    match s with
    | c :: s' => if c =? 0x2D then (true, s') else (false, s)
    | [] => (false, s)
    end in
  match int_part s0 with
  | None => None
  | Some (ip, s1) =>
      let '(fp, s2) := match frac_part s1 with
                       | Some (ds, r) => (Some ds, r)
                       | None => (None, s1)
                       end in
      let '(ep, s3) := match exp_part s2 with
                       | Some (e, r) => (Some e, r)
                       | None => (None, s2)
                       end in
      match fp, ep with
      | None, None =>
          if (int_max_str_digits <? length ip)%nat then None
          else Some (JInt (if neg then (- digits_value ip)%Z else digits_value ip), s3)
      | _, _ =>
          let fd := default [] fp in
          Some (JFloat (FNum neg (Z.to_N (digits_value (ip ++ fd)))
                             (default 0%Z ep - Z.of_nat (length fd))), s3)
      end
  end.

(** [s] starts with the ASCII word [w]: the text after it. *)
Fixpoint strip_prefix (w s : str) : option str :=
  match w, s with
  | [], _ => Some s
  | a :: w', b :: s' => if a =? b then strip_prefix w' s' else None
  | _ :: _, [] => None
  end.

Definition constant (s : str) : option (json * str) :=
  match strip_prefix (u "null") s with Some r => Some (JNull, r) | None =>
  match strip_prefix (u "true") s with Some r => Some (JBool true, r) | None =>
  match strip_prefix (u "false") s with Some r => Some (JBool false, r) | None =>
  match strip_prefix (u "NaN") s with Some r => Some (JFloat FNaN, r) | None =>
  match strip_prefix (u "Infinity") s with Some r => Some (JFloat (FInf false), r) | None =>
  match strip_prefix (u "-Infinity") s with Some r => Some (JFloat (FInf true), r) | None =>
  None end end end end end end.

Section Containers.
Variable value : str -> option (json * str).

(** The pairs of an object from the opening quote of a key onwards. *)
Fixpoint object_items (fuel : nat) (s : str) (acc : pydict) : option (pydict * str) :=
  match fuel with
  | O => None
  | S f =>
      match s with
      | q :: s1 =>
          if q =? 0x22 then
            match scanstring s1 with
            | None => None
            | Some (key, s2) =>
                match skip_ws s2 with
                | colon :: s3 =>
                    if colon =? 0x3A then
                      match value (skip_ws s3) with
                      | None => None
                      | Some (v, s4) =>
                          let acc' := dict_set key v acc in
                          match skip_ws s4 with
                          | d :: s5 =>
                              if d =? 0x7D then Some (acc', s5)
                              else if d =? 0x2C then object_items f (skip_ws s5) acc'
                              else None
                          | [] => None
                          end
                      end
                    else None
                | [] => None
                end
            end
          else None
      | [] => None
      end
  end.

(** The elements of an array from the first element onwards. *)
Fixpoint array_items (fuel : nat) (s : str) (acc : list json) : option (list json * str) :=
  match fuel with
  | O => None
  | S f =>
      match value s with
      | None => None
      | Some (v, s1) =>
          match skip_ws s1 with
          | d :: s2 =>
              if d =? 0x5D then Some (acc ++ [v], s2)
              else if d =? 0x2C then array_items f (skip_ws s2) (acc ++ [v])
              else None
          | [] => None
          end
      end
  end.

End Containers.

(** One JSON value at the head of [s]. The fuel bounds the nesting and the
    number of elements of a container; the length of the text is enough. *)
Fixpoint scan_once (fuel : nat) (s : str) : option (json * str) :=
  match fuel with
  | O => None
  | S f =>
      match s with
      | [] => None
      | c :: s' =>
          if c =? 0x22 then
            match scanstring s' with
            | Some (w, r) => Some (JStr w, r)
            | None => None
            end
          else if c =? 0x7B then
            match skip_ws s' with
            | d :: r =>
                if d =? 0x7D then Some (JDict [], r)
                else match object_items (scan_once f) f (d :: r) [] with
                     | Some (kv, r') => Some (JDict kv, r')
                     | None => None
                     end
            | [] => None
            end
          else if c =? 0x5B then
            match skip_ws s' with
            | d :: r =>
                if d =? 0x5D then Some (JList [], r)
                else match array_items (scan_once f) f (d :: r) [] with
                     | Some (l, r') => Some (JList l, r')
                     | None => None
                     end
            | [] => None
            end
          else
            match constant s with
            | Some x => Some x
            | None => match_number s
            end
      end
  end.

(** [json.loads(s)] *)
Definition json_loads (s : str) : result json :=
  match s with
  | 0xFEFF :: _ => Raise JSONDecodeError
  | _ =>
      match scan_once (S (length s)) (skip_ws s) with
      | Some (v, rest) =>
          match skip_ws rest with
          | [] => Ok v
          | _ :: _ => Raise JSONDecodeError
          end
      | None => Raise JSONDecodeError
      end
  end.


(** ** Protocol codec *)

Definition build_offer_body (need_item : str) (need_qty : Z)
    (offer_item : str) (offer_qty : Z) : result str :=
  quiero ← json_dumps [(need_item, need_qty)];
  ofrezco ← json_dumps [(offer_item, offer_qty)];
  let line1 := u "[OFERTA_V1] quiero=" ++ quiero ++ u " ofrezco=" ++ ofrezco in
  need ← str_of_int need_qty;
  offer ← str_of_int offer_qty;
  let line2 := u "Necesito " ++ need ++ u " " ++ need_item
               ++ u " y ofrezco " ++ offer ++ u " " ++ offer_item ++ u "." in
  mret (line1 ++ [0x0A] ++ line2).

(** [(k, v), = list(d.items())] *)
Definition only_item {V : Type} (d : list (str * V)) : result (str * V) :=
  match d with
  | [kv] => Ok kv
  | _ => Raise ValueError
  end.

Definition build_accept_body (give_to_other expect_from_other : list (str * Z)) : result str :=
  te_envio ← json_dumps give_to_other;
  espero ← json_dumps expect_from_other;
  let line1 := u "[ACEPTO_V1] te_envio=" ++ te_envio ++ u " espero=" ++ espero in
  '(gk, gv) ← only_item give_to_other;
  '(ek, ev) ← only_item expect_from_other;
  sgv ← str_of_int gv;
  sev ← str_of_int ev;
  let line2 := u "Acepto tu oferta. Te envi" ++ [0xE9] ++ u " " ++ sgv ++ u " " ++ gk
               ++ u ". Enviame " ++ sev ++ u " " ++ ek ++ u "." in
  mret (line1 ++ [0x0A] ++ line2).

(** The [try] block shared by the two decoders: both groups are loaded and
    must be objects; any exception is swallowed. *)
Definition load_pair (g : groups) : option (pydict * pydict) :=
  match json_loads (group g 1) with
  | Ok a =>
      match json_loads (group g 2) with
      | Ok b =>
          match a, b with
          | JDict da, JDict db => Some (da, db)
          | _, _ => None
          end
      | Raise _ => None
      end
  | Raise _ => None
  end.

Definition parse_offer_from_text (texto : str) : result (option (pydict * pydict)) :=
  let t := texto in
  let tagged := match search TAG_OFFER_RE t with
                | Some m => load_pair m
                | None => None
                end in
  match tagged with
  | Some (quiero, ofrezco) => Ok (Some (quiero, ofrezco))
  | None =>
      match search OFFER_RE t with
      | Some m2 =>
          need_qty ← int_of_str (group m2 1);
          let need_item := lower (group m2 2) in
          offer_qty ← int_of_str (group m2 3);
          let offer_item := lower (group m2 4) in
          mret (Some ([(need_item, JInt need_qty)], [(offer_item, JInt offer_qty)]))
      | None => Ok None
      end
  end.

Definition parse_accept_from_text (texto : str) : result (option (pydict * pydict)) :=
  let t := texto in
  match search TAG_ACCEPT_RE t with
  | None => Ok None
  | Some m => Ok (load_pair m)
  end.

(** ** Conversions of decoded values *)

Definition round_half_even (p q : Z) : Z :=
  let d := (p / q)%Z in
  let r := (p mod q)%Z in
  if (2 * r <? q)%Z then d
  else if (q <? 2 * r)%Z then (d + 1)%Z
  else if Z.even d then d else (d + 1)%Z.

(** [int(float(p/q))] for positive [p] and [q]: the quotient is rounded to
    the nearest binary64 number, ties to even, and then truncated. *)
Definition trunc_binary64 (p q : Z) : result Z :=
  let k := (Z.log2 p - Z.log2 q)%Z in
  let e := if (0 <=? k)%Z
           then (if (q * 2 ^ k <=? p)%Z then k else k - 1)%Z
           else (if (q <=? p * 2 ^ (- k))%Z then k else k - 1)%Z in
  let ex := Z.max (e - 52) (-1074) in
  let m := if (0 <=? ex)%Z then round_half_even p (q * 2 ^ ex)
           else round_half_even (p * 2 ^ (- ex)) q in
  if (0 <=? ex)%Z then
    (if (2 ^ 1024 <=? m * 2 ^ ex)%Z then Raise OverflowError else Ok (m * 2 ^ ex)%Z)
  else Ok (m / 2 ^ (- ex))%Z.

Definition int_of_float (f : pyfloat) : result Z :=
  match f with
  | FNaN => Raise ValueError
  | FInf _ => Raise OverflowError
  | FNum neg mant e10 =>
      if mant =? 0 then Ok 0%Z
      else
        z ← (if (0 <=? e10)%Z then trunc_binary64 (Z.of_N mant * 10 ^ e10) 1
             else trunc_binary64 (Z.of_N mant) (10 ^ (- e10)));
        mret (if neg then (- z)%Z else z)
  end.

(** [int(v)] for a decoded JSON value. *)
Definition py_int (v : json) : result Z :=
  match v with
  | JInt z => Ok z
  | JBool b => Ok (if b then 1 else 0)%Z
  | JFloat f => int_of_float f
  | JStr s => int_of_str s
  | JNull | JList _ | JDict _ => Raise TypeError
  end.

(** ** State of the agent *)

Record InfoPuesto : Type := {
  Alias : str;
  Recursos : list (str * Z);
  Objetivo : list (str * Z) }.

(** A message of the mailbox; a field that is missing or null is [None]. *)
Record mail : Type := {
  remi : option str;
  asunto : option str;
  cuerpo : option str }.

Inductive action : Type :=
| Esperar
| Ofertar (dest need_recurso : str) (need_cantidad : Z)
          (offer_recurso : str) (offer_cantidad : Z)
| Aceptar (mensaje_id : str).

Record Decision : Type := {
  razonamiento : str;
  accion : action }.

Record config : Type := {
  ALIAS : str;
  OFFER_COOLDOWN_PER_DEST : Z;
  OFFER_COOLDOWN_GLOBAL : Z;
  BAD_DEST_SECONDS : Z;
  ALLOW_BREAK_OBJECTIVE : bool;
  ACCEPT_ANY : bool;
  CLEAN_INBOX : bool;
  MAX_MAILS : Z }.

(** ** Heuristics *)

Definition get0 (k : str) (d : list (str * Z)) : Z := default 0%Z (dict_get k d).

Definition faltantes (estado : InfoPuesto) : list (str * Z) :=
  fold_left
    (fun f '(r, obj) =>
       let cur := get0 r (Recursos estado) in
       if (cur <? obj)%Z then dict_set r (obj - cur)%Z f else f)
    (Objetivo estado) [].

Definition excedentes (estado : InfoPuesto) : list (str * Z) :=
  fold_left
    (fun exc '(r, qty) =>
       if str_eqb r (u "oro") then exc
       else
         let obj := get0 r (Objetivo estado) in
         let exc1 := if (obj <? qty)%Z then dict_set r (qty - obj)%Z exc else exc in
         if negb (dict_has r (Objetivo estado)) && (0 <? qty)%Z
         then dict_set r (Z.max (get0 r exc1) qty) exc1
         else exc1)
    (Recursos estado) [].

Definition can_give (cfg : config) (estado : InfoPuesto) (item : str) (qty : Z) : bool :=
  let have := get0 item (Recursos estado) in
  if (have <? qty)%Z then false
  else if ALLOW_BREAK_OBJECTIVE cfg then true
  else
    let obj := get0 item (Objetivo estado) in
    (qty <=? have - obj)%Z.

(** [max(d, key=lambda k: d[k])] of a non-empty dict: the first key among
    those of greatest value. *)
Fixpoint max_key (best : str * Z) (d : list (str * Z)) : str :=
  match d with
  | [] => fst best
  | (k, v) :: d' => if (snd best <? v)%Z then max_key (k, v) d' else max_key best d'
  end.


(** ** The world the agent acts in *)

(** Body of a letter: a text, or one of the two replies of the settlement
    pass, which print the expected items inside a fixed sentence. *)
Inductive body : Type :=
| Text (s : str)
| Listo (espero : pydict)      (* "Listo. Te envié {espero}." *)
| NoTengo (espero : pydict).   (* "No tengo suficiente para enviarte {espero}." *)

Inductive request : Type :=
| PostCarta (remitente dest asunto : str) (cuerpo : body)
| PostPaquete (dest : str) (paquete : list (str * Z))
| DeleteMail (mail_id : str).

(** What can be observed of a run: every HTTP attempt with the status it got
    ([None] when the transport raised), and every text given to a decoder
    together with the message it came from. *)
Inductive event : Type :=
| Http (r : request) (status : option Z)
| DecodeAccept (mid texto : str)
| DecodeOffer (mid texto : str).

(** The environment: the successive readings of the clock, the answer to
    the n-th HTTP attempt, and the random choices. *)
Record env : Type := {
  clock : nat -> Q;
  net : nat -> request -> option Z;
  shuffle : list str -> list str;
  choice_need : list str -> str;
  choice_offer : list str -> str }.

Record world : Type := {
  LAST_OFFER_TS_DEST : gmap str Q;
  LAST_OFFER_TS_GLOBAL : Q;
  BAD_DEST_UNTIL : gmap str Q;
  estado_cache : list (str * Z);
  mails_by_id : list (str * mail);
  ticks : nat;
  attempts : nat;
  trace : list event }.

Definition M (A : Type) : Type := world -> result A * world.

#[export] Instance M_ret : MRet M := fun _ a w => (Ok a, w).
#[export] Instance M_bind : MBind M :=
  fun _ _ f m w =>
    match m w with
    | (Ok a, w') => f a w'
    | (Raise e, w') => (Raise e, w')
    end.

Definition get_world : M world := fun w => (Ok w, w).
Definition modify (f : world -> world) : M unit := fun w => (Ok tt, f w).
Definition raise {A : Type} (e : exn) : M A := fun w => (Raise e, w).
Definition lift {A : Type} (r : result A) : M A := fun w => (r, w).

(** [try: m except Exception: h] *)
Definition try_except {A : Type} (m : M A) (h : M A) : M A :=
  fun w =>
    match m w with
    | (Ok a, w') => (Ok a, w')
    | (Raise _, w') => h w'
    end.

Fixpoint mfor {X : Type} (l : list X) (f : X -> M unit) : M unit :=
  match l with
  | [] => mret tt
  | x :: l' => f x ;; mfor l' f
  end.

(** A loop whose body may return from the enclosing function. *)
Fixpoint mfor_return {X R : Type} (l : list X) (f : X -> M (option R)) : M (option R) :=
  match l with
  | [] => mret None
  | x :: l' =>
      r ← f x;
      match r with
      | Some v => mret (Some v)
      | None => mfor_return l' f
      end
  end.

Definition set_last_dest (d : str) (t : Q) (w : world) : world :=
  {| LAST_OFFER_TS_DEST := <[d := t]> (LAST_OFFER_TS_DEST w);
     LAST_OFFER_TS_GLOBAL := LAST_OFFER_TS_GLOBAL w;
     BAD_DEST_UNTIL := BAD_DEST_UNTIL w;
     estado_cache := estado_cache w; mails_by_id := mails_by_id w;
     ticks := ticks w; attempts := attempts w; trace := trace w |}.

Definition set_last_global (t : Q) (w : world) : world :=
  {| LAST_OFFER_TS_DEST := LAST_OFFER_TS_DEST w;
     LAST_OFFER_TS_GLOBAL := t;
     BAD_DEST_UNTIL := BAD_DEST_UNTIL w;
     estado_cache := estado_cache w; mails_by_id := mails_by_id w;
     ticks := ticks w; attempts := attempts w; trace := trace w |}.

Definition set_bad_dest (d : str) (t : Q) (w : world) : world :=
  {| LAST_OFFER_TS_DEST := LAST_OFFER_TS_DEST w;
     LAST_OFFER_TS_GLOBAL := LAST_OFFER_TS_GLOBAL w;
     BAD_DEST_UNTIL := <[d := t]> (BAD_DEST_UNTIL w);
     estado_cache := estado_cache w; mails_by_id := mails_by_id w;
     ticks := ticks w; attempts := attempts w; trace := trace w |}.

Definition set_estado_cache (r : list (str * Z)) (w : world) : world :=
  {| LAST_OFFER_TS_DEST := LAST_OFFER_TS_DEST w;
     LAST_OFFER_TS_GLOBAL := LAST_OFFER_TS_GLOBAL w;
     BAD_DEST_UNTIL := BAD_DEST_UNTIL w;
     estado_cache := r; mails_by_id := mails_by_id w;
     ticks := ticks w; attempts := attempts w; trace := trace w |}.

Definition set_mails (m : list (str * mail)) (w : world) : world :=
  {| LAST_OFFER_TS_DEST := LAST_OFFER_TS_DEST w;
     LAST_OFFER_TS_GLOBAL := LAST_OFFER_TS_GLOBAL w;
     BAD_DEST_UNTIL := BAD_DEST_UNTIL w;
     estado_cache := estado_cache w; mails_by_id := m;
     ticks := ticks w; attempts := attempts w; trace := trace w |}.

Definition tick (w : world) : world :=
  {| LAST_OFFER_TS_DEST := LAST_OFFER_TS_DEST w;
     LAST_OFFER_TS_GLOBAL := LAST_OFFER_TS_GLOBAL w;
     BAD_DEST_UNTIL := BAD_DEST_UNTIL w;
     estado_cache := estado_cache w; mails_by_id := mails_by_id w;
     ticks := S (ticks w); attempts := attempts w; trace := trace w |}.

Definition record (e : event) (w : world) : world :=
  {| LAST_OFFER_TS_DEST := LAST_OFFER_TS_DEST w;
     LAST_OFFER_TS_GLOBAL := LAST_OFFER_TS_GLOBAL w;
     BAD_DEST_UNTIL := BAD_DEST_UNTIL w;
     estado_cache := estado_cache w; mails_by_id := mails_by_id w;
     ticks := ticks w; attempts := attempts w; trace := trace w ++ [e] |}.

Definition attempted (w : world) : world :=
  {| LAST_OFFER_TS_DEST := LAST_OFFER_TS_DEST w;
     LAST_OFFER_TS_GLOBAL := LAST_OFFER_TS_GLOBAL w;
     BAD_DEST_UNTIL := BAD_DEST_UNTIL w;
     estado_cache := estado_cache w; mails_by_id := mails_by_id w;
     ticks := ticks w; attempts := S (attempts w); trace := trace w |}.

Definition Qltb (x y : Q) : bool := negb (Qle_bool y x).

(** [l[n:]] *)
Definition slice_from {X : Type} (n : Z) (l : list X) : list X :=
  if (n <? 0)%Z then drop (Z.to_nat (Z.max 0 (Z.of_nat (length l) + n))) l
  else drop (Z.to_nat n) l.

Definition text_of (o : option str) : str := strip (default [] o).

Section Agent.
Variable cfg : config.
Variable E : env.

(** [time.time()] *)
Definition time_time : M Q :=
  fun w => (Ok (clock E (ticks w)), tick w).

(** One call of [requests.request]. *)
Definition requests_request (r : request) : M (option Z) :=
  fun w =>
    let status := net E (attempts w) r in
    (Ok status, record (Http r status) (attempted w)).

Fixpoint retry (n : nat) (r : request) : M Z :=
  match n with
  | O => raise RequestException
  | S n' =>
      o ← requests_request r;
      match o with
      | Some status => mret status
      | None => retry n' r
      end
  end.

Definition request_with_retry (r : request) : M Z := retry 3 r.

Definition mark_bad (dest : str) : M unit :=
  now ← time_time;
  modify (set_bad_dest dest (now + inject_Z (BAD_DEST_SECONDS cfg))%Q).

Definition enviar_carta (dest asunto : str) (cuerpo : body) : M bool :=
  r ← try_except
        (status ← request_with_retry (PostCarta (ALIAS cfg) dest asunto cuerpo);
         mret (Some status))
        (mret None);
  match r with
  | None => mark_bad dest;; mret false
  | Some status =>
      let ok := (status =? 200)%Z in
      (if negb ok then mark_bad dest else mret tt);;
      mret ok
  end.

Definition borrar_mail (mail_id : str) : M unit :=
  _ ← request_with_retry (DeleteMail mail_id);
  mret tt.

Definition enviar_paquete (dest : str) (paquete : list (str * Z)) : M bool :=
  status ← request_with_retry (PostPaquete dest paquete);
  let ok := (status =? 200)%Z in
  (if negb ok then mark_bad dest else mret tt);;
  mret ok.

Definition pop_mail (mid : str) : M unit :=
  modify (fun w => set_mails (dict_pop mid (mails_by_id w)) w).

(** The loop that checks the holdings against what the peer expects; it
    stops at the first item that is not covered. *)
Fixpoint covers (recursos : list (str * Z)) (espero : pydict) : result bool :=
  match espero with
  | [] => Ok true
  | (k, v) :: rest =>
      iv ← py_int v;
      if (get0 k recursos <? iv)%Z then Ok false else covers recursos rest
  end.

(** [{k: int(v) for k, v in espero.items()}]; the keys of [espero] are
    distinct, so every item is a new entry. *)
Fixpoint int_values (espero : pydict) : result (list (str * Z)) :=
  match espero with
  | [] => Ok []
  | (k, v) :: rest =>
      iv ← py_int v;
      r ← int_values rest;
      mret ((k, iv) :: r)
  end.

Definition procesar_mail (entry : str * mail) : M unit :=
  let '(mid, m) := entry in
  let remi := text_of (remi m) in
  let asunto := text_of (asunto m) in
  let cuerpo := text_of (cuerpo m) in
  if str_eqb (lower remi) (u "sistema") then
    (if CLEAN_INBOX cfg then borrar_mail mid;; pop_mail mid else mret tt)
  else
    modify (record (DecodeAccept mid cuerpo));;
    acc ← lift (parse_accept_from_text cuerpo);
    match acc with
    | Some (_, espero) =>
        if negb (str_eqb remi []) then
          w ← get_world;
          ok_send ← lift (covers (estado_cache w) espero);
          (if ok_send : bool then
             paquete ← lift (int_values espero);
             _ ← enviar_paquete remi paquete;
             _ ← enviar_carta remi (u "Env" ++ [0xED] ++ u "o") (Listo espero);
             mret tt
           else
             _ ← enviar_carta remi (u "No puedo") (NoTengo espero);
             mret tt);;
          (if CLEAN_INBOX cfg then borrar_mail mid;; pop_mail mid else mret tt)
        else mret tt
    | None => mret tt
    end.

Definition procesar_mails_automaticos : M unit :=
  w ← get_world;
  mfor (mails_by_id w) procesar_mail.

(** ** Anti-spam *)

Definition can_send_offer_now (dest : str) : M bool :=
  now ← time_time;
  w ← get_world;
  if match BAD_DEST_UNTIL w !! dest with
     | Some until => Qltb now until
     | None => false
     end
  then mret false
  else if Qltb (now - LAST_OFFER_TS_GLOBAL w) (inject_Z (OFFER_COOLDOWN_GLOBAL cfg)) then mret false
  else
    let last_d := default 0%Q (LAST_OFFER_TS_DEST w !! dest) in
    if Qltb (now - last_d) (inject_Z (OFFER_COOLDOWN_PER_DEST cfg)) then mret false
    else mret true.

Definition mark_offer_sent (dest : str) : M unit :=
  now ← time_time;
  modify (set_last_global now);;
  modify (set_last_dest dest now).

(** ** Deciding and executing *)

Definition wait (why : string) : Decision :=
  {| razonamiento := u why; accion := Esperar |}.

(** The first part of [decidir_fallback]: the mailbox is cut down to
    [MAX_MAILS] entries. *)
Definition limitar_buzon : M unit :=
  w ← get_world;
  if CLEAN_INBOX cfg && (MAX_MAILS cfg <? Z.of_nat (length (mails_by_id w)))%Z then
    mfor (slice_from (MAX_MAILS cfg) (List.map fst (mails_by_id w)))
         (fun mid => borrar_mail mid;; pop_mail mid)
  else mret tt.

Definition discard (mid : str) : M unit :=
  if CLEAN_INBOX cfg then borrar_mail mid;; pop_mail mid else mret tt.

(** Body of the loop over incoming offers; [Some] is a [return]. *)
Definition considerar_oferta (estado : InfoPuesto) (f : list (str * Z))
    (entry : str * mail) : M (option Decision) :=
  let '(mid, m) := entry in
  let remi := text_of (remi m) in
  let cuerpo := text_of (cuerpo m) in
  if str_eqb remi [] || str_eqb remi (ALIAS cfg) then mret None
  else
    modify (record (DecodeOffer mid cuerpo));;
    parsed ← lift (parse_offer_from_text cuerpo);
    match parsed with
    | None => mret None
    | Some (quiero, ofrezco) =>
        '(need_item, need_qty) ← lift (only_item quiero);
        '(offer_item, offer_qty) ← lift (only_item ofrezco);
        need_qty ← lift (py_int need_qty);
        offer_qty ← lift (py_int offer_qty);
        if negb (can_give cfg estado need_item need_qty) then
          discard mid;; mret None
        else if ACCEPT_ANY cfg || (0 <? get0 offer_item f)%Z then
          need ← lift (str_of_int need_qty);
          offer ← lift (str_of_int offer_qty);
          mret (Some
            {| razonamiento :=
                 u "Acepto: puedo dar " ++ need ++ u " " ++ need_item
                 ++ u "; recibir" ++ [0xED] ++ u "a " ++ offer
                 ++ u " " ++ offer_item ++ u ".";
               accion := Aceptar mid |})
        else discard mid;; mret None
    end.

(** First candidate that the rate limiter lets through. *)
Fixpoint first_sendable (otros : list str) : M (option str) :=
  match otros with
  | [] => mret None
  | cand :: rest =>
      ok ← can_send_offer_now cand;
      if ok : bool then mret (Some cand) else first_sendable rest
  end.

(** The second part of [decidir_fallback]: a proactive offer. *)
Definition ofertar_proactivo (estado : InfoPuesto) (gente : list str)
    (f exc : list (str * Z)) : M Decision :=
  let otros := List.filter (fun a => negb (str_eqb a (ALIAS cfg))) gente in
  match otros with
  | [] => mret (wait "No hay otros agentes conectados.")
  | _ :: _ =>
      let otros := shuffle E otros in
      dest ← first_sendable otros;
      match dest with
      | None => mret (wait "Cooldown/global o destinos malos -> espero.")
      | Some dest =>
          let need_item :=
            match f with
            | kv :: f' => max_key kv f'
            | [] =>
                match List.map fst (Recursos estado) with
                | [] => choice_need E [u "madera"]
                | ks => choice_need E ks
                end
            end in
          let offer_item :=
            match exc with
            | kv :: exc' => Some (max_key kv exc')
            | [] =>
                let cand_items :=
                  List.map fst
                    (List.filter (fun '(k, v) => (1 <=? v)%Z && can_give cfg estado k 1)
                                 (Recursos estado)) in
                match cand_items with
                | [] => None
                | _ :: _ => Some (choice_offer E cand_items)
                end
            end in
          match offer_item with
          | None => mret (wait "No tengo buen recurso para ofrecer ahora.")
          | Some offer_item =>
              if str_eqb offer_item [] || str_eqb offer_item need_item
              then mret (wait "No tengo buen recurso para ofrecer ahora.")
              else mret
                {| razonamiento :=
                     u "Oferto a " ++ dest ++ u ": pido " ++ need_item
                     ++ u " y ofrezco " ++ offer_item ++ u ".";
                   accion := Ofertar dest need_item 1 offer_item 1 |}
          end
      end
  end.

Definition decidir_fallback (estado : InfoPuesto) (gente : list str) : M Decision :=
  let f := faltantes estado in
  let exc := excedentes estado in
  limitar_buzon;;
  w ← get_world;
  accepted ← mfor_return (mails_by_id w) (considerar_oferta estado f);
  match accepted with
  | Some dec => mret dec
  | None => ofertar_proactivo estado gente f exc
  end.

Definition ejecutar_decision (dec : Decision) (estado : InfoPuesto) : M unit :=
  match accion dec with
  | Esperar => mret tt
  | Ofertar dest need_r need_c off_r off_c =>
      if str_eqb dest [] || str_eqb need_r [] || str_eqb off_r []
         || (need_c <=? 0)%Z || (off_c <=? 0)%Z
      then mret tt
      else
        sendable ← can_send_offer_now dest;
        if negb sendable then mret tt
        else
          cuerpo ← lift (build_offer_body need_r need_c off_r off_c);
          ok ← enviar_carta dest (u "Oferta") (Text cuerpo);
          if ok : bool then mark_offer_sent dest else mret tt
  | Aceptar mid =>
      w ← get_world;
      match (if str_eqb mid [] then None else dict_get mid (mails_by_id w)) with
      | None => mret tt
      | Some m =>
          let remi := text_of (remi m) in
          let cuerpo := text_of (cuerpo m) in
          modify (record (DecodeOffer mid cuerpo));;
          parsed ← lift (parse_offer_from_text cuerpo);
          match (if str_eqb remi [] then None else parsed) with
          | None => mret tt
          | Some (quiero, ofrezco) =>
              '(need_item, need_qty) ← lift (only_item quiero);
              '(offer_item, offer_qty) ← lift (only_item ofrezco);
              need_qty ← lift (py_int need_qty);
              offer_qty ← lift (py_int offer_qty);
              if negb (can_give cfg estado need_item need_qty) then
                (if CLEAN_INBOX cfg then borrar_mail mid else mret tt)
              else
                ok ← enviar_paquete remi [(need_item, need_qty)];
                if ok : bool then
                  cuerpo_acc ← lift (build_accept_body [(need_item, need_qty)]
                                                      [(offer_item, offer_qty)]);
                  _ ← enviar_carta remi (u "Acepto") (Text cuerpo_acc);
                  if CLEAN_INBOX cfg then borrar_mail mid else mret tt
                else mret tt
          end
      end
  end.

(** One iteration of [ciclo_autonomo], once the state and the list of
    agents have been fetched: the [try] block and its handler. *)
Definition ciclo (estado : InfoPuesto) (buzon : list (str * mail)) (gente : list str) : M unit :=
  try_except
    (modify (set_estado_cache (Recursos estado));;
     modify (set_mails buzon);;
     procesar_mails_automaticos;;
     dec ← decidir_fallback estado gente;
     ejecutar_decision dec estado)
    (mret tt).

End Agent.


(** The transport answers every request: no attempt raises. *)
Definition responsive (E : env) : Prop := forall n r, is_Some (net E n r).

(** ** Notions used in the statements *)

Definition quote (s : string) : str := [0x22] ++ u s ++ [0x22].

Definition spaces : list char :=
  [0x09; 0x0A; 0x0B; 0x0C; 0x0D; 0x1C; 0x1D; 0x1E; 0x1F; 0x20; 0x85; 0xA0; 0x1680;
   0x2000; 0x2001; 0x2002; 0x2003; 0x2004; 0x2005; 0x2006; 0x2007; 0x2008; 0x2009;
   0x200A; 0x2028; 0x2029; 0x202F; 0x205F; 0x3000].

(** The answer of [can_send_offer_now] as a function of the reading of the
    clock. *)
Definition sendable (cfg : config) (w : world) (dest : str) (now : Q) : bool :=
  negb (match BAD_DEST_UNTIL w !! dest with
        | Some until => Qltb now until
        | None => false
        end)
  && negb (Qltb (now - LAST_OFFER_TS_GLOBAL w) (inject_Z (OFFER_COOLDOWN_GLOBAL cfg)))
  && negb (Qltb (now - default 0%Q (LAST_OFFER_TS_DEST w !! dest))
                (inject_Z (OFFER_COOLDOWN_PER_DEST cfg))).

(** The offer is attempted: the fields are filled, the quantities positive
    and the rate limiter lets it through at this reading of the clock. *)
Definition offer_attempted (cfg : config) (E : env) (w : world)
    (dest need_r : str) (need_c : Z) (off_r : str) (off_c : Z) : bool :=
  negb (str_eqb dest [] || str_eqb need_r [] || str_eqb off_r []
        || (need_c <=? 0)%Z || (off_c <=? 0)%Z)
  && sendable cfg w dest (clock E (ticks w)).

Definition preserves {A : Type} (R : world -> world -> Prop) (m : M A) : Prop :=
  forall w, R w (m w).2.

(** The relations used below: the mailbox, and the clock together with the
    three tables of the rate limiter. *)
Definition same_mails (w w' : world) : Prop := mails_by_id w = mails_by_id w'.

Definition same_limiter (w w' : world) : Prop :=
  ticks w = ticks w' /\
  LAST_OFFER_TS_GLOBAL w = LAST_OFFER_TS_GLOBAL w' /\
  LAST_OFFER_TS_DEST w = LAST_OFFER_TS_DEST w' /\
  BAD_DEST_UNTIL w = BAD_DEST_UNTIL w'.

Definition returns {A : Type} (P : A -> Prop) (m : M A) : Prop :=
  forall w, match (m w).1 with Ok a => P a | Raise _ => True end.

(** ** What a pattern accepts *)

(** [lang r w g g']: the pattern [r] accepts the text [w] and turns the
    groups [g] into [g']. *)
Fixpoint lang (r : regex) (w : str) (g g' : groups) : Prop :=
  match r with
  | Empty => w = [] /\ g' = g
  | Chr p => exists c, w = [c] /\ p c = true /\ g' = g
  | Seq r1 r2 =>
      exists w1 w2 g1, w = w1 ++ w2 /\ lang r1 w1 g g1 /\ lang r2 w2 g1 g'
  | Star p | StarLazy p => Forall (fun c => p c = true) w /\ g' = g
  | Plus p => w <> [] /\ Forall (fun c => p c = true) w /\ g' = g
  | Group n r1 => exists g1, lang r1 w g g1 /\ g' = (n, w) :: g1
  end.

(** ** Item names *)

(** A name made of the letters that the natural-language pattern accepts,
    [a-zA-ZáéíóúñÑ]. *)
Definition alphabetic (s : str) : Prop := Forall (fun c => c ∈ item_letters) s.

#[export] Instance alphabetic_dec (s : str) : stdpp.base.Decision (alphabetic s) :=
  Forall_dec (fun c => c ∈ item_letters) s.

(** A character that [json.dumps] writes as it is and that does not close
    an object: not a control character, a quote, a backslash or a brace. *)
Definition plain (c : char) : bool :=
  (0x20 <=? c) && negb (c =? 0x22) && negb (c =? 0x5C) && negb (c =? 0x7D).

(** A character that [.*?] can pass over and that is not the closing brace
    of the pattern. *)
Definition inner (c : char) : bool := dot c && negb (lit_i 0x7D c).

(** What [json.dumps] writes between the braces for one plain key and a
    value printed as [s]. *)
Definition inside (k s : str) : str := 0x22 :: k ++ 0x22 :: 0x3A :: 0x20 :: s.

(** ** The address of a request and the alias of the agent *)

(** [s.lstrip(chars)] *)
Fixpoint lstrip_chars (chars s : str) : str :=
  match s with
  | c :: s' => if bool_decide (c ∈ chars) then lstrip_chars chars s' else s
  | [] => []
  end.

(** [s.rstrip(chars)] *)
Definition rstrip_chars (chars s : str) : str := rev (lstrip_chars chars (rev s)).

(** [_url(path)], for the address [BUTLER_URL] of the broker. *)
Definition _url (BUTLER_URL path : str) : str := rstrip_chars (u "/") BUTLER_URL ++ path.

Section Alias.
Variable cfg : config.
(** [http_post(path, payload={}).status_code], through the retries. *)
Variable http_post : str -> M Z.
(** [random.randint(1000, 9999)] *)
Variable randint : Z.

(** The alias tried at one turn of the loop: the base alias first, then the
    base alias followed by the number of the attempt. *)
Definition candidate_of (attempt : Z) : result str :=
  if (attempt =? 1)%Z then Ok (ALIAS cfg)
  else n ← str_of_int attempt; mret (ALIAS cfg ++ u "-" ++ n).

(** Body of the loop over the attempts; [Some] is a [return]. *)
Definition probar_alias (attempt : Z) : M (option str) :=
  candidate ← lift (candidate_of attempt);
  status ← http_post (u "/alias/" ++ candidate);
  if (status =? 200)%Z then mret (Some candidate) else mret None.

Definition set_alias_in_butler : M str :=
  let base := ALIAS cfg in
  found ← mfor_return [1; 2; 3; 4; 5]%Z probar_alias;
  match found with
  | Some candidate => mret candidate
  | None =>
      n ← lift (str_of_int randint);
      let candidate := base ++ u "-" ++ n in
      status ← http_post (u "/alias/" ++ candidate);
      if (status =? 200)%Z then mret candidate else mret base
  end.

End Alias.

(** ** Notions used in the properties of the heuristics, the senders, the
    mailbox and the decisions *)

(** The shortfall of one objective, if any. *)
Definition shortfall (estado : InfoPuesto) (entry : str * Z) : option (str * Z) :=
  let '(r, obj) := entry in
  let cur := get0 r (Recursos estado) in
  if (cur <? obj)%Z then Some (r, (obj - cur)%Z) else None.

(** The surplus of one resource, if any: gold is never one. *)
Definition surplus (estado : InfoPuesto) (entry : str * Z) : option (str * Z) :=
  let '(r, qty) := entry in
  if str_eqb r (u "oro") then None
  else
    let obj := get0 r (Objetivo estado) in
    if (obj <? qty)%Z then Some (r, (qty - obj)%Z) else None.

(** What [json.dumps] writes between the quotes for a string. *)
Definition escaped (k : str) : str := flat_map escape_char k.

(** [w'] has the cached holdings of [w] and its trace, followed by events
    that all satisfy [P]. *)
Definition emits (P : event -> Prop) (w w' : world) : Prop :=
  estado_cache w' = estado_cache w /\
  exists evs, trace w' = trace w ++ evs /\ Forall P evs.

(** Anything but a request to delete a message. *)
Definition not_a_deletion (e : event) : Prop :=
  match e with
  | Http (DeleteMail _) _ => False
  | _ => True
  end.

(** A transfer is of one item in a quantity that [can_give] allows. *)
Definition payable (cfg : config) (estado : InfoPuesto) (e : event) : Prop :=
  match e with
  | Http (PostPaquete _ paquete) _ =>
      exists item qty, paquete = [(item, qty)] /\ can_give cfg estado item qty = true
  | _ => True
  end.

(** A transfer or a letter goes to a sender that is named and is not the
    system, and a transfer asks of each item no more than is held. *)
Definition covered_by (recursos : list (str * Z)) (e : event) : Prop :=
  match e with
  | Http (PostPaquete dest paquete) _ =>
      dest <> [] /\ lower dest <> u "sistema" /\
      Forall (fun kq => (snd kq <= get0 (fst kq) recursos)%Z) paquete
  | Http (PostCarta _ dest _ _) _ => dest <> [] /\ lower dest <> u "sistema"
  | _ => True
  end.

(** The mailbox is untouched and nothing is deleted at the broker. *)
Definition keeps_mails (w w' : world) : Prop :=
  same_mails w w' /\ emits not_a_deletion w w'.

(** From holdings [c], only what [c] covers is sent. *)
Definition settles (c : list (str * Z)) (w w' : world) : Prop :=
  estado_cache w = c -> emits (covered_by c) w w'.

(** A message that the settlement pass deals with: it comes from the
    system, or it decodes as an acceptance and names its sender. *)
Definition settled (m : mail) : bool :=
  str_eqb (lower (text_of (remi m))) (u "sistema")
  || match parse_accept_from_text (text_of (cuerpo m)) with
     | Ok (Some _) => negb (str_eqb (text_of (remi m)) [])
     | _ => false
     end.

(** What [decidir_fallback] has checked of the message it accepts. *)
Definition acceptable (cfg : config) (estado : InfoPuesto) (m : mail) : Prop :=
  text_of (remi m) <> [] /\ text_of (remi m) <> ALIAS cfg /\
  exists need_item nq need_qty offer_item oq,
    parse_offer_from_text (text_of (cuerpo m))
    = Ok (Some ([(need_item, nq)], [(offer_item, oq)])) /\
    py_int nq = Ok need_qty /\
    can_give cfg estado need_item need_qty = true /\
    (ACCEPT_ANY cfg = true \/ (0 < get0 offer_item (faltantes estado))%Z).

(** The shape of an offer that [decidir_fallback] decides. *)
Definition well_formed_offer (cfg : config) (estado : InfoPuesto) (gente : list str)
    (a : action) : Prop :=
  match a with
  | Ofertar dest need_recurso need_cantidad offer_recurso offer_cantidad =>
      need_cantidad = 1%Z /\ offer_cantidad = 1%Z /\
      offer_recurso <> need_recurso /\ offer_recurso <> [] /\
      dest ∈ gente /\ dest <> ALIAS cfg /\
      offer_recurso ∈ List.map fst (Recursos estado)
  | _ => True
  end.

(** ** Concrete settings used in the examples *)

(** A request in natural language for a quantity of 4301 digits. *)
Definition digitos_largos : str :=
  u "Necesito " ++ List.repeat 0x31 4301 ++ u " madera y ofrezco 1 oro".

(** The values the program takes when the environment sets nothing. *)
Definition defaults : config :=
  {| ALIAS := u "fdi-pln-2612";
     OFFER_COOLDOWN_PER_DEST := 25;
     OFFER_COOLDOWN_GLOBAL := 10;
     BAD_DEST_SECONDS := 60;
     ALLOW_BREAK_OBJECTIVE := false;
     ACCEPT_ANY := false;
     CLEAN_INBOX := true;
     MAX_MAILS := 20 |}.

(** The same with FDI_PLN__CLEAN_INBOX=0. *)
Definition no_cleanup : config :=
  {| ALIAS := u "fdi-pln-2612";
     OFFER_COOLDOWN_PER_DEST := 25;
     OFFER_COOLDOWN_GLOBAL := 10;
     BAD_DEST_SECONDS := 60;
     ALLOW_BREAK_OBJECTIVE := false;
     ACCEPT_ANY := false;
     CLEAN_INBOX := false;
     MAX_MAILS := 20 |}.

(** A broker that answers 200 to everything, a clock that starts at 1000
    and advances one second per reading, and choices that take the first. *)
Definition calm : env :=
  {| clock := fun n => inject_Z (1000 + Z.of_nat n);
     net := fun _ _ => Some 200%Z;
     shuffle := fun l => l;
     choice_need := fun l => hd [] l;
     choice_offer := fun l => hd [] l |}.

(** The same broker with a clock that stands still. *)
Definition frozen : env :=
  {| clock := fun _ => inject_Z 1000;
     net := fun _ _ => Some 200%Z;
     shuffle := fun l => l;
     choice_need := fun l => hd [] l;
     choice_offer := fun l => hd [] l |}.

(** A mailbox limited to one message. *)
Definition one_mail : config :=
  {| ALIAS := u "fdi-pln-2612";
     OFFER_COOLDOWN_PER_DEST := 25;
     OFFER_COOLDOWN_GLOBAL := 10;
     BAD_DEST_SECONDS := 60;
     ALLOW_BREAK_OBJECTIVE := false;
     ACCEPT_ANY := false;
     CLEAN_INBOX := true;
     MAX_MAILS := 1 |}.

Definition nota (de texto : string) : mail :=
  {| remi := Some (u de); asunto := Some (u "Nota"); cuerpo := Some (u texto) |}.

(** The state of a process that has just started. *)
Definition fresh : world :=
  {| LAST_OFFER_TS_DEST := ∅;
     LAST_OFFER_TS_GLOBAL := 0%Q;
     BAD_DEST_UNTIL := ∅;
     estado_cache := [];
     mails_by_id := [];
     ticks := 0;
     attempts := 0;
     trace := [] |}.

Definition scenario_A : InfoPuesto :=
  {| Alias := u "fdi-pln-2612";
     Recursos := [(u "madera", 5%Z); (u "oro", 10%Z)];
     Objetivo := [(u "madera", 8%Z)] |}.

Definition aviso : mail :=
  {| remi := Some (u "Sistema");
     asunto := Some (u "Aviso");
     cuerpo := Some (u "Necesito 1 madera y ofrezco 1 oro.") |}.

Definition estado_con_madera : InfoPuesto :=
  {| Alias := u "fdi-pln-2612";
     Recursos := [(u "madera", 5%Z)];
     Objetivo := [(u "oro", 1%Z)] |}.

Definition aceptacion : mail :=
  {| remi := Some (u "p2");
     asunto := Some (u "Acepto");
     cuerpo := Some (u "[ACEPTO_V1] te_envio={" ++ quote "oro" ++ u ": 1} espero={"
                     ++ quote "madera" ++ u ": 2}") |}.

Definition con_buzon (buzon : list (str * mail)) (recursos : list (str * Z)) : world :=
  set_mails buzon (set_estado_cache recursos fresh).

(** A broker that refuses everything with status 500. *)
Definition refusing : env :=
  {| clock := fun n => inject_Z (1000 + Z.of_nat n);
     net := fun _ _ => Some 500%Z;
     shuffle := fun l => l;
     choice_need := fun l => hd [] l;
     choice_offer := fun l => hd [] l |}.

(** A broker that never answers: every attempt raises. *)
Definition silent : env :=
  {| clock := fun n => inject_Z (1000 + Z.of_nat n);
     net := fun _ _ => None;
     shuffle := fun l => l;
     choice_need := fun l => hd [] l;
     choice_offer := fun l => hd [] l |}.

(** A message that names no sender. *)
Definition anonimo : mail :=
  {| remi := None;
     asunto := Some (u "Acepto");
     cuerpo := Some (u "[ACEPTO_V1] te_envio={" ++ quote "oro" ++ u ": 1} espero={"
                     ++ quote "madera" ++ u ": 2}") |}.

(** A broker that refuses every transfer with status 400 and answers 200 to
    the letters and the deletions. *)
Definition sin_transferencias : env :=
  {| clock := fun n => inject_Z (1000 + Z.of_nat n);
     net := fun _ r => match r with
                       | PostPaquete _ _ => Some 400%Z
                       | _ => Some 200%Z
                       end;
     shuffle := fun l => l;
     choice_need := fun l => hd [] l;
     choice_offer := fun l => hd [] l |}.

(** An acceptance that expects a quantity [null]. *)
Definition aceptacion_nula : mail :=
  {| remi := Some (u "p3");
     asunto := Some (u "Acepto");
     cuerpo := Some (u "[ACEPTO_V1] te_envio={" ++ quote "oro" ++ u ": 1} espero={"
                     ++ quote "madera" ++ u ": null}") |}.

(** A broker at which the base alias and the first two numbered ones are
    taken. *)
Definition alias_taken (path : str) : M Z :=
  fun w =>
    (Ok (if bool_decide (path ∈ [u "/alias/fdi-pln-2612"; u "/alias/fdi-pln-2612-2";
                                 u "/alias/fdi-pln-2612-3"])
         then 403%Z else 200%Z), w).

(** * Properties *)

(** ** Running the monad *)

Lemma run_bind {A B : Type} (m : M A) (f : A -> M B) (w : world) :
  (m ≫= f) w = match m w with
               | (Ok a, w') => f a w'
               | (Raise e, w') => (Raise e, w')
               end.
Proof. reflexivity. Qed.

Lemma run_ret {A : Type} (a : A) (w : world) : (mret a : M A) w = (Ok a, w).
Proof. reflexivity. Qed.

Lemma Qltb_lt (x y : Q) : Qltb x y = true <-> (x < y)%Q.
Proof.
  unfold Qltb. rewrite negb_true_iff, <- not_true_iff_false, Qle_bool_iff.
  split; [apply Qnot_le_lt | apply Qlt_not_le].
Qed.

Lemma Qltb_ge (x y : Q) : Qltb x y = false <-> (y <= x)%Q.
Proof.
  unfold Qltb. rewrite negb_false_iff. apply Qle_bool_iff.
Qed.

(** ** Rate limiter *)

Lemma can_send_offer_now_run cfg E dest w :
  can_send_offer_now cfg E dest w = (Ok (sendable cfg w dest (clock E (ticks w))), tick w).
Proof.
  unfold can_send_offer_now, sendable, time_time, get_world.
  unfold mbind, M_bind, mret, M_ret. cbn.
  destruct (BAD_DEST_UNTIL w !! dest) as [until|]; cbn.
  - destruct (Qltb (clock E (ticks w)) until); cbn; [reflexivity|].
    destruct (Qltb _ (inject_Z (OFFER_COOLDOWN_GLOBAL cfg))); cbn; [reflexivity|].
    destruct (Qltb _ (inject_Z (OFFER_COOLDOWN_PER_DEST cfg))); reflexivity.
  - destruct (Qltb _ (inject_Z (OFFER_COOLDOWN_GLOBAL cfg))); cbn; [reflexivity|].
    destruct (Qltb _ (inject_Z (OFFER_COOLDOWN_PER_DEST cfg))); reflexivity.
Qed.

Lemma mark_offer_sent_run E dest w :
  mark_offer_sent E dest w
  = (Ok tt, set_last_dest dest (clock E (ticks w))
              (set_last_global (clock E (ticks w)) (tick w))).
Proof. reflexivity. Qed.

Lemma sendable_before cfg w dest t now :
  LAST_OFFER_TS_DEST w !! dest = Some t ->
  (now < t + inject_Z (OFFER_COOLDOWN_PER_DEST cfg))%Q ->
  sendable cfg w dest now = false.
Proof.
  intros Hd Hlt. unfold sendable. rewrite Hd. cbn.
  generalize dependent (inject_Z (OFFER_COOLDOWN_PER_DEST cfg)). intros pd Hlt.
  assert (Qltb (now - t) pd = true) as ->.
  { apply Qltb_lt. lra. }
  cbn. apply andb_false_r.
Qed.

Lemma sendable_at cfg w dest t now :
  LAST_OFFER_TS_DEST w !! dest = Some t ->
  (now == t + inject_Z (OFFER_COOLDOWN_PER_DEST cfg))%Q ->
  (forall until, BAD_DEST_UNTIL w !! dest = Some until -> (until <= now)%Q) ->
  (inject_Z (OFFER_COOLDOWN_GLOBAL cfg) <= now - LAST_OFFER_TS_GLOBAL w)%Q ->
  sendable cfg w dest now = true.
Proof.
  intros Hd Hat Hbad Hglob. unfold sendable. rewrite Hd. cbn.
  generalize dependent (inject_Z (OFFER_COOLDOWN_PER_DEST cfg)). intros pd Hat.
  assert (Qltb (now - t) pd = false) as ->.
  { apply Qltb_ge. lra. }
  assert (Qltb (now - LAST_OFFER_TS_GLOBAL w) (inject_Z (OFFER_COOLDOWN_GLOBAL cfg)) = false) as ->.
  { apply Qltb_ge. exact Hglob. }
  destruct (BAD_DEST_UNTIL w !! dest) as [until|]; [|reflexivity].
  assert (Qltb now until = false) as ->; [|reflexivity].
  apply Qltb_ge. apply Hbad. reflexivity.
Qed.

(** C4. After [mark_offer_sent dest] at time [t], the destination and the
    global timestamp are [t]; from then on, in any later state [w2] in which
    no other offer to [dest] was marked, [can_send_offer_now dest] answers
    false at time [t] and at any time before [t + OFFER_COOLDOWN_PER_DEST],
    one second before it in particular, and answers true at
    [t + OFFER_COOLDOWN_PER_DEST] when [dest] is not blacklisted then and the
    global cooldown has elapsed. The per-destination window is positive. *)
Theorem cooldown_window_per_destination (cfg : config) (E : env) (dest : str) (w : world)
    (Hpos : (0 < OFFER_COOLDOWN_PER_DEST cfg)%Z) :
  let t := clock E (ticks w) in
  let pd := inject_Z (OFFER_COOLDOWN_PER_DEST cfg) in
  let w1 := (mark_offer_sent E dest w).2 in
  (mark_offer_sent E dest w).1 = Ok tt /\
  LAST_OFFER_TS_DEST w1 !! dest = Some t /\
  LAST_OFFER_TS_GLOBAL w1 = t /\
  forall (E2 : env) (w2 : world),
    LAST_OFFER_TS_DEST w2 !! dest = Some t ->
    let now := clock E2 (ticks w2) in
    let answer := (can_send_offer_now cfg E2 dest w2).1 in
    ((now == t)%Q -> answer = Ok false) /\
    ((now < t + pd)%Q -> answer = Ok false) /\
    ((now == t + pd - 1)%Q -> answer = Ok false) /\
    ((now == t + pd)%Q ->
     (forall until, BAD_DEST_UNTIL w2 !! dest = Some until -> (until <= now)%Q) ->
     (inject_Z (OFFER_COOLDOWN_GLOBAL cfg) <= now - LAST_OFFER_TS_GLOBAL w2)%Q ->
     answer = Ok true).
Proof.
  intros t pd w1. subst w1. rewrite mark_offer_sent_run.
  split; [reflexivity|]. split; [cbn; apply lookup_insert_eq|]. split; [reflexivity|].
  intros E2 w2 Hd now answer. subst answer. rewrite can_send_offer_now_run. cbn.
  fold now.
  assert (0 < pd)%Q as Hpd.
  { unfold pd. change 0%Q with (inject_Z 0). rewrite <- Zlt_Qlt. exact Hpos. }
  assert (forall x, (x < t + pd)%Q -> sendable cfg w2 dest x = false) as Hbefore.
  { intros x Hx. apply (sendable_before cfg w2 dest t); assumption. }
  pose proof (sendable_at cfg w2 dest t now Hd) as Hat. fold pd in Hat.
  clearbody pd now.
  repeat split.
  - intros Hnow. f_equal. apply Hbefore. lra.
  - intros Hnow. f_equal. apply Hbefore. exact Hnow.
  - intros Hnow. f_equal. apply Hbefore. lra.
  - intros Hnow Hbad Hglob. f_equal. apply Hat; assumption.
Qed.


(** ** Frame rules: what a computation leaves unchanged *)

Section Frame.
Variable R : world -> world -> Prop.
Hypothesis R_refl : forall w, R w w.
Hypothesis R_trans : forall a b c, R a b -> R b c -> R a c.

Lemma preserves_ret {A : Type} (a : A) : preserves R (mret a).
Proof. intros w. apply R_refl. Qed.

Lemma preserves_raise {A : Type} (e : exn) : preserves R (raise e : M A).
Proof. intros w. apply R_refl. Qed.

Lemma preserves_lift {A : Type} (r : result A) : preserves R (lift r).
Proof. intros w. apply R_refl. Qed.

Lemma preserves_get : preserves R get_world.
Proof. intros w. apply R_refl. Qed.

Lemma preserves_bind {A B : Type} (m : M A) (f : A -> M B) :
  preserves R m -> (forall a, preserves R (f a)) -> preserves R (m ≫= f).
Proof.
  intros Hm Hf w. rewrite run_bind. specialize (Hm w).
  destruct (m w) as [[a|e] w1]; cbn in *; [|exact Hm].
  eapply R_trans; [exact Hm | apply Hf].
Qed.

Lemma preserves_try {A : Type} (m h : M A) :
  preserves R m -> preserves R h -> preserves R (try_except m h).
Proof.
  intros Hm Hh w. unfold try_except. specialize (Hm w).
  destruct (m w) as [[a|e] w1]; cbn in *; [exact Hm|].
  eapply R_trans; [exact Hm | apply Hh].
Qed.

Lemma preserves_mfor {X : Type} (l : list X) (f : X -> M unit) :
  (forall x, preserves R (f x)) -> preserves R (mfor l f).
Proof.
  intros Hf. induction l as [|x l IH]; cbn; [apply preserves_ret|].
  apply preserves_bind; [apply Hf | intros _; exact IH].
Qed.

Lemma preserves_mfor_return {X V : Type} (l : list X) (f : X -> M (option V)) :
  (forall x, preserves R (f x)) -> preserves R (mfor_return l f).
Proof.
  intros Hf. induction l as [|x l IH]; cbn; [apply preserves_ret|].
  apply preserves_bind; [apply Hf|]. intros [v|]; [apply preserves_ret | exact IH].
Qed.

Lemma preserves_modify (g : world -> world) :
  (forall w, R w (g w)) -> preserves R (modify g).
Proof. intros Hg w. apply Hg. Qed.

Lemma preserves_if {A : Type} (b : bool) (m1 m2 : M A) :
  preserves R m1 -> preserves R m2 -> preserves R (if b then m1 else m2).
Proof. destruct b; auto. Qed.

Hypothesis R_record : forall e w, R w (record e w).
Hypothesis R_attempted : forall w, R w (attempted w).

Lemma preserves_requests_request E r : preserves R (requests_request E r).
Proof.
  intros w. unfold requests_request. cbn.
  eapply R_trans; [apply R_attempted | apply R_record].
Qed.

Lemma preserves_retry E n r : preserves R (retry E n r).
Proof.
  induction n as [|n IH]; cbn; [apply preserves_raise|].
  apply preserves_bind; [apply preserves_requests_request|].
  intros [status|]; [apply preserves_ret | exact IH].
Qed.

Lemma preserves_borrar_mail E mid : preserves R (borrar_mail E mid).
Proof.
  apply preserves_bind; [apply preserves_retry | intros; apply preserves_ret].
Qed.

End Frame.

Lemma same_limiter_refl w : same_limiter w w.
Proof. repeat split. Qed.

Lemma same_limiter_trans a b c : same_limiter a b -> same_limiter b c -> same_limiter a c.
Proof. unfold same_limiter. intros (?&?&?&?) (?&?&?&?). repeat split; congruence. Qed.

Lemma same_mails_trans a b c : same_mails a b -> same_mails b c -> same_mails a c.
Proof. unfold same_mails. congruence. Qed.

Create HintDb frame.
#[local] Hint Resolve same_limiter_refl same_limiter_trans same_mails_trans : frame.
#[local] Hint Extern 1 (same_mails _ _) => reflexivity : frame.
#[local] Hint Extern 1 (same_limiter _ (record _ _)) => (repeat split) : frame.
#[local] Hint Extern 1 (same_limiter _ (attempted _)) => (repeat split) : frame.
#[local] Hint Extern 1 (same_limiter _ (set_mails _ _)) => (repeat split) : frame.

Lemma borrar_mail_limiter E mid : preserves same_limiter (borrar_mail E mid).
Proof. apply preserves_borrar_mail; eauto with frame. Qed.

Lemma borrar_mail_mails E mid : preserves same_mails (borrar_mail E mid).
Proof. apply preserves_borrar_mail; eauto with frame. Qed.

Lemma pop_mail_limiter mid : preserves same_limiter (pop_mail mid).
Proof. apply preserves_modify. intros w. repeat split. Qed.

Lemma discard_limiter cfg E mid : preserves same_limiter (discard cfg E mid).
Proof.
  unfold discard. apply preserves_if; eauto with frame.
  - apply preserves_bind; eauto with frame.
    + apply borrar_mail_limiter.
    + intros _. apply pop_mail_limiter.
  - apply preserves_ret; eauto with frame.
Qed.

Lemma limitar_buzon_limiter cfg E : preserves same_limiter (limitar_buzon cfg E).
Proof.
  unfold limitar_buzon. apply preserves_bind; eauto with frame.
  { apply preserves_get; eauto with frame. }
  intros w. apply preserves_if; eauto with frame.
  - apply preserves_mfor; eauto with frame. intros mid.
    apply preserves_bind; eauto with frame.
    + apply borrar_mail_limiter.
    + intros _. apply pop_mail_limiter.
  - apply preserves_ret; eauto with frame.
Qed.

Lemma considerar_oferta_limiter cfg E estado f entry :
  preserves same_limiter (considerar_oferta cfg E estado f entry).
Proof.
  destruct entry as [mid m]. unfold considerar_oferta.
  apply preserves_if; [apply preserves_ret; eauto with frame|].
  apply preserves_bind; eauto with frame.
  { apply preserves_modify. intros w. repeat split. }
  intros _. apply preserves_bind; eauto with frame.
  { apply preserves_lift; eauto with frame. }
  intros [[quiero ofrezco]|]; [|apply preserves_ret; eauto with frame].
  apply preserves_bind; eauto with frame; [apply preserves_lift; eauto with frame|].
  intros [need_item need_qty].
  apply preserves_bind; eauto with frame; [apply preserves_lift; eauto with frame|].
  intros [offer_item offer_qty].
  apply preserves_bind; eauto with frame; [apply preserves_lift; eauto with frame|].
  intros nq.
  apply preserves_bind; eauto with frame; [apply preserves_lift; eauto with frame|].
  intros oq.
  apply preserves_if.
  - apply preserves_bind; eauto with frame; [apply discard_limiter|].
    intros _. apply preserves_ret; eauto with frame.
  - apply preserves_if.
    + apply preserves_bind; eauto with frame; [apply preserves_lift; eauto with frame|].
      intros need.
      apply preserves_bind; eauto with frame; [apply preserves_lift; eauto with frame|].
      intros offer. apply preserves_ret; eauto with frame.
    + apply preserves_bind; eauto with frame; [apply discard_limiter|].
      intros _. apply preserves_ret; eauto with frame.
Qed.


(** ** Postconditions on the returned value *)

Lemma returns_ret {A : Type} (P : A -> Prop) (a : A) : P a -> returns P (mret a).
Proof. intros H w. exact H. Qed.

Lemma returns_bind {A B : Type} (P : B -> Prop) (m : M A) (f : A -> M B) :
  (forall a, returns P (f a)) -> returns P (m ≫= f).
Proof.
  intros Hf w. rewrite run_bind.
  destruct (m w) as [[a|e] w1]; cbn; [apply Hf | exact I].
Qed.

Lemma returns_if {A : Type} (P : A -> Prop) (b : bool) (m1 m2 : M A) :
  returns P m1 -> returns P m2 -> returns P (if b then m1 else m2).
Proof. destruct b; auto. Qed.

Lemma returns_mfor_return {X V : Type} (P : V -> Prop) (l : list X) (f : X -> M (option V)) :
  (forall x, returns (fun o => forall v, o = Some v -> P v) (f x)) ->
  returns (fun o => forall v, o = Some v -> P v) (mfor_return l f).
Proof.
  intros Hf. induction l as [|x l IH]; cbn.
  - apply returns_ret. discriminate.
  - intros w. rewrite run_bind. specialize (Hf x w).
    destruct (f x w) as [[[v|]|e] w1]; cbn in *; [exact Hf | apply IH | exact I].
Qed.

Lemma considerar_oferta_returns cfg E estado f entry :
  returns (fun o => forall d, o = Some d -> exists mid, accion d = Aceptar mid)
          (considerar_oferta cfg E estado f entry).
Proof.
  destruct entry as [mid m]. unfold considerar_oferta.
  apply returns_if; [apply returns_ret; discriminate|].
  apply returns_bind; intros _. apply returns_bind.
  intros [[quiero ofrezco]|]; [|apply returns_ret; discriminate].
  apply returns_bind; intros [need_item need_qty].
  apply returns_bind; intros [offer_item offer_qty].
  apply returns_bind; intros nq. apply returns_bind; intros oq.
  apply returns_if.
  - apply returns_bind; intros _. apply returns_ret; discriminate.
  - apply returns_if.
    + apply returns_bind; intros need. apply returns_bind; intros offer.
      apply returns_ret. intros d [= <-]. cbn. eauto.
    + apply returns_bind; intros _. apply returns_ret; discriminate.
Qed.

(** ** Shortfalls and surpluses *)

(** C7. With resources madera 5, oro 10 and objective madera 8, the only
    shortfall is madera 3 and there is no surplus. *)
Theorem scenario_A_shortfall_and_surplus :
  faltantes scenario_A = [(u "madera", 3%Z)] /\ excedentes scenario_A = [].
Proof. split; vm_compute; reflexivity. Qed.

(** ** The global cooldown *)

Lemma sendable_global cfg w dest now :
  (now - LAST_OFFER_TS_GLOBAL w < inject_Z (OFFER_COOLDOWN_GLOBAL cfg))%Q ->
  sendable cfg w dest now = false.
Proof.
  intros H. unfold sendable. apply Qltb_lt in H. rewrite H. cbn.
  rewrite andb_false_r. reflexivity.
Qed.

Lemma first_sendable_blocked cfg E otros : forall w,
  (forall n, (ticks w <= n)%nat ->
     (clock E n - LAST_OFFER_TS_GLOBAL w < inject_Z (OFFER_COOLDOWN_GLOBAL cfg))%Q) ->
  (first_sendable cfg E otros w).1 = Ok None.
Proof.
  induction otros as [|cand rest IH]; intros w H; [reflexivity|].
  cbn [first_sendable]. rewrite run_bind, can_send_offer_now_run.
  rewrite sendable_global by (apply H; lia).
  apply IH. intros n Hn. cbn in *. apply H. lia.
Qed.



(** ** The transport *)

Lemma request_with_retry_answered E r w status :
  net E (attempts w) r = Some status ->
  request_with_retry E r w = (Ok status, record (Http r (Some status)) (attempted w)).
Proof.
  intros H. unfold request_with_retry. cbn [retry].
  rewrite run_bind. unfold requests_request. rewrite H. reflexivity.
Qed.

Lemma request_with_retry_responsive E r w :
  responsive E ->
  exists status, request_with_retry E r w
                 = (Ok status, record (Http r (Some status)) (attempted w)).
Proof.
  intros H. destruct (H (attempts w) r) as [status Hs].
  exists status. apply request_with_retry_answered. exact Hs.
Qed.

Lemma borrar_mail_responsive E mid w :
  responsive E ->
  exists status, borrar_mail E mid w
                 = (Ok tt, record (Http (DeleteMail mid) (Some status)) (attempted w)).
Proof.
  intros H. destruct (request_with_retry_responsive E (DeleteMail mid) w H) as [status Hs].
  exists status. unfold borrar_mail. rewrite run_bind, Hs. reflexivity.
Qed.

(** ** Capacity of the mailbox *)

Lemma dict_pop_keys {V : Type} (k : str) (d : list (str * V)) :
  k ∈ List.map fst d -> List.map fst d ≡ₚ k :: List.map fst (dict_pop k d).
Proof.
  induction d as [|[k' v] d IH]; cbn; intros Hin.
  - apply elem_of_nil in Hin. destruct Hin.
  - unfold str_eqb. case_bool_decide as Hk.
    + subst k'. reflexivity.
    + cbn. apply elem_of_cons in Hin as [->|Hin]; [congruence|].
      rewrite (IH Hin) at 1. apply Permutation_swap.
Qed.

Lemma dict_pop_length {V : Type} (k : str) (d : list (str * V)) :
  k ∈ List.map fst d -> S (length (dict_pop k d)) = length d.
Proof.
  intros Hin. apply dict_pop_keys in Hin. apply Permutation_length in Hin.
  cbn in Hin. rewrite !length_map in Hin. lia.
Qed.

(** The loop of the enforcement step: when it completes, one entry has gone
    for every identifier it was given. *)
Lemma limitar_loop E (todo : list str) : forall w w',
  todo ⊆+ List.map fst (mails_by_id w) ->
  mfor todo (fun mid => borrar_mail E mid;; pop_mail mid) w = (Ok tt, w') ->
  (length (mails_by_id w') + length todo = length (mails_by_id w))%nat.
Proof.
  induction todo as [|k todo IH]; intros w w' Hsub Hrun.
  - cbn in Hrun. injection Hrun as <-. cbn. lia.
  - cbn [mfor] in Hrun. rewrite !run_bind in Hrun.
    pose proof (borrar_mail_mails E k w) as Hm. unfold same_mails in Hm.
    destruct (borrar_mail E k w) as [[[]|e] w1]; cbn in Hm; [|discriminate].
    cbn [pop_mail modify] in Hrun.
    apply submseteq_cons_l in Hsub as (keys' & Hperm & Hsub).
    assert (k ∈ List.map fst (mails_by_id w)) as Hin.
    { rewrite Hperm. apply elem_of_cons. left. reflexivity. }
    pose proof (dict_pop_keys k (mails_by_id w) Hin) as Hpop.
    apply IH in Hrun.
    + cbn in Hrun. rewrite <- Hm in Hrun.
      pose proof (dict_pop_length k (mails_by_id w) Hin). cbn. lia.
    + cbn. rewrite <- Hm.
      apply (submseteq_app_inv_l _ _ [k]). cbn. rewrite <- Hpop, Hperm.
      apply submseteq_skip. exact Hsub.
Qed.

Lemma limitar_loop_completes E (todo : list str) : forall w,
  responsive E ->
  exists w', mfor todo (fun mid => borrar_mail E mid;; pop_mail mid) w = (Ok tt, w').
Proof.
  induction todo as [|k todo IH]; intros w H.
  - eexists. reflexivity.
  - cbn [mfor]. rewrite !run_bind.
    destruct (borrar_mail_responsive E k w H) as [status ->].
    cbn [pop_mail modify]. apply IH. exact H.
Qed.



(** ** Sending an offer *)

Lemma request_with_retry_limiter E r : preserves same_limiter (request_with_retry E r).
Proof. apply preserves_retry; eauto with frame. Qed.

(** What [enviar_carta] returns and does, from the outcome of the request. *)
Lemma enviar_carta_run cfg E dest asunto cuerpo w :
  enviar_carta cfg E dest asunto cuerpo w =
  let '(r, w1) := request_with_retry E (PostCarta (ALIAS cfg) dest asunto cuerpo) w in
  if match r with Ok status => (status =? 200)%Z | Raise _ => false end
  then (Ok true, w1)
  else (Ok false,
        set_bad_dest dest (clock E (ticks w1) + inject_Z (BAD_DEST_SECONDS cfg))%Q (tick w1)).
Proof.
  unfold enviar_carta. rewrite run_bind. unfold try_except. rewrite run_bind.
  destruct (request_with_retry E _ w) as [[status|e] w1]; cbn.
  - destruct (status =? 200)%Z; reflexivity.
  - reflexivity.
Qed.

(** C10. Executing an offer, when the letter is attempted and its body can
    be written: if the letter fails, by an exception of the transport or a
    status other than 200, the two cooldown timestamps keep their values and
    the blacklist entry of the destination becomes the next reading of the
    clock plus [BAD_DEST_SECONDS]; if it is answered with 200 both timestamps
    become that reading and the blacklist is untouched. When the letter is not
    attempted, or its body cannot be written, nothing changes. *)
Theorem failed_offer_keeps_cooldown (cfg : config) (E : env) (estado : InfoPuesto)
    (why dest need_r off_r : str) (need_c off_c : Z) (w : world) :
  let dec := {| razonamiento := why; accion := Ofertar dest need_r need_c off_r off_c |} in
  let run := ejecutar_decision cfg E dec estado w in
  let w' := run.2 in
  let now := clock E (S (ticks w)) in
  if offer_attempted cfg E w dest need_r need_c off_r off_c then
    match build_offer_body need_r need_c off_r off_c with
    | Raise e => run.1 = Raise e /\ same_limiter (tick w) w'
    | Ok cuerpo =>
        run.1 = Ok tt /\
        match (request_with_retry E
                 (PostCarta (ALIAS cfg) dest (u "Oferta") (Text cuerpo)) (tick w)).1 with
        | Ok status =>
            if (status =? 200)%Z then
              LAST_OFFER_TS_GLOBAL w' = now /\
              LAST_OFFER_TS_DEST w' = <[dest := now]> (LAST_OFFER_TS_DEST w) /\
              BAD_DEST_UNTIL w' = BAD_DEST_UNTIL w
            else
              LAST_OFFER_TS_GLOBAL w' = LAST_OFFER_TS_GLOBAL w /\
              LAST_OFFER_TS_DEST w' = LAST_OFFER_TS_DEST w /\
              BAD_DEST_UNTIL w'
              = <[dest := (now + inject_Z (BAD_DEST_SECONDS cfg))%Q]> (BAD_DEST_UNTIL w)
        | Raise _ =>
            LAST_OFFER_TS_GLOBAL w' = LAST_OFFER_TS_GLOBAL w /\
            LAST_OFFER_TS_DEST w' = LAST_OFFER_TS_DEST w /\
            BAD_DEST_UNTIL w'
            = <[dest := (now + inject_Z (BAD_DEST_SECONDS cfg))%Q]> (BAD_DEST_UNTIL w)
        end
    end
  else run.1 = Ok tt /\ (same_limiter w w' \/ same_limiter (tick w) w').
Proof.
  intros dec run w' now. subst w' run dec. unfold ejecutar_decision, offer_attempted.
  cbn [accion].
  destruct (str_eqb dest [] || str_eqb need_r [] || str_eqb off_r []
            || (need_c <=? 0)%Z || (off_c <=? 0)%Z); cbn [negb andb].
  { split; [reflexivity|]. left. apply same_limiter_refl. }
  rewrite run_bind, can_send_offer_now_run.
  destruct (sendable cfg w dest (clock E (ticks w))); cbn [negb].
  2:{ split; [reflexivity|]. right. apply same_limiter_refl. }
  rewrite run_bind. unfold lift.
  destruct (build_offer_body need_r need_c off_r off_c) as [cuerpo|e]; cbn beta iota.
  2:{ split; [reflexivity|]. apply same_limiter_refl. }
  rewrite run_bind, enviar_carta_run.
  pose proof (request_with_retry_limiter E
                (PostCarta (ALIAS cfg) dest (u "Oferta") (Text cuerpo)) (tick w))
    as (Ht & Hg & Hd & Hb).
  destruct (request_with_retry E _ (tick w)) as [[status|e] w1];
    cbn in Ht, Hg, Hd, Hb |- *.
  - destruct (status =? 200)%Z.
    + rewrite mark_offer_sent_run. cbn. rewrite <- Ht, <- Hd, <- Hb. auto.
    + cbn. rewrite <- Ht, <- Hg, <- Hd, <- Hb. auto.
  - rewrite <- Ht, <- Hg, <- Hd, <- Hb. auto.
Qed.

(** ** Messages of the system *)

(** In the settlement pass a message of the system is not decoded: it is
    deleted when cleanup is enabled and skipped otherwise. *)
Lemma procesar_mail_sistema cfg E mid m w :
  lower (text_of (remi m)) = u "sistema" ->
  procesar_mail cfg E (mid, m) w
  = if CLEAN_INBOX cfg then (borrar_mail E mid;; pop_mail mid) w else (Ok tt, w).
Proof.
  intros H. unfold procesar_mail. rewrite H.
  unfold str_eqb. rewrite bool_decide_eq_true_2 by reflexivity.
  destruct (CLEAN_INBOX cfg); reflexivity.
Qed.

(** C8, at a failing input. Cleanup is disabled and the mailbox holds one
    message of the system whose text reads as an offer: the cycle gives its
    body to the offer decoder, in the scan and again when executing, accepts
    it and sends resources and a letter to the system. *)
Theorem system_message_decoded_without_cleanup :
  let run := ciclo no_cleanup calm estado_con_madera [(u "m1", aviso)] [u "p2"] fresh in
  lower (text_of (remi aviso)) = u "sistema" /\
  run.1 = Ok tt /\
  trace run.2
  = [DecodeOffer (u "m1") (u "Necesito 1 madera y ofrezco 1 oro.");
     DecodeOffer (u "m1") (u "Necesito 1 madera y ofrezco 1 oro.");
     Http (PostPaquete (u "Sistema") [(u "madera", 1%Z)]) (Some 200%Z);
     Http (PostCarta (u "fdi-pln-2612") (u "Sistema") (u "Acepto")
             (Text (u "[ACEPTO_V1] te_envio={" ++ [0x22] ++ u "madera" ++ [0x22]
                    ++ u ": 1} espero={" ++ [0x22] ++ u "oro" ++ [0x22] ++ u ": 1}"
                    ++ [0x0A] ++ u "Acepto tu oferta. Te envi" ++ [0xE9]
                    ++ u " 1 madera. Enviame 1 oro.")))
          (Some 200%Z)].
Proof. vm_compute. repeat split; reflexivity. Qed.


(** ** Settlement of acceptances *)

Lemma procesar_mails_automaticos_loop cfg E w :
  procesar_mails_automaticos cfg E w = mfor (mails_by_id w) (procesar_mail cfg E) w.
Proof. reflexivity. Qed.

Lemma covers_int_values recursos espero :
  covers recursos espero = Ok true -> exists paquete, int_values espero = Ok paquete.
Proof.
  induction espero as [|[k v] rest IH]; cbn; intros H; [eexists; reflexivity|].
  destruct (py_int v) as [iv|e]; cbn in *; [|discriminate].
  destruct (get0 k recursos <? iv)%Z; [discriminate|].
  destruct (IH H) as [p ->]. eexists. reflexivity.
Qed.

(** Removal is behind [if CLEAN_INBOX]: with cleanup disabled, an
    acceptance of a peer whose expectation the holdings cover is settled, by a
    transfer and a confirmation, and stays in the mailbox. *)
Lemma settled_acceptance_stays_without_cleanup :
  let w := con_buzon [(u "m7", aceptacion)] [(u "madera", 5%Z)] in
  let run := procesar_mails_automaticos no_cleanup calm w in
  parse_accept_from_text (text_of (cuerpo aceptacion))
  = Ok (Some ([(u "oro", JInt 1)], [(u "madera", JInt 2)])) /\
  covers (estado_cache w) [(u "madera", JInt 2)] = Ok true /\
  run.1 = Ok tt /\
  trace run.2
  = [DecodeAccept (u "m7") (text_of (cuerpo aceptacion));
     Http (PostPaquete (u "p2") [(u "madera", 2%Z)]) (Some 200%Z);
     Http (PostCarta (u "fdi-pln-2612") (u "p2") (u "Env" ++ [0xED] ++ u "o")
             (Listo [(u "madera", JInt 2)])) (Some 200%Z)] /\
  mails_by_id run.2 = [(u "m7", aceptacion)].
Proof. vm_compute. repeat split; reflexivity. Qed.


(** ** Soundness of the matcher: what it returns, the pattern accepts *)

Section MatcherSound.
Context {A : Type}.

Lemma star_greedy_sound (p : char -> bool) (s : str) (k : str -> option A) (a : A) :
  star_greedy p s k = Some a ->
  exists w s', s = w ++ s' /\ Forall (fun c => p c = true) w /\ k s' = Some a.
Proof.
  induction s as [|c s IH]; cbn; intros H.
  - exists [], []. auto.
  - destruct (p c) eqn:Hp.
    + destruct (star_greedy p s k) as [a'|] eqn:Hs.
      * injection H as ->. destruct (IH eq_refl) as (w & s' & -> & Hw & Hk).
        exists (c :: w), s'. auto.
      * exists [], (c :: s). auto.
    + exists [], (c :: s). auto.
Qed.

Lemma star_lazy_sound (p : char -> bool) (s : str) (k : str -> option A) (a : A) :
  star_lazy p s k = Some a ->
  exists w s', s = w ++ s' /\ Forall (fun c => p c = true) w /\ k s' = Some a.
Proof.
  induction s as [|c s IH]; cbn; intros H.
  - destruct (k []) eqn:Hk; [|discriminate]. exists [], []. rewrite Hk. auto.
  - destruct (k (c :: s)) eqn:Hk.
    + exists [], (c :: s). rewrite Hk. auto.
    + destruct (p c) eqn:Hp; [|discriminate].
      destruct (IH H) as (w & s' & -> & Hw & Hk').
      exists (c :: w), s'. auto.
Qed.

Lemma rmatch_sound (r : regex) : forall (s : str) (g : groups)
    (k : str -> groups -> option A) (a : A),
  rmatch r s g k = Some a ->
  exists w s' g', s = w ++ s' /\ lang r w g g' /\ k s' g' = Some a.
Proof.
  induction r as [p|r1 IH1 r2 IH2|p|p|p|n r IH|]; intros s g k a H; cbn in H.
  - destruct s as [|c s]; [discriminate|]. destruct (p c) eqn:Hp; [|discriminate].
    exists [c], s, g. cbn. eauto 6.
  - apply IH1 in H as (w1 & s1 & g1 & -> & H1 & H).
    apply IH2 in H as (w2 & s2 & g2 & -> & H2 & H).
    exists (w1 ++ w2), s2, g2. rewrite <- app_assoc. cbn. eauto 10.
  - apply star_greedy_sound in H as (w & s' & -> & Hw & Hk).
    exists w, s', g. cbn. auto.
  - apply star_lazy_sound in H as (w & s' & -> & Hw & Hk).
    exists w, s', g. cbn. auto.
  - destruct s as [|c s]; [discriminate|]. destruct (p c) eqn:Hp; [|discriminate].
    apply star_greedy_sound in H as (w & s' & -> & Hw & Hk).
    exists (c :: w), s', g. cbn. repeat split; auto; discriminate.
  - apply IH in H as (w & s' & g' & -> & Hr & Hk).
    rewrite length_app, Nat.add_sub, take_app_length in Hk.
    exists w, s', ((n, w) :: g'). cbn. eauto.
  - exists [], s, g. cbn. auto.
Qed.

End MatcherSound.

Lemma search_sound (r : regex) (s : str) (g : groups) :
  search r s = Some g -> exists pre w post, s = pre ++ w ++ post /\ lang r w [] g.
Proof.
  induction s as [|c s IH]; cbn; intros H.
  - destruct (rmatch r [] [] _) as [g'|] eqn:Hm; [|discriminate].
    injection H as ->. apply rmatch_sound in Hm as (w & s' & g' & Hs & Hl & [= ->]).
    exists [], w, s'. auto.
  - destruct (rmatch r (c :: s) [] _) as [g'|] eqn:Hm.
    + injection H as ->. apply rmatch_sound in Hm as (w & s' & g' & Hs & Hl & [= ->]).
      exists [], w, s'. auto.
    + destruct (IH H) as (pre & w & post & -> & Hl).
      exists (c :: pre), w, post. auto.
Qed.

(** A literal captures nothing. *)
Lemma lang_chars_groups (ps : list (char -> bool)) : forall w g g',
  lang (seq_of (List.map Chr ps)) w g g' -> g' = g.
Proof.
  induction ps as [|p ps IH]; intros w g g'; [cbn; tauto|].
  destruct ps as [|p' ps].
  - cbn. intros (c & _ & _ & ->). reflexivity.
  - change (seq_of (List.map Chr (p :: p' :: ps)))
      with (Seq (Chr p) (seq_of (List.map Chr (p' :: ps)))).
    cbn [lang]. intros (w1 & w2 & g1 & _ & (c & _ & _ & ->) & H2).
    apply IH in H2. exact H2.
Qed.

Lemma lang_lit_groups (l : string) w g g' : lang (lit l) w g g' -> g' = g.
Proof.
  unfold lit. rewrite <- (map_map (fun l => lit_i l) Chr). apply lang_chars_groups.
Qed.

(** The groups of a match of [OFFER_RE]: two runs of digits and two runs of
    letters, none of them empty, taken from the text. *)
Lemma offer_re_groups (t : str) (m : groups) :
  search OFFER_RE t = Some m ->
  exists d1 n1 d2 n2,
    m = [(4, n2); (3, d2); (2, n1); (1, d1)]%nat /\
    (length d1 <= length t)%nat /\ (length d2 <= length t)%nat /\
    d1 <> [] /\ Forall (fun c => isdecimal c = true) d1 /\
    d2 <> [] /\ Forall (fun c => isdecimal c = true) d2 /\
    n1 <> [] /\ Forall (fun c => set_i item_letters c = true) n1 /\
    n2 <> [] /\ Forall (fun c => set_i item_letters c = true) n2.
Proof.
  intros H. apply search_sound in H as (pre & w & post & Ht & H).
  unfold OFFER_RE in H. cbv [seq_of] in H. cbn [lang] in H.
  destruct H as (? & ? & g1 & E1 & Hl1 & H). apply lang_lit_groups in Hl1. subst g1.
  destruct H as (? & ? & g1 & E2 & (? & _ & _ & ->) & H).
  destruct H as (? & ? & g1 & E3 & (_ & _ & ->) & H).
  destruct H as (d1 & ? & g1 & E4 & (g0 & (Hd1 & Hd1' & ->) & ->) & H).
  destruct H as (? & ? & g1 & E5 & (_ & _ & ->) & H).
  destruct H as (n1 & ? & g1 & E6 & (g0 & (Hn1 & Hn1' & ->) & ->) & H).
  destruct H as (? & ? & g1 & E7 & (_ & ->) & H).
  destruct H as (? & ? & g1 & E8 & Hl2 & H). apply lang_lit_groups in Hl2. subst g1.
  destruct H as (? & ? & g1 & E9 & (? & _ & _ & ->) & H).
  destruct H as (? & ? & g1 & E10 & (_ & _ & ->) & H).
  destruct H as (d2 & ? & g1 & E11 & (g0 & (Hd2 & Hd2' & ->) & ->) & H).
  destruct H as (? & ? & g1 & E12 & (_ & _ & ->) & H).
  destruct H as (g0 & (Hn2 & Hn2' & ->) & ->).
  eexists d1, n1, d2, _. split; [reflexivity|].
  subst. rewrite !length_app. repeat split; try eassumption; lia.
Qed.

(** ** Digits, spaces and letters *)

Lemma isspace_spaces (c : char) : isspace c = true -> In c spaces.
Proof.
  unfold isspace, in_range. rewrite !orb_true_iff, !andb_true_iff, !N.leb_le, !N.eqb_eq.
  unfold spaces. cbn [In]. lia.
Qed.

Lemma space_not_decimal (c : char) : isspace c = true -> isdecimal c = false.
Proof.
  intros H. apply isspace_spaces in H.
  assert (Forall (fun c => isdecimal c = false) spaces) as Hall.
  { unfold spaces. repeat constructor. }
  rewrite Forall_forall in Hall. apply Hall. apply list_elem_of_In. exact H.
Qed.

Lemma isdecimal_value (c : char) :
  isdecimal c = true -> exists d, decimal_value c = Some d /\ (0 <= d)%Z.
Proof.
  unfold isdecimal. intros H. apply bool_decide_eq_true_1 in H as [d Hd].
  exists d. split; [exact Hd|].
  unfold decimal_value in Hd. revert Hd. generalize nd_starts.
  induction l as [|s l IH]; cbn; [discriminate|].
  destruct (in_range s (s + 9) c); [intros [= <-]; lia | exact IH].
Qed.

Lemma int_blank_isspace (c : char) : int_blank c = true -> isspace c = true.
Proof. unfold int_blank. intros H. apply andb_true_iff in H as [H _]. exact H. Qed.

Lemma trim_blanks_decimals (ds : str) :
  Forall (fun c => isdecimal c = true) ds -> trim_blanks ds = ds.
Proof.
  intros H. unfold trim_blanks.
  assert (forall l : str, Forall (fun c => isdecimal c = true) l -> skip_blanks l = l) as Hl.
  { intros [|c l] Hc; [reflexivity|]. cbn [skip_blanks].
    apply Forall_cons in Hc as [Hc _].
    destruct (int_blank c) eqn:Hb; [|reflexivity].
    apply int_blank_isspace, space_not_decimal in Hb. congruence. }
  rewrite (Hl ds H), Hl; [apply rev_involutive|].
  apply Forall_rev. exact H.
Qed.

Lemma int_digits_decimals (ds : str) : forall acc prev,
  Forall (fun c => isdecimal c = true) ds ->
  ds <> [] \/ prev = true -> (0 <= acc)%Z ->
  exists z, int_digits acc prev ds = Some z /\ (0 <= z)%Z.
Proof.
  induction ds as [|c ds IH]; intros acc prev Hall Hne Hacc; cbn [int_digits].
  - destruct Hne as [Hne| ->]; [congruence|]. eauto.
  - apply Forall_cons in Hall as [Hc Hall].
    destruct (N.eqb_spec c 0x5F) as [->|_]; [vm_compute in Hc; discriminate Hc|].
    destruct (isdecimal_value c Hc) as (d & -> & Hd).
    apply IH; [exact Hall | auto | lia].
Qed.

Lemma count_digits_decimals (ds : str) :
  Forall (fun c => isdecimal c = true) ds -> count_digits ds = length ds.
Proof.
  intros H. unfold count_digits. induction H as [|c ds Hc _ IH]; [reflexivity|].
  cbn [List.filter]. rewrite Hc. cbn [length]. rewrite IH. reflexivity.
Qed.

(** [int()] of a non-empty run of decimal digits: a natural number, or
    [ValueError] when the run is longer than the limit. *)
Lemma int_of_str_decimals (ds : str) :
  ds <> [] -> Forall (fun c => isdecimal c = true) ds ->
  exists z, (0 <= z)%Z /\
            int_of_str ds = if (int_max_str_digits <? length ds)%nat
                            then Raise ValueError else Ok z.
Proof.
  intros Hne Hall. unfold int_of_str. rewrite trim_blanks_decimals by exact Hall.
  destruct ds as [|c ds]; [congruence|].
  pose proof Hall as Hall'. apply Forall_cons in Hall' as [Hc _].
  destruct (N.eqb_spec c 0x2D) as [->|_]; [vm_compute in Hc; discriminate Hc|].
  destruct (N.eqb_spec c 0x2B) as [->|_]; [vm_compute in Hc; discriminate Hc|].
  cbn [orb].
  destruct (int_digits_decimals (c :: ds) 0%Z false Hall) as (z & -> & Hz); [auto | lia |].
  rewrite count_digits_decimals by exact Hall. eauto.
Qed.

(** [int()] skips a no-break space and a vertical tab around the digits, but
    not a separator U+001C to U+001F, which [str.strip] removes. *)
Lemma int_of_str_blanks :
  int_of_str [0xA0; 0x37; 0x0B] = Ok 7%Z /\
  int_of_str [0x1F; 0x37] = Raise ValueError /\
  int_of_str [0x37; 0x1C] = Raise ValueError /\
  strip [0x1F; 0x37; 0x1C] = [0x37].
Proof. repeat split; vm_compute; reflexivity. Qed.

Lemma in_range_spec (lo hi c : char) :
  reflect (lo <= c /\ c <= hi) (in_range lo hi c).
Proof.
  unfold in_range. apply iff_reflect. rewrite andb_true_iff, !N.leb_le. tauto.
Qed.

(** The cases of the case mapping. *)
Lemma unicode_tolower_cases (c : char) :
  (0x41 <= c <= 0x5A /\ unicode_tolower c = c + 32) \/
  (0xC0 <= c <= 0xDE /\ c <> 0xD7 /\ unicode_tolower c = c + 32) \/
  (c = 0x130 /\ unicode_tolower c = 0x69) \/
  (c = 0x212A /\ unicode_tolower c = 0x6B) \/
  (c = 0x212B /\ unicode_tolower c = 0xE5) \/
  (~ (0x41 <= c <= 0x5A) /\ ~ (0xC0 <= c <= 0xDE /\ c <> 0xD7) /\
   c <> 0x130 /\ c <> 0x212A /\ c <> 0x212B /\ unicode_tolower c = c).
Proof.
  unfold unicode_tolower.
  destruct (in_range_spec 0x41 0x5A c) as [H1|H1]; [tauto|].
  destruct (in_range_spec 0xC0 0xDE c) as [H2|H2]; cbn [andb].
  - destruct (N.eqb_spec c 0xD7) as [H3|H3]; cbn [negb]; [|tauto].
    destruct (N.eqb_spec c 0x130); [lia|]. destruct (N.eqb_spec c 0x212A); [lia|].
    destruct (N.eqb_spec c 0x212B); [lia|].
    right. right. right. right. right. repeat split; auto. tauto.
  - destruct (N.eqb_spec c 0x130); [tauto|]. destruct (N.eqb_spec c 0x212A); [tauto|].
    destruct (N.eqb_spec c 0x212B); [tauto|].
    right. right. right. right. right. repeat split; auto. tauto.
Qed.

(** A character that no case of the mapping moves. *)
Lemma unicode_tolower_fixed (c : char) :
  ~ (0x41 <= c <= 0x5A) -> ~ (0xC0 <= c <= 0xDE /\ c <> 0xD7) ->
  c <> 0x130 -> c <> 0x212A -> c <> 0x212B -> unicode_tolower c = c.
Proof.
  intros. destruct (unicode_tolower_cases c) as [?|[?|[?|[?|[?|?]]]]]; tauto.
Qed.

Lemma unicode_tolower_idem (c : char) :
  unicode_tolower (unicode_tolower c) = unicode_tolower c.
Proof.
  destruct (unicode_tolower_cases c) as [H|[H|[H|[H|[H|H]]]]];
    destruct_and!; match goal with E : unicode_tolower c = _ |- _ => rewrite E end;
    apply unicode_tolower_fixed; lia.
Qed.

(** [lower] is idempotent: its result is in lower case. *)
Lemma lower_idem (s : str) : lower (lower s) = lower s.
Proof.
  unfold lower. induction s as [|c s IH]; [reflexivity|].
  cbn [flat_map]. rewrite flat_map_app, IH. f_equal.
  unfold lower_char. destruct (N.eqb_spec c 0x130) as [->|Hc]; [reflexivity|].
  cbn [flat_map]. rewrite app_nil_r.
  destruct (N.eqb_spec (unicode_tolower c) 0x130) as [He|_].
  - exfalso. destruct (unicode_tolower_cases c) as [H|[H|[H|[H|[H|H]]]]];
      destruct_and!; lia.
  - rewrite unicode_tolower_idem. reflexivity.
Qed.


(** ** Decoding *)

(** The fallback of [parse_offer_from_text] on a text that matches: each
    quantity is a natural number, unless its digits are more than the limit. *)
Lemma offer_fallback (t : str) (m : groups) :
  search OFFER_RE t = Some m ->
  (length (group m 1) <= length t)%nat /\ (length (group m 3) <= length t)%nat /\
  exists need_qty offer_qty,
    (0 <= need_qty)%Z /\ (0 <= offer_qty)%Z /\
    int_of_str (group m 1)
    = (if (int_max_str_digits <? length (group m 1))%nat
       then Raise ValueError else Ok need_qty) /\
    int_of_str (group m 3)
    = (if (int_max_str_digits <? length (group m 3))%nat
       then Raise ValueError else Ok offer_qty).
Proof.
  intros H. apply offer_re_groups in H
    as (d1 & n1 & d2 & n2 & -> & Hl1 & Hl2 & Hd1 & Hd1' & Hd2 & Hd2' & _).
  cbn [group Nat.eqb]. split; [exact Hl1|]. split; [exact Hl2|].
  destruct (int_of_str_decimals d1 Hd1 Hd1') as (z1 & Hz1 & ->).
  destruct (int_of_str_decimals d2 Hd2 Hd2') as (z2 & Hz2 & ->).
  exists z1, z2. auto.
Qed.

(** C2, at a failing input. A text in natural language whose quantity has
    4301 digits makes [parse_offer_from_text] raise [ValueError]: the [int()]
    of the fallback is outside the [try] that guards the tagged form. Apart
    from that, [parse_accept_from_text] never raises, [parse_offer_from_text]
    does not raise on a text of at most 4300 characters, and both return none
    on the empty text, on prose, on a truncated tag and on a tag whose JSON
    is malformed. *)
Theorem long_quantity_raises :
  parse_offer_from_text digitos_largos = Raise ValueError /\
  (forall texto, exists r, parse_accept_from_text texto = Ok r) /\
  (forall texto, (length texto <= int_max_str_digits)%nat ->
                 exists r, parse_offer_from_text texto = Ok r) /\
  parse_offer_from_text [] = Ok None /\
  parse_accept_from_text [] = Ok None /\
  parse_offer_from_text (u "Hola, tienes madera para cambiar?") = Ok None /\
  parse_accept_from_text (u "Hola, tienes madera para cambiar?") = Ok None /\
  parse_offer_from_text (u "[OFERTA_V1] quiero={" ++ quote "madera") = Ok None /\
  parse_accept_from_text (u "[ACEPTO_V1] te_envio={" ++ quote "madera") = Ok None /\
  parse_offer_from_text (u "[OFERTA_V1] quiero={madera: 3} ofrezco={" ++ quote "oro" ++ u "}")
  = Ok None /\
  parse_accept_from_text (u "[ACEPTO_V1] te_envio={" ++ quote "oro" ++ u ": 1,} espero={]}")
  = Ok None.
Proof.
  split; [vm_compute; reflexivity|].
  split; [|split; [|repeat split; vm_compute; reflexivity]].
  - intros texto. unfold parse_accept_from_text.
    destruct (search TAG_ACCEPT_RE texto); eauto.
  - intros texto Hlen. unfold parse_offer_from_text.
    destruct (match search TAG_OFFER_RE texto with Some m => load_pair m | None => None end)
      as [[quiero ofrezco]|]; [eauto|].
    destruct (search OFFER_RE texto) as [m|] eqn:Hm; [|eauto].
    destruct (offer_fallback texto m Hm) as (Hl1 & Hl3 & z1 & z2 & _ & _ & -> & ->).
    rewrite !(proj2 (Nat.ltb_ge _ _)) by lia. cbn. eauto.
Qed.




(** ** Printing an integer and reading it back *)

Lemma horner_app (x y : str) : forall acc,
  horner acc (x ++ y) = match horner acc x with Some b => horner b y | None => None end.
Proof.
  induction x as [|c x IH]; intros acc; cbn; [reflexivity|].
  destruct (decimal_value c); [apply IH | reflexivity].
Qed.

Lemma decimal_value_digit (d : N) :
  d < 10 -> decimal_value (0x30 + d) = Some (Z.of_N d) /\ is_digit (0x30 + d) = true.
Proof.
  intros H. unfold decimal_value, nd_starts, is_digit. cbn [decimal_in].
  change (0x30 + 9) with 0x39.
  destruct (in_range_spec 0x30 0x39 (0x30 + d)) as [_|Hn]; [|lia].
  split; [|reflexivity]. do 2 f_equal. lia.
Qed.

(** The digits written for [n] with enough fuel: a non-empty run of ASCII
    digits in front of the accumulator, whose value is [n], and that starts
    with a zero only for zero. *)
Lemma digits_fuel_spec (fuel : nat) : forall n acc,
  (0 < fuel)%nat -> n < 10 ^ N.of_nat fuel ->
  exists ds, digits_fuel fuel n acc = ds ++ acc /\
             ds <> [] /\
             Forall (fun c => is_digit c = true) ds /\
             (forall a, horner a ds
                        = Some (a * 10 ^ Z.of_nat (length ds) + Z.of_N n)%Z) /\
             (0 < n -> forall c ds', ds = c :: ds' -> c <> 0x30).
Proof.
  induction fuel as [|fuel IH]; intros n acc Hfuel Hn.
  - lia.
  - cbn [digits_fuel].
    assert (n mod 10 < 10) as Hmod by (apply N.mod_lt; lia).
    destruct (decimal_value_digit (n mod 10) Hmod) as [Hval Hdig].
    destruct (N.ltb_spec n 10) as [Hlt|Hge].
    + exists [0x30 + n mod 10]. rewrite N.mod_small in * by exact Hlt.
      split; [reflexivity|]. split; [discriminate|]. split; [repeat constructor; exact Hdig|].
      split.
      * intros a. cbn [horner]. rewrite Hval. cbn [length].
        change (Z.of_nat 1) with 1%Z. rewrite Z.pow_1_r. reflexivity.
      * intros Hpos c ds' [= <- _]. lia.
    + assert (n / 10 < 10 ^ N.of_nat fuel) as Hdiv.
      { apply N.Div0.div_lt_upper_bound.
        replace (10 * 10 ^ N.of_nat fuel) with (10 ^ N.of_nat (S fuel)); [exact Hn|].
        rewrite Nat2N.inj_succ, N.pow_succ_r'. reflexivity. }
      assert (0 < n / 10) as Hpos10 by (apply N.div_str_pos; lia).
      assert (0 < fuel)%nat as Hfuel'.
      { destruct fuel; [cbn in Hdiv; lia | lia]. }
      destruct (IH (n / 10) ((0x30 + n mod 10) :: acc) Hfuel' Hdiv)
        as (ds & -> & Hne & Hall & Hval' & Hhead).
      exists (ds ++ [0x30 + n mod 10]). rewrite <- app_assoc.
      split; [reflexivity|]. split; [destruct ds; discriminate|].
      split; [apply Forall_app; split; [exact Hall | repeat constructor; exact Hdig]|].
      split.
      * intros a. rewrite horner_app, Hval'. cbn [horner]. rewrite Hval.
        f_equal. rewrite length_app. cbn [length].
        rewrite Nat2Z.inj_add, Z.pow_add_r by lia.
        pose proof (N.div_mod n 10 ltac:(lia)) as Hdm.
        assert (Z.of_N n = 10 * Z.of_N (n / 10) + Z.of_N (n mod 10))%Z as -> by lia.
        change (Z.of_nat 1) with 1%Z. lia.
      * intros Hpos c ds' Heq. destruct ds as [|c0 ds0]; [congruence|].
        injection Heq as <- <-. apply (Hhead Hpos10 c0 ds0 eq_refl).
Qed.

Lemma str_of_N_spec (n : N) :
  str_of_N n <> [] /\
  Forall (fun c => is_digit c = true) (str_of_N n) /\
  horner 0 (str_of_N n) = Some (Z.of_N n) /\
  (0 < n -> forall c ds', str_of_N n = c :: ds' -> c <> 0x30).
Proof.
  unfold str_of_N.
  assert (n < 10 ^ N.of_nat (S (N.to_nat (N.log2 n)))) as Hfuel.
  { rewrite Nat2N.inj_succ, N2Nat.id.
    destruct (N.eq_dec n 0) as [->|Hn]; [cbn; lia|].
    apply N.lt_le_trans with (2 ^ N.succ (N.log2 n)).
    - apply N.log2_spec. lia.
    - apply N.pow_le_mono_l. lia. }
  destruct (digits_fuel_spec _ n [] (Nat.lt_0_succ _) Hfuel)
    as (ds & -> & Hne & Hall & Hval & Hhead).
  rewrite app_nil_r. repeat split; auto.
Qed.


(** ** The matcher on the text that [build_offer_body] writes *)

Lemma lit_i_refl (c : char) : lit_i c c = true.
Proof. unfold lit_i. rewrite N.eqb_refl. reflexivity. Qed.

Section MatcherRuns.
Context {A : Type}.

Lemma rmatch_chars (cs : str) : forall rest g (k : str -> groups -> option A),
  rmatch (seq_of (List.map (fun l => Chr (lit_i l)) cs)) (cs ++ rest) g k = k rest g.
Proof.
  induction cs as [|c cs IH]; intros rest g k; [reflexivity|].
  destruct cs as [|c' cs].
  - cbn [List.map seq_of rmatch app]. rewrite lit_i_refl. reflexivity.
  - change (seq_of (List.map (fun l => Chr (lit_i l)) (c :: c' :: cs)))
      with (Seq (Chr (lit_i c)) (seq_of (List.map (fun l => Chr (lit_i l)) (c' :: cs)))).
    cbn [rmatch]. change ((c :: c' :: cs) ++ rest) with (c :: (c' :: cs) ++ rest).
    cbn beta iota. rewrite lit_i_refl. apply IH.
Qed.

Lemma rmatch_lit (l : string) rest g (k : str -> groups -> option A) :
  rmatch (lit l) (u l ++ rest) g k = k rest g.
Proof. apply rmatch_chars. Qed.

Lemma star_greedy_before (p : char -> bool) (c : char) (s : str)
    (k : str -> option A) (a : A) :
  p c = true ->
  match s with d :: _ => p d = false | [] => True end ->
  k s = Some a ->
  star_greedy p (c :: s) k = Some a.
Proof.
  intros Hc Hd Hk. cbn [star_greedy]. rewrite Hc.
  destruct s as [|d s]; cbn [star_greedy]; [rewrite Hk; reflexivity|].
  rewrite Hd, Hk. reflexivity.
Qed.

Lemma star_lazy_skip (p : char -> bool) (pre rest : str) (k : str -> option A) :
  Forall (fun c => p c = true /\ forall s, k (c :: s) = None) pre ->
  star_lazy p (pre ++ rest) k = star_lazy p rest k.
Proof.
  induction pre as [|c pre IH]; intros H; [reflexivity|].
  apply Forall_cons in H as [[Hp Hk] H].
  change ((c :: pre) ++ rest) with (c :: pre ++ rest).
  cbn [star_lazy]. rewrite Hk, Hp. apply IH. exact H.
Qed.

Lemma braces_unfold :
  braces = Seq (Chr (lit_i 0x7B)) (Seq (StarLazy dot) (Chr (lit_i 0x7D))).
Proof. reflexivity. Qed.

Lemma rmatch_braces (j rest : str) g (k : str -> groups -> option A) (a : A) :
  Forall (fun c => inner c = true) j ->
  k rest g = Some a ->
  rmatch braces (0x7B :: j ++ 0x7D :: rest) g k = Some a.
Proof.
  intros Hj Hk. rewrite braces_unfold. cbn [rmatch]. rewrite lit_i_refl.
  rewrite star_lazy_skip.
  - cbn [star_lazy]. rewrite lit_i_refl, Hk. reflexivity.
  - eapply Forall_impl; [exact Hj|]. intros c Hc. cbn beta in Hc.
    unfold inner in Hc. apply andb_true_iff in Hc as [Hdot Hrb].
    apply negb_true_iff in Hrb. split; [exact Hdot|].
    intros s. rewrite Hrb. reflexivity.
Qed.

Lemma rmatch_group_braces (n : nat) (j rest : str) g
    (k : str -> groups -> option A) (a : A) :
  Forall (fun c => inner c = true) j ->
  k rest ((n, 0x7B :: j ++ [0x7D]) :: g) = Some a ->
  rmatch (Group n braces) (0x7B :: j ++ 0x7D :: rest) g k = Some a.
Proof.
  intros Hj Hk. cbn [rmatch]. apply rmatch_braces; [exact Hj|].
  replace (0x7B :: j ++ 0x7D :: rest) with ((0x7B :: j ++ [0x7D]) ++ rest).
  - rewrite length_app, Nat.add_sub, take_app_length. exact Hk.
  - cbn [app]. rewrite <- app_assoc. reflexivity.
Qed.

End MatcherRuns.

Lemma rmatch_seq {A : Type} (r1 r2 : regex) s g (k : str -> groups -> option A) :
  rmatch (Seq r1 r2) s g k = rmatch r1 s g (fun s' g' => rmatch r2 s' g' k).
Proof. reflexivity. Qed.

Lemma rmatch_star {A : Type} (p : char -> bool) s g (k : str -> groups -> option A) :
  rmatch (Star p) s g k = star_greedy p s (fun s' => k s' g).
Proof. reflexivity. Qed.

Lemma search_here (r : regex) (s : str) (g : groups) :
  rmatch r s [] (fun _ g => Some g) = Some g -> search r s = Some g.
Proof. intros H. destruct s; cbn [search]; rewrite H; reflexivity. Qed.

(** The tagged pattern finds the two objects of an offer at the start of
    the text. *)
Lemma tag_offer_search (j1 j2 rest : str) :
  Forall (fun c => inner c = true) j1 ->
  Forall (fun c => inner c = true) j2 ->
  search TAG_OFFER_RE
    (u "[OFERTA_V1]" ++ 0x20 :: u "quiero=" ++ 0x7B :: j1 ++ 0x7D :: 0x20
       :: u "ofrezco=" ++ 0x7B :: j2 ++ 0x7D :: rest)
  = Some [(2%nat, 0x7B :: j2 ++ [0x7D]); (1%nat, 0x7B :: j1 ++ [0x7D])].
Proof.
  intros H1 H2. apply search_here. unfold TAG_OFFER_RE. cbv [seq_of].
  rewrite rmatch_seq, rmatch_lit. cbn beta.
  rewrite rmatch_seq, rmatch_star.
  apply star_greedy_before; [reflexivity | vm_compute; reflexivity |].
  rewrite rmatch_seq, rmatch_lit. cbn beta.
  rewrite rmatch_seq. apply rmatch_group_braces; [exact H1|].
  rewrite rmatch_seq, rmatch_star.
  apply star_greedy_before; [reflexivity | vm_compute; reflexivity |].
  rewrite rmatch_seq, rmatch_lit. cbn beta.
  apply rmatch_group_braces; [exact H2|].
  reflexivity.
Qed.


(** ** Plain characters *)

Lemma plain_spec (c : char) :
  plain c = true <-> 0x20 <= c /\ c <> 0x22 /\ c <> 0x5C /\ c <> 0x7D.
Proof.
  unfold plain. rewrite !andb_true_iff, !negb_true_iff, N.leb_le, !N.eqb_neq. tauto.
Qed.

Lemma lit_i_rbrace (c : char) : lit_i 0x7D c = (unicode_tolower c =? 0x7D).
Proof.
  unfold lit_i. change (unicode_tolower 0x7D) with 0x7D.
  change (0x7D =? 0x69) with false. change (0x7D =? 0x73) with false.
  cbn [andb]. rewrite !orb_false_r. reflexivity.
Qed.

Lemma plain_inner (c : char) : plain c = true -> inner c = true.
Proof.
  intros H. apply plain_spec in H as (H1 & H2 & H3 & H4).
  unfold inner, dot. rewrite lit_i_rbrace. apply andb_true_iff. split.
  - apply negb_true_iff, N.eqb_neq. lia.
  - apply negb_true_iff, N.eqb_neq.
    destruct (unicode_tolower_cases c) as [H|[H|[H|[H|[H|H]]]]]; destruct_and!; lia.
Qed.

Lemma digit_plain (c : char) : is_digit c = true -> plain c = true.
Proof.
  unfold is_digit. intros H. destruct (in_range_spec 0x30 0x39 c) as [Hr|]; [|discriminate].
  apply plain_spec. lia.
Qed.

Lemma alphabetic_plain (s : str) : alphabetic s -> Forall (fun c => plain c = true) s.
Proof.
  assert (forallb plain item_letters = true) as Hall by (vm_compute; reflexivity).
  rewrite forallb_forall in Hall.
  intros H. eapply Forall_impl; [exact H|]. intros c Hc. apply Hall.
  apply list_elem_of_In. exact Hc.
Qed.

Lemma escape_plain (c : char) : plain c = true -> escape_char c = [c].
Proof.
  intros H. apply plain_spec in H as (H1 & H2 & H3 & H4). unfold escape_char.
  rewrite !(proj2 (N.eqb_neq c _)) by lia.
  rewrite (proj2 (N.ltb_ge c 0x20)) by lia. reflexivity.
Qed.

Lemma encode_plain (k : str) :
  Forall (fun c => plain c = true) k -> encode_basestring k = 0x22 :: k ++ [0x22].
Proof.
  intros H. unfold encode_basestring. cbn [app]. do 2 f_equal.
  induction H as [|c k Hc _ IH]; [reflexivity|].
  cbn [flat_map]. rewrite (escape_plain c Hc), IH. reflexivity.
Qed.

Lemma scanstring_plain (k rest : str) :
  Forall (fun c => plain c = true) k -> scanstring (k ++ 0x22 :: rest) = Some (k, rest).
Proof.
  intros H. induction H as [|c k Hc _ IH]; [reflexivity|].
  apply plain_spec in Hc as (H1 & H2 & H3 & H4).
  change ((c :: k) ++ 0x22 :: rest) with (c :: k ++ 0x22 :: rest).
  cbn [scanstring].
  rewrite !(proj2 (N.eqb_neq c _)) by lia.
  rewrite (proj2 (N.ltb_ge c 0x20)) by lia. rewrite IH. reflexivity.
Qed.

(** ** Reading back one object *)

Lemma span_digits_app (ds rest : str) (d : char) :
  Forall (fun c => is_digit c = true) ds -> is_digit d = false ->
  span_digits (ds ++ d :: rest) = (ds, d :: rest).
Proof.
  intros H Hd. induction H as [|c ds Hc _ IH]; cbn [app span_digits].
  - rewrite Hd. reflexivity.
  - rewrite Hc, IH. reflexivity.
Qed.

Lemma strip_prefix_head (a c : char) (w s : str) :
  a <> c -> strip_prefix (a :: w) (c :: s) = None.
Proof. intros H. cbn [strip_prefix]. rewrite (proj2 (N.eqb_neq a c) H). reflexivity. Qed.

Lemma constant_digit (c : char) (s : str) : is_digit c = true -> constant (c :: s) = None.
Proof.
  unfold is_digit. intros H. destruct (in_range_spec 0x30 0x39 c) as [Hr|]; [|discriminate].
  unfold constant.
  change (u "null") with (0x6E :: u "ull"). change (u "true") with (0x74 :: u "rue").
  change (u "false") with (0x66 :: u "alse"). change (u "NaN") with (0x4E :: u "aN").
  change (u "Infinity") with (0x49 :: u "nfinity").
  change (u "-Infinity") with (0x2D :: u "Infinity").
  rewrite !strip_prefix_head by lia. reflexivity.
Qed.

Lemma match_number_int (c : char) (ds rest : str) :
  Forall (fun x => is_digit x = true) (c :: ds) -> c <> 0x30 ->
  (length (c :: ds) <= int_max_str_digits)%nat ->
  match_number ((c :: ds) ++ 0x7D :: rest)
  = Some (JInt (digits_value (c :: ds)), 0x7D :: rest).
Proof.
  intros Hall Hc Hlen. pose proof Hall as Hall'. apply Forall_cons in Hall' as [Hd _].
  pose proof (digit_plain c Hd) as Hp. apply plain_spec in Hp.
  unfold match_number. change ((c :: ds) ++ 0x7D :: rest) with (c :: ds ++ 0x7D :: rest).
  cbn beta iota. rewrite (proj2 (N.eqb_neq c 0x2D)).
  2:{ unfold is_digit in Hd. destruct (in_range_spec 0x30 0x39 c); [lia | discriminate]. }
  cbn beta iota. unfold int_part. rewrite (proj2 (N.eqb_neq c 0x30)) by exact Hc. rewrite Hd.
  change (c :: ds ++ 0x7D :: rest) with ((c :: ds) ++ 0x7D :: rest).
  rewrite span_digits_app by (exact Hall || reflexivity).
  change (frac_part (0x7D :: rest)) with (@None (str * str)). cbn beta iota.
  change (exp_part (0x7D :: rest)) with (@None (Z * str)). cbn beta iota.
  rewrite (proj2 (Nat.ltb_ge _ _) Hlen). reflexivity.
Qed.

Lemma skip_ws_digit (c : char) (s : str) : is_digit c = true -> skip_ws (c :: s) = c :: s.
Proof.
  unfold is_digit. intros H. destruct (in_range_spec 0x30 0x39 c) as [Hr|]; [|discriminate].
  cbn [skip_ws]. unfold is_json_ws.
  rewrite !(proj2 (N.eqb_neq c _)) by lia. reflexivity.
Qed.

Lemma scan_once_digit (f : nat) (c : char) (s : str) :
  is_digit c = true ->
  scan_once (S f) (c :: s) = match_number (c :: s).
Proof.
  intros H. pose proof H as Hr. unfold is_digit in Hr.
  destruct (in_range_spec 0x30 0x39 c) as [Hr'|]; [|discriminate].
  cbn [scan_once]. rewrite !(proj2 (N.eqb_neq c _)) by lia.
  rewrite constant_digit by exact H. reflexivity.
Qed.

Lemma skip_ws_stop (c : char) (s : str) : is_json_ws c = false -> skip_ws (c :: s) = c :: s.
Proof. intros H. cbn [skip_ws]. rewrite H. reflexivity. Qed.

Lemma skip_ws_pass (c : char) (s : str) : is_json_ws c = true -> skip_ws (c :: s) = skip_ws s.
Proof. intros H. cbn [skip_ws]. rewrite H. reflexivity. Qed.

(** The loop over the pairs of an object that has one plain key. *)
Lemma object_items_single (value : str -> option (json * str)) (f : nat)
    (k : str) (c : char) (ds rest : str) (v : json) :
  Forall (fun x => plain x = true) k ->
  is_digit c = true ->
  value ((c :: ds) ++ 0x7D :: rest) = Some (v, 0x7D :: rest) ->
  object_items value (S f)
    (0x22 :: k ++ 0x22 :: 0x3A :: 0x20 :: (c :: ds) ++ 0x7D :: rest) []
  = Some ([(k, v)], rest).
Proof.
  intros Hk Hc Hv. cbn [object_items]. change (0x22 =? 0x22) with true. cbn iota.
  rewrite scanstring_plain by exact Hk.
  rewrite (skip_ws_stop 0x3A) by reflexivity. change (0x3A =? 0x3A) with true. cbn iota.
  rewrite (skip_ws_pass 0x20) by reflexivity.
  change ((c :: ds) ++ 0x7D :: rest) with (c :: ds ++ 0x7D :: rest) in *.
  rewrite skip_ws_digit by exact Hc. rewrite Hv.
  rewrite (skip_ws_stop 0x7D) by reflexivity. change (0x7D =? 0x7D) with true. cbn iota.
  reflexivity.
Qed.

(** The scanner on an object of one plain key and one positive integer. *)
Lemma scan_once_single (f : nat) (k : str) (c : char) (ds rest : str) :
  Forall (fun x => plain x = true) k ->
  Forall (fun x => is_digit x = true) (c :: ds) -> c <> 0x30 ->
  (length (c :: ds) <= int_max_str_digits)%nat ->
  scan_once (S (S f))
    (0x7B :: 0x22 :: k ++ 0x22 :: 0x3A :: 0x20 :: (c :: ds) ++ 0x7D :: rest)
  = Some (JDict [(k, JInt (digits_value (c :: ds)))], rest).
Proof.
  intros Hk Hds Hc Hlen. pose proof Hds as Hd. apply Forall_cons in Hd as [Hd _].
  remember (S f) as F eqn:HF. cbn [scan_once].
  change (0x7B =? 0x22) with false. change (0x7B =? 0x7B) with true. cbn iota.
  rewrite (skip_ws_stop 0x22) by reflexivity. change (0x22 =? 0x7D) with false. cbn iota.
  subst F. rewrite (object_items_single _ f k c ds rest (JInt (digits_value (c :: ds)))).
  - reflexivity.
  - exact Hk.
  - exact Hd.
  - change ((c :: ds) ++ 0x7D :: rest) with (c :: ds ++ 0x7D :: rest).
    rewrite scan_once_digit by exact Hd. apply match_number_int; assumption.
Qed.

(** What [str()] prints for a positive integer: a run of ASCII digits within
    the limit, not starting with zero, whose value is the integer. *)
Lemma str_of_int_pos (v : Z) (s : str) : (0 < v)%Z -> str_of_int v = Ok s ->
  exists c ds, s = c :: ds /\ Forall (fun x => is_digit x = true) (c :: ds) /\
               c <> 0x30 /\ digits_value (c :: ds) = v /\
               (length (c :: ds) <= int_max_str_digits)%nat.
Proof.
  intros Hv. unfold str_of_int, str_of_Z.
  replace (Z.abs_N v) with (Z.to_N v) by lia.
  destruct (Z.ltb_spec v 0) as [|_]; [lia|].
  destruct (Nat.ltb_spec int_max_str_digits (length (str_of_N (Z.to_N v)))) as [|Hlen];
    [discriminate|].
  intros [= <-].
  destruct (str_of_N_spec (Z.to_N v)) as (Hne & Hall & Hval & Hhead).
  destruct (str_of_N (Z.to_N v)) as [|c ds]; [congruence|].
  exists c, ds. repeat split; auto.
  - apply (Hhead ltac:(lia) c ds eq_refl).
  - unfold digits_value. rewrite Hval. cbn. lia.
Qed.

Lemma str_of_int_short (v : Z) : (0 < v)%Z ->
  (length (str_of_Z v) <= int_max_str_digits)%nat -> str_of_int v = Ok (str_of_Z v).
Proof.
  intros Hv. unfold str_of_int, str_of_Z.
  replace (Z.abs_N v) with (Z.to_N v) by lia.
  destruct (Z.ltb_spec v 0) as [|_]; [lia|].
  intros Hlen. rewrite (proj2 (Nat.ltb_ge _ _) Hlen). reflexivity.
Qed.

(** [json.dumps] of one plain key. *)
Lemma json_dumps_single (k : str) (v : Z) :
  Forall (fun c => plain c = true) k ->
  json_dumps [(k, v)] = (s ← str_of_int v; mret (0x7B :: inside k s ++ [0x7D])).
Proof.
  intros Hk. unfold json_dumps, inside. cbn [dump_items].
  rewrite encode_plain by exact Hk.
  destruct (str_of_int v) as [s|e]; [|reflexivity].
  unfold mbind, result_bind, mret, result_ret. cbn [join]. f_equal.
  change (u "{") with [0x7B]. change (u "}") with [0x7D]. change (u ": ") with [0x3A; 0x20].
  cbn [app]. rewrite <- !app_assoc. reflexivity.
Qed.

Lemma inside_inner (k s : str) :
  Forall (fun c => plain c = true) k -> Forall (fun x => is_digit x = true) s ->
  Forall (fun c => inner c = true) (inside k s).
Proof.
  intros Hk Hs. unfold inside.
  apply Forall_cons. split; [reflexivity|].
  apply Forall_app. split.
  - eapply Forall_impl; [exact Hk|]. intros x. apply plain_inner.
  - repeat (apply Forall_cons; split; [reflexivity|]).
    eapply Forall_impl; [exact Hs|]. intros x Hx. apply plain_inner, digit_plain, Hx.
Qed.

(** [json.loads] reads back what [json.dumps] wrote. *)
Lemma json_loads_inside (k : str) (c : char) (ds : str) :
  Forall (fun c => plain c = true) k ->
  Forall (fun x => is_digit x = true) (c :: ds) -> c <> 0x30 ->
  (length (c :: ds) <= int_max_str_digits)%nat ->
  json_loads (0x7B :: inside k (c :: ds) ++ [0x7D])
  = Ok (JDict [(k, JInt (digits_value (c :: ds)))]).
Proof.
  intros Hk Hall Hc Hlen. unfold json_loads, inside.
  change (match 0x7B :: ?s with 0xFEFF :: _ => ?a | _ => ?b end) with b.
  rewrite (skip_ws_stop 0x7B) by reflexivity.
  cbn [length app]. rewrite <- app_assoc.
  change ((0x22 :: 0x3A :: 0x20 :: c :: ds) ++ [0x7D])
    with (0x22 :: 0x3A :: 0x20 :: (c :: ds) ++ [0x7D]).
  rewrite scan_once_single by assumption.
  reflexivity.
Qed.

(** The text of an offer, cut where the tagged pattern cuts it. *)
Lemma build_offer_body_shape (need_item : str) (need_qty : Z)
    (offer_item : str) (offer_qty : Z) (body : str) :
  Forall (fun c => plain c = true) need_item ->
  Forall (fun c => plain c = true) offer_item ->
  build_offer_body need_item need_qty offer_item offer_qty = Ok body ->
  exists need offer line2,
    str_of_int need_qty = Ok need /\ str_of_int offer_qty = Ok offer /\
    body = u "[OFERTA_V1]" ++ 0x20 :: u "quiero=" ++ 0x7B :: inside need_item need
             ++ 0x7D :: 0x20 :: u "ofrezco=" ++ 0x7B :: inside offer_item offer
             ++ 0x7D :: 0x0A :: line2.
Proof.
  intros Hn Ho. unfold build_offer_body.
  rewrite !json_dumps_single by assumption.
  destruct (str_of_int need_qty) as [need|e]; [|discriminate].
  destruct (str_of_int offer_qty) as [offer|e]; [|discriminate].
  unfold mbind, result_bind, mret, result_ret. cbn beta iota.
  intros Hbody. apply (f_equal (fun r => match r with Ok b => b | Raise _ => [] end)) in Hbody.
  cbn beta iota in Hbody. subst body.
  exists need, offer. eexists. split; [reflexivity|]. split; [reflexivity|].
  unfold inside.
  change (u "[OFERTA_V1] quiero=") with (u "[OFERTA_V1]" ++ 0x20 :: u "quiero=").
  change (u " ofrezco=") with (0x20 :: u "ofrezco=").
  rewrite <- !app_assoc. cbn [app]. rewrite <- !app_assoc. cbn [app]. reflexivity.
Qed.


(** ** The theorems at concrete inputs *)



Lemma cooldown_window_witness :
  (0 < OFFER_COOLDOWN_PER_DEST defaults)%Z /\
  (can_send_offer_now defaults calm (u "p2") (mark_offer_sent calm (u "p2") fresh).2).1
  = Ok false.
Proof.
  assert (0 < OFFER_COOLDOWN_PER_DEST defaults)%Z as Hpos by reflexivity.
  split; [exact Hpos|].
  destruct (cooldown_window_per_destination defaults calm (u "p2") fresh Hpos)
    as (_ & Hdest & _ & Hlater).
  destruct (Hlater calm _ Hdest) as (_ & Hbefore & _).
  apply Hbefore. vm_compute. reflexivity.
Defined.



(** ** The fuel of the JSON scanner is enough *)

Lemma skip_ws_length (s : str) : (length (skip_ws s) <= length s)%nat.
Proof.
  induction s as [|c s IH]; cbn [skip_ws]; [lia|].
  destruct (is_json_ws c); cbn [length]; lia.
Qed.

Lemma skip_ws_cons_length (s r : str) (d : char) :
  skip_ws s = d :: r -> (length r < length s)%nat.
Proof.
  intros H. pose proof (skip_ws_length s) as Hl. rewrite H in Hl. cbn in Hl. lia.
Qed.

Lemma cons_to_some {B : Type} (c : char) (o : option (str * B)) (w : str) (r : B) :
  cons_to c o = Some (w, r) -> exists w', o = Some (w', r).
Proof. destruct o as [[w' r']|]; cbn; [intros [= _ <-]; eauto | discriminate]. Qed.

Lemma scanstring_length (n : nat) : forall s w r,
  (length s <= n)%nat -> scanstring s = Some (w, r) -> (length r < length s)%nat.
Proof.
  induction n as [|n IH]; intros s w r Hn H.
  - destruct s; [discriminate | cbn in Hn; lia].
  - destruct s as [|c s1]; [discriminate|]. cbn [scanstring] in H. cbn [length] in *.
    destruct (c =? 0x22); [injection H as _ <-; lia|].
    destruct (c =? 0x5C).
    + destruct s1 as [|e s2]; [discriminate|]. cbn [length] in *.
      destruct (e =? 0x75).
      * destruct s2 as [|h1 [|h2 [|h3 [|h4 s3]]]]; try discriminate. cbn [length] in *.
        destruct (hex4 h1 h2 h3 h4) as [uni|]; [|discriminate].
        assert (forall x, cons_to x (scanstring s3) = Some (w, r) ->
                          (length r < S (S (S (S (S (S (length s3)))))))%nat) as Hs3.
        { intros x Hx. apply cons_to_some in Hx as [w' Hx].
          apply IH in Hx; lia. }
        destruct s3 as [|b [|x [|l1 [|l2 [|l3 [|l4 s4]]]]]]; try (apply (Hs3 _ H)).
        destruct (low_surrogate uni b x l1 l2 l3 l4); [|apply (Hs3 _ H)].
        apply cons_to_some in H as [w' H]. apply IH in H; cbn [length] in *; lia.
      * destruct (unescape e); [|discriminate].
        apply cons_to_some in H as [w' H]. apply IH in H; lia.
    + destruct (c <? 0x20); [discriminate|].
      apply cons_to_some in H as [w' H]. apply IH in H; lia.
Qed.

Lemma strip_prefix_length (w : str) : forall s r,
  strip_prefix w s = Some r -> (length r <= length s)%nat.
Proof.
  induction w as [|a w IH]; intros s r; cbn [strip_prefix].
  - intros [= <-]. lia.
  - destruct s as [|b s]; [discriminate|]. destruct (a =? b); [|discriminate].
    intros H. apply IH in H. cbn [length]. lia.
Qed.

Lemma constant_length (s : str) (v : json) (r : str) :
  constant s = Some (v, r) -> (length r <= length s)%nat.
Proof.
  unfold constant.
  repeat match goal with
         | |- context [strip_prefix ?w s] =>
             let E := fresh "E" in
             destruct (strip_prefix w s) eqn:E;
             [apply strip_prefix_length in E; intros [= _ <-]; exact E|]
         end.
  discriminate.
Qed.

Lemma span_digits_length (s : str) : forall ds r,
  span_digits s = (ds, r) -> (length r <= length s)%nat.
Proof.
  induction s as [|c s IH]; intros ds r; cbn [span_digits].
  - intros [= _ <-]. lia.
  - destruct (is_digit c).
    + destruct (span_digits s) as [ds' r'] eqn:E. intros [= _ <-].
      specialize (IH _ _ eq_refl). cbn [length]. lia.
    + intros [= _ <-]. lia.
Qed.

Lemma match_number_length (s : str) (v : json) (r : str) :
  match_number s = Some (v, r) -> (length r <= length s)%nat.
Proof.
  unfold match_number.
  assert (forall s0, (length s0 <= length s)%nat ->
            forall ip s1, int_part s0 = Some (ip, s1) -> (length s1 <= length s)%nat) as Hint.
  { intros s0 Hs0 ip s1. unfold int_part. destruct s0 as [|c s0']; [discriminate|].
    destruct (c =? 0x30); [intros [= _ <-]; cbn in Hs0; lia|].
    destruct (is_digit c); [|discriminate].
    intros E. assert (span_digits (c :: s0') = (ip, s1)) as E' by congruence.
    apply span_digits_length in E'. lia. }
  assert (forall s1 fp s2,
            (match frac_part s1 with Some (ds, r) => (Some ds, r) | None => (None, s1) end)
            = (fp, s2) -> (length s2 <= length s1)%nat) as Hfrac.
  { intros s1 fp s2. unfold frac_part. destruct s1 as [|p s1']; [intros [= _ <-]; lia|].
    destruct (p =? 0x2E); [|intros [= _ <-]; lia].
    destruct (span_digits s1') as [[|d ds] r0] eqn:E; intros [= _ <-];
      [lia | apply span_digits_length in E; cbn [length]; lia]. }
  assert (forall s2 ep s3,
            (match exp_part s2 with Some (e, r) => (Some e, r) | None => (None, s2) end)
            = (ep, s3) -> (length s3 <= length s2)%nat) as Hexp.
  { intros s2 ep s3. unfold exp_part. destruct s2 as [|e s2']; [intros [= _ <-]; lia|].
    destruct ((e =? 0x65) || (e =? 0x45)); [|intros [= _ <-]; lia].
    destruct s2' as [|sg t].
    - cbn. intros [= _ <-]. cbn [length]. lia.
    - destruct (sg =? 0x2D); [|destruct (sg =? 0x2B)].
      all: match goal with
           | |- context [span_digits ?x] =>
               destruct (span_digits x) as [[|d ds] r0] eqn:E
           end; intros [= _ <-]; cbn [length] in *; try lia;
           apply span_digits_length in E; cbn [length] in *; lia. }
  destruct (match s with c :: s' => if c =? 0x2D then (true, s') else (false, s)
                       | [] => (false, s) end) as [neg s0] eqn:Es0.
  assert (length s0 <= length s)%nat as Hs0.
  { destruct s as [|c s']; [injection Es0 as _ <-; lia|].
    destruct (c =? 0x2D); injection Es0 as _ <-; cbn [length]; lia. }
  destruct (int_part s0) as [[ip s1]|] eqn:Eip; [|discriminate].
  pose proof (Hint s0 Hs0 ip s1 Eip) as H1.
  destruct (match frac_part s1 with Some (ds, r) => (Some ds, r) | None => (None, s1) end)
    as [fp s2] eqn:Efp.
  pose proof (Hfrac s1 fp s2 Efp) as H2.
  destruct (match exp_part s2 with Some (e, r) => (Some e, r) | None => (None, s2) end)
    as [ep s3] eqn:Eep.
  pose proof (Hexp s2 ep s3 Eep) as H3.
  destruct fp, ep; try (intros [= _ <-]; lia).
  destruct (int_max_str_digits <? length ip)%nat; [discriminate|].
  intros [= _ <-]. lia.
Qed.

Section Fuel.
Variables value1 value2 : str -> option (json * str).
Variable bound : nat.
Hypothesis value_agree : forall s, (length s < bound)%nat -> value1 s = value2 s.
Hypothesis value_shrinks : forall s x r,
  (length s < bound)%nat -> value1 s = Some (x, r) -> (length r <= length s)%nat.

Lemma object_items_fuel (k : nat) : forall s acc f1 f2,
  (length s <= k)%nat -> (length s <= bound)%nat ->
  (length s <= f1)%nat -> (length s <= f2)%nat ->
  object_items value1 f1 s acc = object_items value2 f2 s acc
  /\ forall d r, object_items value1 f1 s acc = Some (d, r) -> (length r <= length s)%nat.
Proof.
  induction k as [|k IH]; intros s acc f1 f2 Hk Hb H1 H2.
  - destruct s; [|cbn in Hk; lia]. destruct f1, f2; cbn; split; congruence.
  - destruct s as [|q s1]; [destruct f1, f2; cbn; split; congruence|].
    cbn [length] in *.
    destruct f1 as [|g1]; [lia|]. destruct f2 as [|g2]; [lia|].
    cbn [object_items].
    destruct (q =? 0x22); [|split; congruence].
    destruct (scanstring s1) as [[key s2]|] eqn:Ekey; [|split; congruence].
    apply (scanstring_length (length s1)) in Ekey; [|lia].
    destruct (skip_ws s2) as [|colon s3] eqn:Ecolon; [split; congruence|].
    apply skip_ws_cons_length in Ecolon.
    destruct (colon =? 0x3A); [|split; congruence].
    pose proof (skip_ws_length s3) as Hs3.
    rewrite <- (value_agree (skip_ws s3)) by lia.
    destruct (value1 (skip_ws s3)) as [[v s4]|] eqn:Ev; [|split; congruence].
    apply value_shrinks in Ev; [|lia].
    destruct (skip_ws s4) as [|d s5] eqn:Ed; [split; congruence|].
    apply skip_ws_cons_length in Ed.
    destruct (d =? 0x7D); [split; [reflexivity | intros ? ? [= _ <-]; lia]|].
    destruct (d =? 0x2C); [|split; congruence].
    pose proof (skip_ws_length s5) as Hs5.
    destruct (IH (skip_ws s5) (dict_set key v acc) g1 g2) as [Heq Hlen]; try lia.
    split; [exact Heq|]. intros d' r' Hr. apply Hlen in Hr. lia.
Qed.

Lemma array_items_fuel (k : nat) : forall s acc f1 f2,
  (length s <= k)%nat -> (length s < bound)%nat ->
  (length s < f1)%nat -> (length s < f2)%nat ->
  array_items value1 f1 s acc = array_items value2 f2 s acc
  /\ forall l r, array_items value1 f1 s acc = Some (l, r) -> (length r <= length s)%nat.
Proof.
  induction k as [|k IH]; intros s acc f1 f2 Hk Hb H1 H2.
  - destruct f1 as [|g1]; [lia|]. destruct f2 as [|g2]; [lia|].
    cbn [array_items]. rewrite <- (value_agree s) by lia.
    destruct (value1 s) as [[v s1]|] eqn:Ev; [|split; congruence].
    apply value_shrinks in Ev; [|lia].
    destruct (skip_ws s1) as [|d s2] eqn:Ed; [split; congruence|].
    apply skip_ws_cons_length in Ed. lia.
  - destruct f1 as [|g1]; [lia|]. destruct f2 as [|g2]; [lia|].
    cbn [array_items]. rewrite <- (value_agree s) by lia.
    destruct (value1 s) as [[v s1]|] eqn:Ev; [|split; congruence].
    apply value_shrinks in Ev; [|lia].
    destruct (skip_ws s1) as [|d s2] eqn:Ed; [split; congruence|].
    apply skip_ws_cons_length in Ed.
    destruct (d =? 0x5D); [split; [reflexivity | intros ? ? [= _ <-]; lia]|].
    destruct (d =? 0x2C); [|split; congruence].
    pose proof (skip_ws_length s2) as Hs2.
    destruct (IH (skip_ws s2) (acc ++ [v]) g1 g2) as [Heq Hlen]; try lia.
    split; [exact Heq|]. intros l' r' Hr. apply Hlen in Hr. lia.
Qed.

End Fuel.

(** Once the fuel exceeds the length of the text, the result of the scanner
    does not depend on it, and what is left is no longer than the text. *)
Lemma scan_once_fuel (n : nat) : forall s f1 f2,
  (length s < n)%nat -> (n <= f1)%nat -> (n <= f2)%nat ->
  scan_once f1 s = scan_once f2 s
  /\ forall x r, scan_once f1 s = Some (x, r) -> (length r <= length s)%nat.
Proof.
  induction n as [|n IH]; intros s f1 f2 Hs H1 H2; [lia|].
  destruct f1 as [|g1]; [lia|]. destruct f2 as [|g2]; [lia|].
  destruct s as [|c s']; [cbn; split; congruence|].
  cbn [length] in Hs.
  assert (forall t, (length t < n)%nat -> scan_once g1 t = scan_once g2 t) as Hagree.
  { intros t Ht. apply (IH t g1 g2); lia. }
  assert (forall t x r, (length t < n)%nat -> scan_once g1 t = Some (x, r) ->
                        (length r <= length t)%nat) as Hshr.
  { intros t x r Ht. apply (IH t g1 g1); lia. }
  cbn [scan_once].
  destruct (c =? 0x22).
  { destruct (scanstring s') as [[w r]|] eqn:E; [|split; congruence].
    apply (scanstring_length (length s')) in E; [|lia].
    split; [reflexivity | intros ? ? [= _ <-]; cbn [length]; lia]. }
  destruct (c =? 0x7B).
  { destruct (skip_ws s') as [|d r] eqn:Ed; [split; congruence|].
    pose proof (skip_ws_length s') as Hl. rewrite Ed in Hl.
    destruct (d =? 0x7D).
    { split; [reflexivity | intros ? ? [= _ <-]; cbn [length] in *; lia]. }
    cbn [length] in Hl.
    destruct (object_items_fuel (scan_once g1) (scan_once g2) n Hagree Hshr
                (length (d :: r)) (d :: r) [] g1 g2) as [Heq Hlen];
      cbn [length]; try lia.
    rewrite <- Heq.
    destruct (object_items (scan_once g1) g1 (d :: r) []) as [[kv r']|] eqn:E;
      [|split; congruence].
    specialize (Hlen _ _ eq_refl). cbn [length] in Hlen.
    split; [reflexivity | intros ? ? [= _ <-]; cbn [length]; lia]. }
  destruct (c =? 0x5B).
  { destruct (skip_ws s') as [|d r] eqn:Ed; [split; congruence|].
    pose proof (skip_ws_length s') as Hl. rewrite Ed in Hl.
    destruct (d =? 0x5D).
    { split; [reflexivity | intros ? ? [= _ <-]; cbn [length] in *; lia]. }
    cbn [length] in Hl.
    destruct (array_items_fuel (scan_once g1) (scan_once g2) n Hagree Hshr
                (length (d :: r)) (d :: r) [] g1 g2) as [Heq Hlen];
      cbn [length]; try lia.
    rewrite <- Heq.
    destruct (array_items (scan_once g1) g1 (d :: r) []) as [[l r']|] eqn:E;
      [|split; congruence].
    specialize (Hlen _ _ eq_refl). cbn [length] in Hlen.
    split; [reflexivity | intros ? ? [= _ <-]; cbn [length]; lia]. }
  split; [reflexivity|]. intros x r.
  destruct (constant (c :: s')) as [[v0 r0]|] eqn:E.
  - intros [= _ <-]. apply constant_length in E. exact E.
  - apply match_number_length.
Qed.

(** [json_loads] gives its scanner enough fuel: more changes nothing. *)
Lemma json_loads_fuel (s : str) (fuel : nat) :
  (length s < fuel)%nat ->
  scan_once fuel (skip_ws s) = scan_once (S (length s)) (skip_ws s).
Proof.
  intros Hf. pose proof (skip_ws_length s) as Hl.
  apply (scan_once_fuel (S (length s))); lia.
Qed.


(** * Properties of the heuristics, the transport, the mailbox and the
      decisions *)

(** ** Dictionaries as association lists *)

Lemma dict_get_None {V : Type} (k : str) (d : list (str * V)) :
  dict_get k d = None <-> k ∉ List.map fst d.
Proof.
  induction d as [|[k' v] d IH]; cbn.
  - split; [intros _; apply not_elem_of_nil | reflexivity].
  - unfold str_eqb. case_bool_decide as Hk.
    + subst k'. split; [discriminate|]. intros H. exfalso. apply H. left.
    + rewrite IH, not_elem_of_cons. split; [auto | tauto].
Qed.

Lemma dict_get_Some_elem {V : Type} (k : str) (v : V) (d : list (str * V)) :
  dict_get k d = Some v -> (k, v) ∈ d.
Proof.
  induction d as [|[k' v'] d IH]; cbn; [discriminate|].
  unfold str_eqb. case_bool_decide as Hk.
  - intros [= <-]. subst k'. left.
  - intros H. right. apply IH, H.
Qed.

Lemma dict_get_elem {V : Type} (k : str) (v : V) (d : list (str * V)) :
  NoDup (List.map fst d) -> (k, v) ∈ d -> dict_get k d = Some v.
Proof.
  induction d as [|[k' v'] d IH]; cbn; intros Hnd Hin.
  - apply elem_of_nil in Hin. destruct Hin.
  - apply NoDup_cons in Hnd as [Hk' Hnd]. unfold str_eqb. case_bool_decide as Hk.
    + subst k'. apply elem_of_cons in Hin as [[= <-]|Hin]; [reflexivity|].
      exfalso. apply Hk'. apply list_elem_of_In, in_map_iff.
      exists (k, v). split; [reflexivity | apply list_elem_of_In, Hin].
    + apply elem_of_cons in Hin as [[= <- <-]|Hin]; [congruence|]. apply IH; assumption.
Qed.

Lemma dict_set_fresh {V : Type} (k : str) (v : V) (d : list (str * V)) :
  k ∉ List.map fst d -> dict_set k v d = d ++ [(k, v)].
Proof.
  induction d as [|[k' v'] d IH]; cbn; intros H; [reflexivity|].
  apply not_elem_of_cons in H as [Hk H]. unfold str_eqb.
  rewrite bool_decide_eq_false_2 by congruence. rewrite IH by exact H. reflexivity.
Qed.

(** A loop that adds at most one entry per key of a dict to another dict
    builds the list of these entries, in the order of the keys. *)
Section FoldDict.
Variable step : list (str * Z) -> str * Z -> list (str * Z).
Variable pick : str * Z -> option (str * Z).
Hypothesis pick_key : forall r q kv, pick (r, q) = Some kv -> fst kv = r.
Hypothesis step_fresh : forall acc r q,
  r ∉ List.map fst acc ->
  step acc (r, q) = acc ++ match pick (r, q) with Some kv => [kv] | None => [] end.

Lemma omap_keys (l : list (str * Z)) (k : str) :
  k ∈ List.map fst (omap pick l) -> k ∈ List.map fst l.
Proof.
  induction l as [|[r q] l IH]; cbn; [auto|].
  destruct (pick (r, q)) as [kv|] eqn:Hp; cbn.
  - apply pick_key in Hp. rewrite Hp. rewrite !elem_of_cons. intros [->|H]; auto.
  - intros H. right. auto.
Qed.

Lemma fold_fresh (l : list (str * Z)) : forall acc,
  NoDup (List.map fst acc ++ List.map fst l) ->
  fold_left step l acc = acc ++ omap pick l.
Proof.
  induction l as [|[r q] l IH]; intros acc Hnd; cbn [fold_left].
  - cbn. rewrite app_nil_r. reflexivity.
  - cbn [List.map fst] in Hnd.
    apply NoDup_app in Hnd as (Hacc & Hdisj & Hl).
    apply NoDup_cons in Hl as [Hr Hl].
    assert (r ∉ List.map fst acc) as Hfresh.
    { intros Hin. apply (Hdisj r Hin). left. }
    rewrite step_fresh by exact Hfresh.
    change (omap pick ((r, q) :: l))
      with (match pick (r, q) with Some y => y :: omap pick l | None => omap pick l end).
    destruct (pick (r, q)) as [kv|] eqn:Hp.
    + rewrite IH; [rewrite <- app_assoc; reflexivity|].
      rewrite map_app. cbn [List.map]. rewrite (pick_key _ _ _ Hp).
      apply NoDup_app. split; [|split; [|exact Hl]].
      * apply NoDup_app. split; [exact Hacc|]. split; [|apply NoDup_singleton].
        intros x Hx Hx'. apply list_elem_of_singleton in Hx'. subst x. auto.
      * intros x Hx Hx'. apply elem_of_app in Hx as [Hx|Hx].
        -- apply (Hdisj x Hx). right. exact Hx'.
        -- apply list_elem_of_singleton in Hx. subst x. auto.
    + rewrite app_nil_r. apply IH.
      apply NoDup_app. split; [exact Hacc|]. split; [|exact Hl].
      intros x Hx Hx'. apply (Hdisj x Hx). right. exact Hx'.
Qed.

Lemma dict_get_omap (l : list (str * Z)) (k : str) :
  NoDup (List.map fst l) ->
  dict_get k (omap pick l)
  = match dict_get k l with Some q => snd <$> pick (k, q) | None => None end.
Proof.
  induction l as [|[r q] l IH]; intros Hnd; [reflexivity|].
  cbn [List.map fst] in Hnd. apply NoDup_cons in Hnd as [Hr Hnd].
  change (omap pick ((r, q) :: l))
    with (match pick (r, q) with Some y => y :: omap pick l | None => omap pick l end).
  cbn [dict_get]. unfold str_eqb. case_bool_decide as Hk.
  - subst r. destruct (pick (k, q)) as [[k' v]|] eqn:Hp.
    + pose proof (pick_key _ _ _ Hp) as Hk'. cbn in Hk'. subst k'.
      cbn [dict_get]. unfold str_eqb. rewrite bool_decide_eq_true_2 by reflexivity.
      reflexivity.
    + cbn. apply dict_get_None. intros Hin. apply Hr, omap_keys, Hin.
  - destruct (pick (r, q)) as [[k' v]|] eqn:Hp.
    + pose proof (pick_key _ _ _ Hp) as Hk'. cbn in Hk'. subst k'.
      cbn [dict_get]. unfold str_eqb. rewrite bool_decide_eq_false_2 by exact Hk.
      apply IH, Hnd.
    + apply IH, Hnd.
Qed.

End FoldDict.

Lemma shortfall_key estado r q kv : shortfall estado (r, q) = Some kv -> fst kv = r.
Proof.
  unfold shortfall. destruct (_ <? _)%Z; [intros [= <-]; reflexivity | discriminate].
Qed.

Lemma surplus_key estado r q kv : surplus estado (r, q) = Some kv -> fst kv = r.
Proof.
  unfold surplus. destruct (str_eqb r (u "oro")); [discriminate|].
  destruct (_ <? _)%Z; [intros [= <-]; reflexivity | discriminate].
Qed.

Lemma faltantes_omap (estado : InfoPuesto) :
  NoDup (List.map fst (Objetivo estado)) ->
  faltantes estado = omap (shortfall estado) (Objetivo estado).
Proof.
  intros Hnd. unfold faltantes.
  rewrite (fold_fresh _ (shortfall estado) (shortfall_key estado)); [reflexivity| |exact Hnd].
  intros acc r q Hfresh. unfold shortfall.
  destruct (_ <? _)%Z; [apply dict_set_fresh, Hfresh | rewrite app_nil_r; reflexivity].
Qed.

Lemma excedentes_omap (estado : InfoPuesto) :
  NoDup (List.map fst (Recursos estado)) ->
  excedentes estado = omap (surplus estado) (Recursos estado).
Proof.
  intros Hnd. unfold excedentes.
  rewrite (fold_fresh _ (surplus estado) (surplus_key estado)); [reflexivity| |exact Hnd].
  intros acc r q Hfresh. unfold surplus.
  destruct (str_eqb r (u "oro")); [rewrite app_nil_r; reflexivity|].
  remember (get0 r (Objetivo estado)) as obj eqn:Hobj.
  assert (dict_has r (Objetivo estado) = false -> obj = 0%Z) as Hzero.
  { subst obj. unfold dict_has, get0. destruct (dict_get r _); [discriminate | reflexivity]. }
  destruct (dict_has r (Objetivo estado)); cbn [negb andb].
  - destruct (obj <? q)%Z; [apply dict_set_fresh, Hfresh | rewrite app_nil_r; reflexivity].
  - rewrite (Hzero eq_refl). clear Hzero Hobj obj.
    destruct (Z.ltb_spec 0 q) as [Hq|Hq].
    + rewrite (dict_set_fresh r _ acc Hfresh).
      assert (get0 r (acc ++ [(r, (q - 0)%Z)]) = (q - 0)%Z) as ->.
      { unfold get0. clear -Hfresh. induction acc as [|[k v] acc IH]; cbn.
        - unfold str_eqb. rewrite bool_decide_eq_true_2 by reflexivity. reflexivity.
        - cbn in Hfresh. apply not_elem_of_cons in Hfresh as [Hk Hfresh].
          unfold str_eqb. rewrite bool_decide_eq_false_2 by congruence. apply IH, Hfresh. }
      replace (Z.max (q - 0) q) with (q - 0)%Z by lia.
      clear -Hfresh. induction acc as [|[k v] acc IH]; cbn.
      * unfold str_eqb. rewrite bool_decide_eq_true_2 by reflexivity. reflexivity.
      * cbn in Hfresh. apply not_elem_of_cons in Hfresh as [Hk Hfresh].
        unfold str_eqb. rewrite bool_decide_eq_false_2 by congruence. rewrite IH by exact Hfresh.
        reflexivity.
    + rewrite app_nil_r. reflexivity.
Qed.

Lemma omap_nil_iff {X Y : Type} (f : X -> option Y) (l : list X) :
  omap f l = [] <-> forall x, x ∈ l -> f x = None.
Proof.
  induction l as [|x l IH].
  - split; [|reflexivity]. intros _ x Hx. apply elem_of_nil in Hx. destruct Hx.
  - change (omap f (x :: l)) with (match f x with Some y => y :: omap f l | None => omap f l end).
    destruct (f x) as [y|] eqn:Hfx.
    + split; [discriminate|]. intros H. specialize (H x ltac:(left)). congruence.
    + rewrite IH. split.
      * intros H y Hy. apply elem_of_cons in Hy as [->|Hy]; auto.
      * intros H y Hy. apply H. right. exact Hy.
Qed.

(** X1. With the keys of the objective distinct, as those of a dict are,
    [faltantes] lists the objectives that are not met, in the order of the
    objective, each with the quantity that is missing: every listed quantity is
    positive and is the objective less the holding, and the list is empty
    exactly when every objective is met. *)
Theorem faltantes_unmet_objectives (estado : InfoPuesto)
    (Hkeys : NoDup (List.map fst (Objetivo estado))) :
  faltantes estado = omap (shortfall estado) (Objetivo estado) /\
  (forall r q, (r, q) ∈ faltantes estado ->
     (0 < q)%Z /\
     dict_get r (Objetivo estado) = Some (get0 r (Recursos estado) + q)%Z) /\
  (faltantes estado = [] <->
   forall r obj, (r, obj) ∈ Objetivo estado -> (obj <= get0 r (Recursos estado))%Z).
Proof.
  rewrite (faltantes_omap estado Hkeys). split; [reflexivity|]. split.
  - intros r q Hin. apply list_elem_of_omap in Hin as ([r' obj] & Hin & Hs).
    unfold shortfall in Hs.
    destruct (Z.ltb_spec (get0 r' (Recursos estado)) obj) as [Hlt|]; [|discriminate].
    injection Hs as <- <-. split; [lia|].
    rewrite (dict_get_elem r' obj _ Hkeys Hin). f_equal. lia.
  - rewrite omap_nil_iff. split.
    + intros H r obj Hin. specialize (H _ Hin). unfold shortfall in H.
      destruct (Z.ltb_spec (get0 r (Recursos estado)) obj); [discriminate | assumption].
    + intros H [r obj] Hin. specialize (H _ _ Hin). unfold shortfall.
      destruct (Z.ltb_spec (get0 r (Recursos estado)) obj); [lia | reflexivity].
Qed.

Lemma faltantes_unmet_objectives_witness :
  NoDup (List.map fst (Objetivo scenario_A)) /\
  (faltantes scenario_A = [] <->
   forall r obj, (r, obj) ∈ Objetivo scenario_A -> (obj <= get0 r (Recursos scenario_A))%Z).
Proof.
  assert (NoDup (List.map fst (Objetivo scenario_A))) as H.
  { apply (bool_decide_unpack (NoDup (List.map fst (Objetivo scenario_A)))).
    vm_compute. exact I. }
  split; [exact H|]. apply (faltantes_unmet_objectives scenario_A H).
Defined.

(** X2. With the keys of the resources distinct, [excedentes] lists, in
    the order of the resources, every resource other than gold that is held
    beyond its objective (zero when it has none), with the excess: gold is
    never listed and every listed quantity is positive. The second test of the
    loop never changes what the first one wrote. *)
Theorem excedentes_surplus_over_objective (estado : InfoPuesto)
    (Hkeys : NoDup (List.map fst (Recursos estado))) :
  excedentes estado = omap (surplus estado) (Recursos estado) /\
  dict_get (u "oro") (excedentes estado) = None /\
  (forall r s, (r, s) ∈ excedentes estado ->
     (0 < s)%Z /\
     dict_get r (Recursos estado) = Some (get0 r (Objetivo estado) + s)%Z).
Proof.
  rewrite (excedentes_omap estado Hkeys). split; [reflexivity|]. split.
  - apply dict_get_None. intros Hin. apply list_elem_of_In, in_map_iff in Hin as ([r s] & Hr & Hin).
    cbn [fst] in Hr. subst r. apply list_elem_of_In, list_elem_of_omap in Hin as ([r' q] & _ & Hs).
    unfold surplus in Hs. unfold str_eqb in Hs. case_bool_decide as Hk; [discriminate|].
    destruct (_ <? _)%Z; [|discriminate]. congruence.
  - intros r s Hin. apply list_elem_of_omap in Hin as ([r' q] & Hin & Hs).
    unfold surplus in Hs. destruct (str_eqb r' (u "oro")); [discriminate|].
    destruct (Z.ltb_spec (get0 r' (Objetivo estado)) q) as [Hlt|]; [|discriminate].
    injection Hs as <- <-. split; [lia|].
    rewrite (dict_get_elem r' q _ Hkeys Hin). f_equal. lia.
Qed.

Lemma excedentes_surplus_witness :
  NoDup (List.map fst (Recursos estado_con_madera)) /\
  excedentes estado_con_madera = [(u "madera", 5%Z)].
Proof.
  assert (NoDup (List.map fst (Recursos estado_con_madera))) as H.
  { apply (bool_decide_unpack (NoDup (List.map fst (Recursos estado_con_madera)))).
    vm_compute. exact I. }
  split; [exact H|].
  rewrite (proj1 (excedentes_surplus_over_objective estado_con_madera H)).
  vm_compute. reflexivity.
Defined.

(** X3. When breaking the objective is not allowed, a positive quantity
    that [can_give] accepts leaves the holding at or above the objective: the
    item has no shortfall and, unless it is gold, it is listed in the surplus
    for at least that quantity. *)
Theorem can_give_keeps_objective (cfg : config) (estado : InfoPuesto) (item : str) (qty : Z)
    (Hmode : ALLOW_BREAK_OBJECTIVE cfg = false)
    (Hobj : NoDup (List.map fst (Objetivo estado)))
    (Hrec : NoDup (List.map fst (Recursos estado)))
    (Hqty : (0 < qty)%Z)
    (Hgive : can_give cfg estado item qty = true) :
  (get0 item (Objetivo estado) <= get0 item (Recursos estado) - qty)%Z /\
  dict_get item (faltantes estado) = None /\
  (item <> u "oro" ->
   exists s, dict_get item (excedentes estado) = Some s /\ (qty <= s)%Z).
Proof.
  unfold can_give in Hgive. rewrite Hmode in Hgive.
  destruct (Z.ltb_spec (get0 item (Recursos estado)) qty) as [|Hhave]; [discriminate|].
  apply Z.leb_le in Hgive. split; [lia|]. split.
  - rewrite (faltantes_omap estado Hobj).
    rewrite (dict_get_omap (shortfall estado) (shortfall_key estado)) by exact Hobj.
    destruct (dict_get item (Objetivo estado)) as [obj|] eqn:Ho; [|reflexivity].
    unfold shortfall. unfold get0 in Hgive at 2. rewrite Ho in Hgive. cbn in Hgive.
    destruct (Z.ltb_spec (get0 item (Recursos estado)) obj); [lia | reflexivity].
  - intros Horo. rewrite (excedentes_omap estado Hrec).
    rewrite (dict_get_omap (surplus estado) (surplus_key estado)) by exact Hrec.
    unfold get0 in Hhave, Hgive at 1.
    destruct (dict_get item (Recursos estado)) as [have|] eqn:Hr; cbn in Hhave, Hgive; [|lia].
    unfold surplus. unfold str_eqb. rewrite bool_decide_eq_false_2 by exact Horo.
    destruct (Z.ltb_spec (get0 item (Objetivo estado)) have); [|lia].
    cbn. eexists. split; [reflexivity | lia].
Qed.

Lemma can_give_keeps_objective_witness :
  ALLOW_BREAK_OBJECTIVE defaults = false /\
  NoDup (List.map fst (Objetivo estado_con_madera)) /\
  NoDup (List.map fst (Recursos estado_con_madera)) /\
  (0 < 2)%Z /\
  can_give defaults estado_con_madera (u "madera") 2 = true /\
  dict_get (u "madera") (faltantes estado_con_madera) = None.
Proof.
  assert (ALLOW_BREAK_OBJECTIVE defaults = false) as H1 by reflexivity.
  assert (NoDup (List.map fst (Objetivo estado_con_madera))) as H2.
  { apply (bool_decide_unpack (NoDup (List.map fst (Objetivo estado_con_madera)))).
    vm_compute. exact I. }
  assert (NoDup (List.map fst (Recursos estado_con_madera))) as H3.
  { apply (bool_decide_unpack (NoDup (List.map fst (Recursos estado_con_madera)))).
    vm_compute. exact I. }
  assert (0 < 2)%Z as H4 by reflexivity.
  assert (can_give defaults estado_con_madera (u "madera") 2 = true) as H5
    by (vm_compute; reflexivity).
  refine (conj H1 (conj H2 (conj H3 (conj H4 (conj H5 _))))).
  apply (can_give_keeps_objective defaults estado_con_madera (u "madera") 2 H1 H2 H3 H4 H5).
Defined.

(** ** The retries of the transport *)

Lemma retry_outcome (E : env) (r : request) (n : nat) : forall w,
  exists k : nat,
    (k <= n)%nat /\
    attempts (retry E n r w).2 = (attempts w + k)%nat /\
    trace (retry E n r w).2
    = trace w ++ List.map (fun i => Http r (net E (attempts w + i)%nat r)) (seq 0 k) /\
    (forall i, (S i < k)%nat -> net E (attempts w + i)%nat r = None) /\
    same_limiter w (retry E n r w).2 /\
    mails_by_id (retry E n r w).2 = mails_by_id w /\
    match (retry E n r w).1 with
    | Ok status => exists j, k = S j /\ net E (attempts w + j)%nat r = Some status
    | Raise e =>
        e = RequestException /\ k = n /\
        forall i, (i < n)%nat -> net E (attempts w + i)%nat r = None
    end.
Proof.
  induction n as [|n IH]; intros w.
  - exists 0%nat. cbn. rewrite Nat.add_0_r, app_nil_r.
    repeat split; auto; lia.
  - cbn [retry]. rewrite run_bind.
    change (requests_request E r w)
      with (Ok (net E (attempts w) r), record (Http r (net E (attempts w) r)) (attempted w)).
    destruct (net E (attempts w) r) as [s|] eqn:Hnet.
    + exists 1%nat. cbn. rewrite Nat.add_0_r, Nat.add_1_r, Hnet.
      repeat split; auto; try lia.
      exists 0%nat. rewrite Nat.add_0_r. auto.
    + cbn beta iota.
      destruct (IH (record (Http r None) (attempted w)))
        as (k & Hk & Ha & Ht & Hnone & Hl & Hm & Hres).
      cbn [attempts record attempted trace] in Ha, Ht, Hnone, Hres.
      exists (S k). split; [lia|]. split; [rewrite Ha; lia|]. split; [|split; [|split; [|split]]].
      * rewrite Ht, <- app_assoc. f_equal. cbn [seq List.map app].
        rewrite Nat.add_0_r, Hnet. f_equal.
        rewrite <- seq_shift, map_map. apply map_ext. intros i.
        replace (attempts w + S i)%nat with (S (attempts w) + i)%nat by lia. reflexivity.
      * intros i Hi. destruct i as [|i]; [rewrite Nat.add_0_r; exact Hnet|].
        replace (attempts w + S i)%nat with (S (attempts w) + i)%nat by lia.
        apply Hnone. lia.
      * exact Hl.
      * exact Hm.
      * destruct (retry E n r _).1 as [status|e].
        -- destruct Hres as (j & -> & Hj). exists (S j). split; [reflexivity|].
           replace (attempts w + S j)%nat with (S (attempts w) + j)%nat by lia. exact Hj.
        -- destruct Hres as (-> & -> & Hall). repeat split.
           intros i Hi. destruct i as [|i]; [rewrite Nat.add_0_r; exact Hnet|].
           replace (attempts w + S i)%nat with (S (attempts w) + i)%nat by lia.
           apply Hall. lia.
Qed.

(** X4. [request_with_retry] makes at most three attempts, one after the
    other while the transport raises; it returns the status of the first
    attempt that is answered, and raises when none of the three is. Nothing
    but the count of attempts and the trace changes. *)
Theorem request_with_retry_outcome (E : env) (r : request) (w : world) :
  let a := attempts w in
  let run := request_with_retry E r w in
  exists k : nat,
    (k <= 3)%nat /\
    attempts run.2 = (a + k)%nat /\
    trace run.2 = trace w ++ List.map (fun i => Http r (net E (a + i)%nat r)) (seq 0 k) /\
    (forall i, (S i < k)%nat -> net E (a + i)%nat r = None) /\
    same_limiter w run.2 /\
    mails_by_id run.2 = mails_by_id w /\
    match run.1 with
    | Ok status => exists j, k = S j /\ net E (a + j)%nat r = Some status
    | Raise e =>
        e = RequestException /\ k = 3%nat /\
        forall i, (i < 3)%nat -> net E (a + i)%nat r = None
    end.
Proof. intros a run. apply retry_outcome. Qed.

(** X5. [enviar_carta] never raises: it returns true exactly when the
    request got status 200, whatever the transport does. [enviar_paquete] and
    [borrar_mail] let through the exception of a request that failed three
    times, and [enviar_paquete] then leaves the clock and the tables of the
    rate limiter as they were: the destination is not blacklisted. *)
Theorem transport_failure_in_senders (cfg : config) (E : env) (w : world)
    (dest asunto : str) (cuerpo : body) (paquete : list (str * Z)) (mid : str) :
  (exists ok, (enviar_carta cfg E dest asunto cuerpo w).1 = Ok ok /\
     (ok = true <->
      (request_with_retry E (PostCarta (ALIAS cfg) dest asunto cuerpo) w).1 = Ok 200%Z)) /\
  ((request_with_retry E (PostPaquete dest paquete) w).1 = Raise RequestException ->
   (enviar_paquete cfg E dest paquete w).1 = Raise RequestException /\
   same_limiter w (enviar_paquete cfg E dest paquete w).2) /\
  ((request_with_retry E (DeleteMail mid) w).1 = Raise RequestException ->
   (borrar_mail E mid w).1 = Raise RequestException).
Proof.
  split; [|split].
  - rewrite enviar_carta_run.
    destruct (request_with_retry E _ w) as [[status|e] w1]; cbn.
    + destruct (Z.eqb_spec status 200) as [->|Hne]; cbn.
      * exists true. split; [reflexivity|]. split; reflexivity.
      * exists false. split; [reflexivity|]. split; [discriminate | congruence].
    + exists false. split; [reflexivity|]. split; discriminate.
  - intros H. unfold enviar_paquete. rewrite run_bind.
    pose proof (request_with_retry_limiter E (PostPaquete dest paquete) w) as Hl.
    destruct (request_with_retry E _ w) as [[status|e] w1]; cbn in *; [discriminate|].
    injection H as ->. split; [reflexivity | exact Hl].
  - intros H. unfold borrar_mail. rewrite run_bind.
    destruct (request_with_retry E _ w) as [[status|e] w1]; cbn in *; [discriminate|].
    injection H as ->. reflexivity.
Qed.

Lemma transport_failure_witness :
  (request_with_retry silent (PostPaquete (u "p2") [(u "madera", 1%Z)]) fresh).1
  = Raise RequestException /\
  (enviar_paquete defaults silent (u "p2") [(u "madera", 1%Z)] fresh).1
  = Raise RequestException /\
  (enviar_carta defaults silent (u "p2") (u "Oferta") (Text []) fresh).1 = Ok false.
Proof.
  destruct (transport_failure_in_senders defaults silent fresh (u "p2") (u "Oferta")
              (Text []) [(u "madera", 1%Z)] [])
    as ((ok & Hok & Hiff) & Hpaquete & _).
  assert ((request_with_retry silent (PostPaquete (u "p2") [(u "madera", 1%Z)]) fresh).1
          = Raise RequestException) as H by reflexivity.
  split; [exact H|]. split; [exact (proj1 (Hpaquete H))|].
  rewrite Hok. destruct ok; [|reflexivity].
  pose proof (proj1 Hiff eq_refl) as Ht. discriminate Ht.
Defined.

(** X6. A transfer that the broker answers with a status other than 200
    returns false and blacklists the destination until the reading of the
    clock plus [BAD_DEST_SECONDS]; the cooldown timestamps keep their values.
    From then on, while that entry stands, [can_send_offer_now] answers false
    for the destination before that time, and from that time on answers what
    the two cooldowns alone decide. *)
Theorem refused_package_blacklists (cfg : config) (E : env) (dest : str)
    (paquete : list (str * Z)) (w : world) (status : Z)
    (Hnet : net E (attempts w) (PostPaquete dest paquete) = Some status)
    (Hstatus : status <> 200%Z) :
  let until := (clock E (ticks w) + inject_Z (BAD_DEST_SECONDS cfg))%Q in
  let run := enviar_paquete cfg E dest paquete w in
  run.1 = Ok false /\
  BAD_DEST_UNTIL run.2 = <[dest := until]> (BAD_DEST_UNTIL w) /\
  LAST_OFFER_TS_GLOBAL run.2 = LAST_OFFER_TS_GLOBAL w /\
  LAST_OFFER_TS_DEST run.2 = LAST_OFFER_TS_DEST w /\
  forall (E2 : env) (w2 : world),
    BAD_DEST_UNTIL w2 !! dest = Some until ->
    let now := clock E2 (ticks w2) in
    let answer := (can_send_offer_now cfg E2 dest w2).1 in
    ((now < until)%Q -> answer = Ok false) /\
    ((until <= now)%Q ->
     answer = Ok (negb (Qltb (now - LAST_OFFER_TS_GLOBAL w2)
                          (inject_Z (OFFER_COOLDOWN_GLOBAL cfg)))
                  && negb (Qltb (now - default 0%Q (LAST_OFFER_TS_DEST w2 !! dest))
                             (inject_Z (OFFER_COOLDOWN_PER_DEST cfg))))).
Proof.
  intros until run. subst run. unfold enviar_paquete. rewrite run_bind.
  rewrite (request_with_retry_answered E _ w status Hnet).
  rewrite (proj2 (Z.eqb_neq status 200) Hstatus). cbn.
  repeat split.
  - intros Hnow. rewrite can_send_offer_now_run. cbn. f_equal.
    unfold sendable. rewrite H. apply Qltb_lt in Hnow. rewrite Hnow. reflexivity.
  - intros Hnow. rewrite can_send_offer_now_run. cbn. f_equal.
    unfold sendable. rewrite H. apply Qltb_ge in Hnow. rewrite Hnow. reflexivity.
Qed.

Lemma refused_package_witness :
  net refusing (attempts fresh) (PostPaquete (u "p2") [(u "madera", 1%Z)]) = Some 500%Z /\
  500%Z <> 200%Z /\
  (can_send_offer_now defaults refusing (u "p2")
     (enviar_paquete defaults refusing (u "p2") [(u "madera", 1%Z)] fresh).2).1 = Ok false.
Proof.
  assert (net refusing (attempts fresh) (PostPaquete (u "p2") [(u "madera", 1%Z)])
          = Some 500%Z) as H1 by reflexivity.
  assert (500%Z <> 200%Z) as H2 by discriminate.
  refine (conj H1 (conj H2 _)).
  destruct (refused_package_blacklists defaults refusing (u "p2") [(u "madera", 1%Z)]
              fresh 500 H1 H2) as (_ & Hbad & _ & _ & Hlater).
  apply (Hlater refusing).
  - rewrite Hbad. apply lookup_insert_eq.
  - vm_compute. reflexivity.
Defined.

(** ** Which messages the enforcement step keeps *)

Lemma dict_pop_middle {V : Type} (k : str) (v : V) (pre post : list (str * V)) :
  k ∉ List.map fst pre -> dict_pop k (pre ++ (k, v) :: post) = pre ++ post.
Proof.
  induction pre as [|[k' v'] pre IH]; cbn; intros H.
  - unfold str_eqb. rewrite bool_decide_eq_true_2 by reflexivity. reflexivity.
  - apply not_elem_of_cons in H as [Hk H]. unfold str_eqb.
    rewrite bool_decide_eq_false_2 by congruence. rewrite IH by exact H. reflexivity.
Qed.

Lemma limitar_loop_keeps E (post : list (str * mail)) : forall pre w w',
  mails_by_id w = pre ++ post ->
  NoDup (List.map fst (pre ++ post)) ->
  mfor (List.map fst post) (fun mid => borrar_mail E mid;; pop_mail mid) w = (Ok tt, w') ->
  mails_by_id w' = pre.
Proof.
  induction post as [|[k m] post IH]; intros pre w w' Hw Hnd Hrun.
  - cbn in Hrun. injection Hrun as <-. rewrite Hw, app_nil_r. reflexivity.
  - cbn [List.map fst mfor] in Hrun. rewrite !run_bind in Hrun.
    pose proof (borrar_mail_mails E k w) as Hm. unfold same_mails in Hm.
    destruct (borrar_mail E k w) as [[[]|e] w1]; cbn in Hm; [|discriminate].
    cbn [pop_mail modify] in Hrun.
    assert ((k ∉ List.map fst pre) /\ NoDup (List.map fst (pre ++ post))) as [Hk Hnd'].
    { rewrite map_app in Hnd. cbn [List.map fst] in Hnd.
      apply NoDup_app in Hnd as (Hpre & Hdisj & Hpost).
      apply NoDup_cons in Hpost as [Hk Hpost]. split.
      - intros Hin. apply (Hdisj k Hin). left.
      - rewrite map_app. apply NoDup_app. split; [exact Hpre|]. split; [|exact Hpost].
        intros x Hx Hx'. apply (Hdisj x Hx). right. exact Hx'. }
    apply (IH pre) in Hrun; [exact Hrun| |exact Hnd'].
    cbn. rewrite <- Hm, Hw. apply dict_pop_middle. exact Hk.
Qed.

(** X7. With cleanup enabled and distinct identifiers, when the
    enforcement step completes the mailbox holds its first [MAX_MAILS]
    entries, unchanged and in order; when [MAX_MAILS] is negative it holds all
    but its last [- MAX_MAILS] entries. *)
Theorem mailbox_keeps_oldest (cfg : config) (E : env) (w : world)
    (Hclean : CLEAN_INBOX cfg = true)
    (Hkeys : NoDup (List.map fst (mails_by_id w))) :
  forall w', limitar_buzon cfg E w = (Ok tt, w') ->
    let n := Z.of_nat (length (mails_by_id w)) in
    let kept := if (MAX_MAILS cfg <? 0)%Z then (n + MAX_MAILS cfg)%Z else MAX_MAILS cfg in
    mails_by_id w' = take (Z.to_nat kept) (mails_by_id w).
Proof.
  intros w'. unfold limitar_buzon. rewrite run_bind. cbn [get_world]. rewrite Hclean.
  cbn [andb]. intros Hrun.
  set (kept := if (MAX_MAILS cfg <? 0)%Z
               then (Z.of_nat (length (mails_by_id w)) + MAX_MAILS cfg)%Z
               else MAX_MAILS cfg).
  destruct (Z.ltb_spec (MAX_MAILS cfg) (Z.of_nat (length (mails_by_id w)))) as [Hlen|Hlen].
  - assert (slice_from (MAX_MAILS cfg) (List.map fst (mails_by_id w))
            = List.map fst (drop (Z.to_nat kept) (mails_by_id w))) as Hslice.
    { unfold slice_from, kept. rewrite length_map.
      destruct (Z.ltb_spec (MAX_MAILS cfg) 0).
      - rewrite skipn_map. do 2 f_equal. lia.
      - rewrite skipn_map. reflexivity. }
    rewrite Hslice in Hrun.
    apply (limitar_loop_keeps E _ (take (Z.to_nat kept) (mails_by_id w))) in Hrun.
    + exact Hrun.
    + symmetry. apply take_drop.
    + rewrite take_drop. exact Hkeys.
  - injection Hrun as <-. unfold kept.
    destruct (Z.ltb_spec (MAX_MAILS cfg) 0); [lia|].
    symmetry. apply take_ge. lia.
Qed.

Lemma mailbox_keeps_oldest_witness :
  let buzon := [(u "m1", nota "p2" "hola"); (u "m2", nota "p3" "que tal");
                (u "m3", nota "p4" "adios")] in
  CLEAN_INBOX one_mail = true /\
  NoDup (List.map fst (mails_by_id (con_buzon buzon []))) /\
  mails_by_id (limitar_buzon one_mail calm (con_buzon buzon [])).2
  = [(u "m1", nota "p2" "hola")].
Proof.
  intros buzon.
  assert (CLEAN_INBOX one_mail = true) as H1 by reflexivity.
  assert (NoDup (List.map fst (mails_by_id (con_buzon buzon [])))) as H2.
  { apply (bool_decide_unpack (NoDup (List.map fst (mails_by_id (con_buzon buzon []))))).
    vm_compute. exact I. }
  refine (conj H1 (conj H2 _)).
  assert (limitar_buzon one_mail calm (con_buzon buzon [])
          = (Ok tt, (limitar_buzon one_mail calm (con_buzon buzon [])).2)) as Hrun.
  { apply injective_projections; [vm_compute; reflexivity | reflexivity]. }
  pose proof (mailbox_keeps_oldest one_mail calm (con_buzon buzon []) H1 H2 _ Hrun) as H.
  cbv zeta in H. rewrite H. vm_compute. reflexivity.
Defined.

(** X8. A message whose sender is missing, empty or blank is neither
    answered nor deleted: the settlement pass only gives its body to the
    acceptance decoder, and the scan of [decidir_fallback] skips it without
    decoding it. *)
Theorem blank_sender_ignored (cfg : config) (E : env) (estado : InfoPuesto)
    (f : list (str * Z)) (mid : str) (m : mail) (w : world)
    (Hblank : text_of (remi m) = []) :
  procesar_mail cfg E (mid, m) w
  = (Ok tt, record (DecodeAccept mid (text_of (cuerpo m))) w) /\
  considerar_oferta cfg E estado f (mid, m) w = (Ok None, w).
Proof.
  split.
  - unfold procesar_mail. rewrite Hblank.
    change (str_eqb (lower []) (u "sistema")) with false. cbn iota.
    rewrite run_bind. cbn [modify]. rewrite run_bind. unfold lift at 1.
    unfold parse_accept_from_text.
    destruct (search TAG_ACCEPT_RE (text_of (cuerpo m))) as [g|]; [|reflexivity].
    destruct (load_pair g) as [[te espero]|]; reflexivity.
  - unfold considerar_oferta. rewrite Hblank. reflexivity.
Qed.

Lemma blank_sender_ignored_witness :
  text_of (remi anonimo) = [] /\
  trace (procesar_mail defaults calm (u "m9", anonimo)
           (con_buzon [(u "m9", anonimo)] [(u "madera", 5%Z)])).2
  = [DecodeAccept (u "m9") (text_of (cuerpo anonimo))].
Proof.
  assert (text_of (remi anonimo) = []) as H by reflexivity.
  split; [exact H|].
  rewrite (proj1 (blank_sender_ignored defaults calm estado_con_madera [] (u "m9") anonimo
                    (con_buzon [(u "m9", anonimo)] [(u "madera", 5%Z)]) H)).
  reflexivity.
Defined.

(** ** What a computation adds to the trace *)

Lemma preserves_lift_bind {A B : Type} (R : world -> world -> Prop) (r : result A)
    (f : A -> M B) :
  (forall w, R w w) ->
  (forall a, r = Ok a -> preserves R (f a)) -> preserves R (lift r ≫= f).
Proof.
  intros Hrefl Hf w. rewrite run_bind. unfold lift.
  destruct r as [a|e]; cbn; [apply (Hf a eq_refl) | apply Hrefl].
Qed.

Lemma preserves_get_bind {B : Type} (R : world -> world -> Prop) (f : world -> M B) :
  (forall w, R w (f w w).2) -> preserves R (get_world ≫= f).
Proof. intros H w. rewrite run_bind. cbn [get_world]. apply H. Qed.

Lemma preserves_and {A : Type} (R1 R2 : world -> world -> Prop) (m : M A) :
  preserves R1 m -> preserves R2 m -> preserves (fun w w' => R1 w w' /\ R2 w w') m.
Proof. intros H1 H2 w. split; [apply H1 | apply H2]. Qed.

Section Emits.
Variable P : event -> Prop.

Lemma emits_refl w : emits P w w.
Proof. split; [reflexivity|]. exists []. rewrite app_nil_r. auto. Qed.

Lemma emits_trans a b c : emits P a b -> emits P b c -> emits P a c.
Proof.
  intros (Hc1 & e1 & Ht1 & H1) (Hc2 & e2 & Ht2 & H2). split; [congruence|].
  exists (e1 ++ e2). rewrite Ht2, Ht1, app_assoc. split; [reflexivity|].
  apply Forall_app. auto.
Qed.

Lemma emits_silent w w' :
  estado_cache w' = estado_cache w -> trace w' = trace w -> emits P w w'.
Proof. intros Hc Ht. split; [exact Hc|]. exists []. rewrite app_nil_r. auto. Qed.

Lemma emits_record e w : P e -> emits P w (record e w).
Proof. intros H. split; [reflexivity|]. exists [e]. auto. Qed.

Lemma emits_requests_request E r :
  (forall s, P (Http r s)) -> preserves (emits P) (requests_request E r).
Proof.
  intros H w. unfold requests_request. cbn [snd].
  split; [reflexivity|]. eexists. split; [reflexivity|]. auto.
Qed.

Lemma emits_request_with_retry E r :
  (forall s, P (Http r s)) -> preserves (emits P) (request_with_retry E r).
Proof.
  intros H. unfold request_with_retry. generalize 3%nat. intros n.
  induction n as [|n IH]; cbn [retry].
  - apply (preserves_raise _ emits_refl).
  - apply (preserves_bind _ emits_trans); [apply emits_requests_request, H|].
    intros [s|]; [apply (preserves_ret _ emits_refl) | exact IH].
Qed.

Lemma emits_borrar_mail E mid :
  (forall s, P (Http (DeleteMail mid) s)) -> preserves (emits P) (borrar_mail E mid).
Proof.
  intros H. apply (preserves_bind _ emits_trans); [apply emits_request_with_retry, H|].
  intros _. apply (preserves_ret _ emits_refl).
Qed.

Lemma emits_pop_mail mid : preserves (emits P) (pop_mail mid).
Proof. intros w. apply emits_silent; reflexivity. Qed.

Lemma emits_mark_bad cfg E dest : preserves (emits P) (mark_bad cfg E dest).
Proof. intros w. apply emits_silent; reflexivity. Qed.

Lemma emits_enviar_paquete cfg E dest paquete :
  (forall s, P (Http (PostPaquete dest paquete) s)) ->
  preserves (emits P) (enviar_paquete cfg E dest paquete).
Proof.
  intros H. apply (preserves_bind _ emits_trans); [apply emits_request_with_retry, H|].
  intros status. apply (preserves_bind _ emits_trans).
  - apply preserves_if; [apply emits_mark_bad | apply (preserves_ret _ emits_refl)].
  - intros _. apply (preserves_ret _ emits_refl).
Qed.

Lemma emits_enviar_carta cfg E dest asunto cuerpo :
  (forall s, P (Http (PostCarta (ALIAS cfg) dest asunto cuerpo) s)) ->
  preserves (emits P) (enviar_carta cfg E dest asunto cuerpo).
Proof.
  intros H w. rewrite enviar_carta_run.
  pose proof (emits_request_with_retry E _ H w) as Hr.
  destruct (request_with_retry E _ w) as [r w1]. cbn [snd] in Hr.
  destruct (match r with Ok status => (status =? 200)%Z | Raise _ => false end); cbn [snd].
  - exact Hr.
  - eapply emits_trans; [exact Hr|]. apply emits_silent; reflexivity.
Qed.

Lemma emits_can_send_offer_now cfg E dest :
  preserves (emits P) (can_send_offer_now cfg E dest).
Proof. intros w. rewrite can_send_offer_now_run. apply emits_silent; reflexivity. Qed.

Lemma emits_mark_offer_sent E dest : preserves (emits P) (mark_offer_sent E dest).
Proof. intros w. rewrite mark_offer_sent_run. apply emits_silent; reflexivity. Qed.

End Emits.

(** One step through a computation whose events all satisfy the predicate:
    the events of the requests are left as side conditions. *)
Ltac emits_step :=
  first
    [ apply (preserves_ret _ (emits_refl _))
    | apply (preserves_lift _ (emits_refl _))
    | apply (preserves_get _ (emits_refl _))
    | apply emits_can_send_offer_now
    | apply emits_mark_offer_sent
    | apply emits_pop_mail
    | apply emits_enviar_carta; intros ?
    | apply emits_enviar_paquete; intros ?
    | apply emits_borrar_mail; intros ?
    | apply preserves_modify; intros ?; apply emits_record; exact I
    | apply (preserves_bind _ (emits_trans _)); [|intros ?]
    | match goal with
      | |- preserves _ (if negb (can_give ?c ?e ?i ?q) then _ else _) =>
          destruct (can_give c e i q) eqn:?; cbn [negb]
      | |- preserves _ (if _ then _ else _) => apply preserves_if
      | |- preserves _ (match ?x with _ => _ end) => destruct x
      end ].

Lemma ejecutar_decision_payable cfg E dec estado :
  preserves (emits (payable cfg estado)) (ejecutar_decision cfg E dec estado).
Proof.
  unfold ejecutar_decision. destruct (accion dec) as [|dest nr nc or oc|mid].
  - emits_step.
  - repeat emits_step. exact I.
  - repeat emits_step; try exact I. cbn. eauto.
Qed.

(** X9. Whatever the decision, every transfer that [ejecutar_decision]
    requests is of one item in a quantity that [can_give] allows for the state
    of the cycle. The cached holdings are not changed. *)
Theorem executed_transfers_are_payable (cfg : config) (E : env) (dec : Decision)
    (estado : InfoPuesto) (w : world) :
  emits (payable cfg estado) w (ejecutar_decision cfg E dec estado w).2.
Proof. apply ejecutar_decision_payable. Qed.

(** ** The settlement pass sends only what the holdings cover *)

Lemma settles_refl c w : settles c w w.
Proof. intros _. apply emits_refl. Qed.

Lemma settles_trans c w1 w2 w3 : settles c w1 w2 -> settles c w2 w3 -> settles c w1 w3.
Proof.
  intros H1 H2 Hc. specialize (H1 Hc). eapply emits_trans; [exact H1|].
  apply H2. destruct H1 as [-> _]. exact Hc.
Qed.

Lemma settles_of_emits {A : Type} c (m : M A) :
  preserves (emits (covered_by c)) m -> preserves (settles c) m.
Proof. intros H w _. apply H. Qed.

Lemma covers_forall c espero : forall paquete,
  covers c espero = Ok true -> int_values espero = Ok paquete ->
  Forall (fun kq => (snd kq <= get0 (fst kq) c)%Z) paquete.
Proof.
  induction espero as [|[k v] rest IH]; cbn; intros paquete Hc Hp.
  - injection Hp as <-. constructor.
  - destruct (py_int v) as [iv|e]; cbn in *; [|discriminate].
    destruct (Z.ltb_spec (get0 k c) iv) as [|Hle]; [discriminate|].
    destruct (int_values rest) as [p|e]; cbn in Hp; [|discriminate].
    injection Hp as <-. constructor; [exact Hle | apply IH; auto].
Qed.

Lemma procesar_mail_settles cfg E c entry :
  preserves (settles c) (procesar_mail cfg E entry).
Proof.
  destruct entry as [mid m]. unfold procesar_mail.
  destruct (str_eqb (lower (text_of (remi m))) (u "sistema")) eqn:Hsys.
  { apply settles_of_emits. repeat emits_step; exact I. }
  apply (preserves_bind _ (settles_trans c)).
  { apply settles_of_emits. emits_step. }
  intros _. apply (preserves_bind _ (settles_trans c)).
  { apply settles_of_emits. emits_step. }
  intros [[te espero]|]; [|apply (preserves_ret _ (settles_refl c))].
  destruct (str_eqb (text_of (remi m)) []) eqn:Hremi; cbn [negb];
    [apply (preserves_ret _ (settles_refl c))|].
  assert (text_of (remi m) <> [] /\ lower (text_of (remi m)) <> u "sistema") as Hdest.
  { unfold str_eqb in Hsys, Hremi. split; intros H.
    - rewrite H in Hremi. rewrite bool_decide_eq_true_2 in Hremi by reflexivity. discriminate.
    - rewrite H in Hsys. rewrite bool_decide_eq_true_2 in Hsys by reflexivity. discriminate. }
  apply preserves_get_bind. intros w Hc. rewrite Hc. clear Hc. revert w.
  apply (preserves_lift_bind _ _ _ (emits_refl _)). intros ok_send Hcov.
  apply (preserves_bind _ (emits_trans _)); [|intros _; repeat emits_step; exact I].
  destruct ok_send.
  - apply (preserves_lift_bind _ _ _ (emits_refl _)). intros paquete Hp.
    repeat emits_step.
    + cbn. destruct Hdest. repeat split; auto. apply (covers_forall c espero); assumption.
    + exact Hdest.
  - repeat emits_step. exact Hdest.
Qed.

(** X10. Every transfer that the settlement pass requests asks of each
    item no more than the cached holdings hold, and its transfers and letters
    go to a sender that is named and is not the system. The cached holdings
    are not changed. *)
Theorem settlement_sends_what_is_held (cfg : config) (E : env) (w : world) :
  emits (covered_by (estado_cache w)) w (procesar_mails_automaticos cfg E w).2.
Proof.
  rewrite procesar_mails_automaticos_loop.
  apply (preserves_mfor _ (settles_refl _) (settles_trans _) _ _
           (procesar_mail_settles cfg E (estado_cache w))).
  reflexivity.
Qed.

(** ** Without cleanup nothing is deleted *)

Lemma keeps_mails_refl w : keeps_mails w w.
Proof. split; [reflexivity | apply emits_refl]. Qed.

Lemma keeps_mails_trans a b c : keeps_mails a b -> keeps_mails b c -> keeps_mails a c.
Proof.
  intros [H1 H1'] [H2 H2']. split; [eapply same_mails_trans | eapply emits_trans]; eassumption.
Qed.

Lemma keeps_mails_silent w w' :
  mails_by_id w' = mails_by_id w -> estado_cache w' = estado_cache w ->
  trace w' = trace w -> keeps_mails w w'.
Proof. intros Hm Hc Ht. split; [symmetry; exact Hm | apply emits_silent; assumption]. Qed.

Lemma request_with_retry_mails E r : preserves same_mails (request_with_retry E r).
Proof. apply preserves_retry; eauto with frame. Qed.

Lemma keeps_enviar_paquete cfg E dest paquete :
  preserves keeps_mails (enviar_paquete cfg E dest paquete).
Proof.
  apply preserves_and; [|apply emits_enviar_paquete; intros s; exact I].
  intros w. unfold enviar_paquete. rewrite run_bind.
  pose proof (request_with_retry_mails E (PostPaquete dest paquete) w) as H.
  destruct (request_with_retry E _ w) as [[status|e] w1]; cbn [snd] in *; [|exact H].
  destruct (status =? 200)%Z; exact H.
Qed.

Lemma keeps_enviar_carta cfg E dest asunto cuerpo :
  preserves keeps_mails (enviar_carta cfg E dest asunto cuerpo).
Proof.
  apply preserves_and; [|apply emits_enviar_carta; intros s; exact I].
  intros w. rewrite enviar_carta_run.
  pose proof (request_with_retry_mails E (PostCarta (ALIAS cfg) dest asunto cuerpo) w) as H.
  destruct (request_with_retry E _ w) as [r w1]; cbn [snd] in *.
  destruct (match r with Ok status => (status =? 200)%Z | Raise _ => false end); exact H.
Qed.

Lemma keeps_can_send_offer_now cfg E dest :
  preserves keeps_mails (can_send_offer_now cfg E dest).
Proof. intros w. rewrite can_send_offer_now_run. apply keeps_mails_silent; reflexivity. Qed.

Lemma keeps_mark_offer_sent E dest : preserves keeps_mails (mark_offer_sent E dest).
Proof. intros w. rewrite mark_offer_sent_run. apply keeps_mails_silent; reflexivity. Qed.

Ltac keeps_step :=
  first
    [ apply (preserves_ret _ keeps_mails_refl)
    | apply (preserves_lift _ keeps_mails_refl)
    | apply (preserves_get _ keeps_mails_refl)
    | apply keeps_can_send_offer_now
    | apply keeps_mark_offer_sent
    | apply keeps_enviar_carta
    | apply keeps_enviar_paquete
    | apply preserves_modify; intros ?; split; [reflexivity | apply emits_record; exact I]
    | apply (preserves_bind _ keeps_mails_trans); [|intros ?]
    | match goal with
      | |- preserves _ (if _ then _ else _) => apply preserves_if
      | |- preserves _ (match ?x with _ => _ end) => destruct x
      end ].

Section NoCleanup.
Variable cfg : config.
Variable E : env.
Hypothesis Hclean : CLEAN_INBOX cfg = false.

Lemma procesar_mail_keeps entry : preserves keeps_mails (procesar_mail cfg E entry).
Proof.
  destruct entry as [mid m]. unfold procesar_mail. rewrite Hclean. repeat keeps_step.
Qed.

Lemma considerar_oferta_keeps estado f entry :
  preserves keeps_mails (considerar_oferta cfg E estado f entry).
Proof.
  destruct entry as [mid m]. unfold considerar_oferta, discard. rewrite Hclean.
  repeat keeps_step.
Qed.

Lemma first_sendable_keeps otros : preserves keeps_mails (first_sendable cfg E otros).
Proof.
  induction otros as [|cand rest IH]; cbn [first_sendable]; [keeps_step|].
  keeps_step; [keeps_step|]. destruct a; [keeps_step | exact IH].
Qed.

Lemma decidir_fallback_keeps estado gente :
  preserves keeps_mails (decidir_fallback cfg E estado gente).
Proof.
  unfold decidir_fallback, limitar_buzon. rewrite Hclean. cbn [andb].
  keeps_step; [repeat keeps_step|].
  keeps_step; [keeps_step|].
  keeps_step.
  { apply (preserves_mfor_return _ keeps_mails_refl keeps_mails_trans).
    apply considerar_oferta_keeps. }
  destruct a1 as [dec|]; [keeps_step|].
  unfold ofertar_proactivo.
  destruct (List.filter _ gente) as [|a' otros]; [keeps_step|].
  keeps_step; [apply first_sendable_keeps|].
  repeat keeps_step.
Qed.

Lemma ejecutar_decision_keeps dec estado :
  preserves keeps_mails (ejecutar_decision cfg E dec estado).
Proof.
  unfold ejecutar_decision. rewrite Hclean. repeat keeps_step.
Qed.

End NoCleanup.

(** X11. With cleanup disabled a cycle deletes nothing: at its end,
    however it ends, the mailbox is the one that was fetched and no deletion
    has been requested from the broker. *)
Theorem no_deletion_without_cleanup (cfg : config) (E : env) (estado : InfoPuesto)
    (buzon : list (str * mail)) (gente : list str) (w : world)
    (Hclean : CLEAN_INBOX cfg = false) :
  let w' := (ciclo cfg E estado buzon gente w).2 in
  mails_by_id w' = buzon /\
  exists evs, trace w' = trace w ++ evs /\ Forall not_a_deletion evs.
Proof.
  intros w'. subst w'. unfold ciclo, try_except.
  rewrite run_bind. cbn [modify]. rewrite run_bind. cbn [modify].
  set (w0 := set_mails buzon (set_estado_cache (Recursos estado) w)).
  assert (keeps_mails w0
            ((procesar_mails_automaticos cfg E;;
              dec ← decidir_fallback cfg E estado gente;
              ejecutar_decision cfg E dec estado) w0).2) as [Hm [_ He]].
  { apply (preserves_bind _ keeps_mails_trans).
    - intros w1. rewrite procesar_mails_automaticos_loop.
      apply (preserves_mfor _ keeps_mails_refl keeps_mails_trans).
      apply procesar_mail_keeps, Hclean.
    - intros _. apply (preserves_bind _ keeps_mails_trans).
      + apply decidir_fallback_keeps, Hclean.
      + intros dec. apply ejecutar_decision_keeps, Hclean. }
  destruct ((procesar_mails_automaticos cfg E ≫= _) w0) as [[?|e] w1];
    cbn [snd mret M_ret] in *; (split; [symmetry; exact Hm | exact He]).
Qed.

Lemma no_deletion_without_cleanup_witness :
  CLEAN_INBOX no_cleanup = false /\
  mails_by_id (ciclo no_cleanup calm estado_con_madera [(u "m1", aviso)] [u "p2"] fresh).2
  = [(u "m1", aviso)].
Proof.
  assert (CLEAN_INBOX no_cleanup = false) as H by reflexivity.
  split; [exact H|].
  apply (no_deletion_without_cleanup no_cleanup calm estado_con_madera
           [(u "m1", aviso)] [u "p2"] fresh H).
Defined.

(** ** The decisions of [decidir_fallback] *)

Lemma max_key_elem (d : list (str * Z)) : forall best,
  max_key best d ∈ fst best :: List.map fst d.
Proof.
  induction d as [|[k v] d IH]; intros best; cbn [max_key List.map fst].
  - left.
  - destruct (snd best <? v)%Z.
    + right. apply (IH (k, v)).
    + specialize (IH best). apply elem_of_cons in IH as [->|IH]; [left | right; right; exact IH].
Qed.

Lemma returns_lift_bind {A B : Type} (P : B -> Prop) (r : result A) (f : A -> M B) :
  (forall a, r = Ok a -> returns P (f a)) -> returns P (lift r ≫= f).
Proof.
  intros Hf w. rewrite run_bind. unfold lift.
  destruct r as [a|e]; cbn; [apply (Hf a eq_refl) | exact I].
Qed.

Lemma returns_mfor_return_elem {X V : Type} (Q : X -> V -> Prop) (l : list X)
    (f : X -> M (option V)) :
  (forall x, returns (fun o => forall v, o = Some v -> Q x v) (f x)) ->
  returns (fun o => forall v, o = Some v -> exists x, x ∈ l /\ Q x v) (mfor_return l f).
Proof.
  intros Hf. induction l as [|x l IH]; cbn.
  - apply returns_ret. discriminate.
  - intros w. rewrite run_bind. specialize (Hf x w).
    destruct (f x w) as [[[v|]|e] w1]; cbn in *; [| |exact I].
    + intros v' [= <-]. exists x. split; [left | auto].
    + specialize (IH w1). destruct (mfor_return l f w1) as [[o|e] w2]; cbn in *; [|exact I].
      intros v Hv. destruct (IH v Hv) as (y & Hy & HQ). exists y. split; [right|]; assumption.
Qed.

Lemma first_sendable_elem cfg E otros :
  returns (fun o => forall d, o = Some d -> d ∈ otros) (first_sendable cfg E otros).
Proof.
  induction otros as [|cand rest IH]; cbn [first_sendable].
  - apply returns_ret. discriminate.
  - apply returns_bind. intros [|].
    + apply returns_ret. intros d [= <-]. left.
    + intros w. specialize (IH w). destruct (first_sendable cfg E rest w) as [[o|e] w1];
        cbn in *; [|exact I]. intros d Hd. right. auto.
Qed.

Section Decisions.
Variable cfg : config.
Variable E : env.
Variable estado : InfoPuesto.
Hypothesis shuffle_perm : forall l, shuffle E l ≡ₚ l.
Hypothesis choice_elem : forall l, l <> [] -> choice_offer E l ∈ l.

Lemma ofertar_proactivo_shape gente f exc :
  (forall k, k ∈ List.map fst exc -> k ∈ List.map fst (Recursos estado)) ->
  returns (fun d => well_formed_offer cfg estado gente (accion d))
          (ofertar_proactivo cfg E estado gente f exc).
Proof.
  intros Hexc. unfold ofertar_proactivo.
  destruct (List.filter _ gente) as [|a otros] eqn:Hfilter; [apply returns_ret; exact I|].
  intros w. rewrite run_bind.
  pose proof (first_sendable_elem cfg E (shuffle E (a :: otros)) w) as Hdest.
  destruct (first_sendable cfg E _ w) as [[[dest|]|e] w1]; cbn in *; [| exact I | exact I].
  specialize (Hdest dest eq_refl). rewrite shuffle_perm, <- Hfilter in Hdest.
  apply list_elem_of_In, filter_In in Hdest as [Hin Hne].
  apply list_elem_of_In in Hin. apply negb_true_iff in Hne. unfold str_eqb in Hne.
  apply bool_decide_eq_false in Hne.
  match goal with
  | |- context [match ?o with Some _ => _ | None => mret (wait _) end] =>
      destruct o as [offer_item|] eqn:Hoffer
  end; [|exact I].
  match goal with
  | |- context [str_eqb offer_item [] || str_eqb offer_item ?n] =>
      generalize n; intros need_item
  end.
  unfold str_eqb.
  case_bool_decide as H1; [exact I|]. case_bool_decide as H2; [exact I|].
  cbn. repeat split; auto.
  destruct exc as [|kv exc'].
  - match type of Hoffer with
    | match ?l with [] => None | _ :: _ => _ end = _ => destruct l as [|c cs] eqn:Hcand
    end; [discriminate|].
    injection Hoffer as <-.
    assert (choice_offer E (c :: cs) ∈ c :: cs) as Hc by (apply choice_elem; discriminate).
    rewrite <- Hcand in Hc. apply list_elem_of_In, in_map_iff in Hc as (x & Hx & Hc).
    apply filter_In in Hc as [Hc _]. rewrite Hcand in Hx. rewrite <- Hx.
    apply list_elem_of_In, in_map. exact Hc.
  - injection Hoffer as <-. apply Hexc.
    pose proof (max_key_elem exc' kv) as H. destruct kv as [k v]. exact H.
Qed.

End Decisions.

Lemma only_item_inv {V : Type} (d : list (str * V)) (kv : str * V) :
  only_item d = Ok kv -> d = [kv].
Proof. destruct d as [|x [|y d]]; cbn; congruence. Qed.

Lemma considerar_oferta_acceptable cfg E estado mid m :
  returns (fun o => forall d, o = Some d -> accion d = Aceptar mid /\ acceptable cfg estado m)
          (considerar_oferta cfg E estado (faltantes estado) (mid, m)).
Proof.
  unfold considerar_oferta.
  destruct (str_eqb (text_of (remi m)) [] || str_eqb (text_of (remi m)) (ALIAS cfg)) eqn:Hremi;
    [apply returns_ret; discriminate|].
  apply orb_false_iff in Hremi as [Hr1 Hr2]. unfold str_eqb in Hr1, Hr2.
  apply bool_decide_eq_false in Hr1, Hr2.
  apply returns_bind; intros _.
  apply returns_lift_bind; intros [[quiero ofrezco]|] Hparsed; [|apply returns_ret; discriminate].
  apply returns_lift_bind; intros [need_item nq] Hq. apply only_item_inv in Hq. subst quiero.
  apply returns_lift_bind; intros [offer_item oq] Ho. apply only_item_inv in Ho. subst ofrezco.
  apply returns_lift_bind; intros need_qty Hnq.
  apply returns_lift_bind; intros offer_qty Hoq.
  destruct (can_give cfg estado need_item need_qty) eqn:Hgive; cbn [negb].
  2:{ apply returns_bind; intros _. apply returns_ret; discriminate. }
  destruct (ACCEPT_ANY cfg || (0 <? get0 offer_item (faltantes estado))%Z) eqn:Hany.
  2:{ apply returns_bind; intros _. apply returns_ret; discriminate. }
  apply returns_bind; intros need. apply returns_bind; intros offer.
  apply returns_ret. intros d [= <-]. split; [reflexivity|].
  split; [exact Hr1|]. split; [exact Hr2|].
  exists need_item, nq, need_qty, offer_item, oq.
  split; [exact Hparsed|]. split; [exact Hnq|]. split; [exact Hgive|].
  apply orb_true_iff in Hany as [Hany|Hany]; [left; exact Hany | right].
  apply Z.ltb_lt. exact Hany.
Qed.

Lemma ofertar_proactivo_no_accept cfg E estado gente f exc :
  returns (fun d => forall mid, accion d <> Aceptar mid)
          (ofertar_proactivo cfg E estado gente f exc).
Proof.
  unfold ofertar_proactivo.
  destruct (List.filter _ gente) as [|a otros]; [apply returns_ret; discriminate|].
  apply returns_bind. intros [dest|]; [|apply returns_ret; discriminate].
  match goal with
  | |- context [match ?o with Some _ => _ | None => mret (wait _) end] => destruct o
  end; [|apply returns_ret; discriminate].
  apply returns_if; apply returns_ret; discriminate.
Qed.

Lemma dict_pop_subseteq {V : Type} (k : str) (d : list (str * V)) : dict_pop k d ⊆ d.
Proof.
  induction d as [|[k' v] d IH]; cbn; [reflexivity|].
  destruct (str_eqb k' k).
  - intros x Hx. right. exact Hx.
  - intros x Hx. apply elem_of_cons in Hx as [->|Hx]; [left | right; apply IH, Hx].
Qed.

Lemma limitar_buzon_subseteq cfg E :
  preserves (fun w w' => mails_by_id w' ⊆ mails_by_id w) (limitar_buzon cfg E).
Proof.
  set (R := fun w w' : world => mails_by_id w' ⊆ mails_by_id w).
  assert (forall w, R w w) as Hrefl by (intros w; unfold R; reflexivity).
  assert (forall a b c, R a b -> R b c -> R a c) as Htrans.
  { unfold R. intros a b c H1 H2. etransitivity; eassumption. }
  unfold limitar_buzon. apply (preserves_bind _ Htrans); [apply (preserves_get _ Hrefl)|].
  intros w. apply preserves_if; [|apply (preserves_ret _ Hrefl)].
  apply (preserves_mfor _ Hrefl Htrans). intros mid.
  apply (preserves_bind _ Htrans).
  - apply (preserves_borrar_mail _ Hrefl Htrans); intros; unfold R; reflexivity.
  - intros _. apply preserves_modify. intros w0. unfold R. cbn. apply dict_pop_subseteq.
Qed.

(** X12. When [decidir_fallback] decides to accept a message, that
    message was in the mailbox, its sender is named and is not the agent, its
    body decodes as an offer of one item for one item, [can_give] allows the
    quantity asked, and the item offered is one the agent is short of, unless
    [ACCEPT_ANY] is set. *)
Theorem accepted_offer_is_acceptable (cfg : config) (E : env) (estado : InfoPuesto)
    (gente : list str) (w : world) (dec : Decision) (mid : str)
    (Hdec : (decidir_fallback cfg E estado gente w).1 = Ok dec)
    (Hacc : accion dec = Aceptar mid) :
  exists m, (mid, m) ∈ mails_by_id w /\ acceptable cfg estado m.
Proof.
  unfold decidir_fallback in Hdec. rewrite run_bind in Hdec.
  pose proof (limitar_buzon_subseteq cfg E w) as Hsub. cbn beta in Hsub.
  destruct (limitar_buzon cfg E w) as [[[]|e] w1]; cbn [fst snd] in *; [|discriminate].
  rewrite run_bind in Hdec. cbn [get_world] in Hdec. rewrite run_bind in Hdec.
  pose proof (returns_mfor_return_elem
                (fun entry d => accion d = Aceptar (fst entry) /\ acceptable cfg estado (snd entry))
                (mails_by_id w1) (considerar_oferta cfg E estado (faltantes estado))) as Hloop.
  specialize (Hloop ltac:(intros [mid' m']; apply considerar_oferta_acceptable) w1).
  destruct (mfor_return _ _ w1) as [[[d|]|e] w2]; cbn [fst snd] in *; [| |discriminate].
  - injection Hdec as ->. destruct (Hloop dec eq_refl) as ([mid' m] & Hin & Hmid & Hok).
    cbn [fst snd] in *. rewrite Hacc in Hmid. injection Hmid as ->.
    exists m. split; [apply Hsub, Hin | exact Hok].
  - pose proof (ofertar_proactivo_no_accept cfg E estado gente (faltantes estado)
                  (excedentes estado) w2) as Hno.
    rewrite Hdec in Hno. exfalso. apply (Hno mid Hacc).
Qed.

Lemma accepted_offer_witness :
  let w := con_buzon [(u "m1", nota "p2" "Necesito 1 madera y ofrezco 1 oro.")]
             [(u "madera", 5%Z)] in
  let dec := {| razonamiento := u "Acepto: puedo dar 1 madera; recibir" ++ [0xED]
                                ++ u "a 1 oro.";
                accion := Aceptar (u "m1") |} in
  (decidir_fallback defaults calm estado_con_madera [u "p2"] w).1 = Ok dec /\
  accion dec = Aceptar (u "m1") /\
  exists m, (u "m1", m) ∈ mails_by_id w /\ acceptable defaults estado_con_madera m.
Proof.
  intros w dec.
  assert ((decidir_fallback defaults calm estado_con_madera [u "p2"] w).1 = Ok dec) as H1
    by (vm_compute; reflexivity).
  assert (accion dec = Aceptar (u "m1")) as H2 by reflexivity.
  refine (conj H1 (conj H2 _)).
  apply (accepted_offer_is_acceptable defaults calm estado_con_madera [u "p2"] w dec
           (u "m1") H1 H2).
Defined.

(** X13. When the shuffle returns a permutation and the choice an element
    of its list, a decision of [decidir_fallback] to offer asks one unit for
    one unit of two different items, goes to an agent of the list that is not
    the agent itself, and offers a resource that the state lists. *)
Theorem proactive_offer_is_well_formed (cfg : config) (E : env) (estado : InfoPuesto)
    (gente : list str) (w : world) (dec : Decision)
    (Hshuffle : forall l, shuffle E l ≡ₚ l)
    (Hchoice : forall l, l <> [] -> choice_offer E l ∈ l)
    (Hkeys : NoDup (List.map fst (Recursos estado)))
    (Hdec : (decidir_fallback cfg E estado gente w).1 = Ok dec) :
  well_formed_offer cfg estado gente (accion dec).
Proof.
  unfold decidir_fallback in Hdec. rewrite run_bind in Hdec.
  destruct (limitar_buzon cfg E w) as [[[]|e] w1]; cbn [fst snd] in *; [|discriminate].
  rewrite run_bind in Hdec. cbn [get_world] in Hdec. rewrite run_bind in Hdec.
  pose proof (returns_mfor_return (fun d => exists mid, accion d = Aceptar mid)
                (mails_by_id w1) (considerar_oferta cfg E estado (faltantes estado))
                (considerar_oferta_returns cfg E estado (faltantes estado)) w1) as Hloop.
  destruct (mfor_return _ _ w1) as [[[d|]|e] w2]; cbn [fst snd] in *; [| |discriminate].
  - injection Hdec as ->. destruct (Hloop dec eq_refl) as [mid ->]. exact I.
  - pose proof (ofertar_proactivo_shape cfg E estado Hshuffle Hchoice gente
                  (faltantes estado) (excedentes estado)) as Hshape.
    specialize (Hshape ltac:(intros k Hk; rewrite (excedentes_omap estado Hkeys) in Hk;
                             exact (omap_keys (surplus estado) (surplus_key estado) _ _ Hk)) w2).
    rewrite Hdec in Hshape. exact Hshape.
Qed.

Lemma proactive_offer_witness :
  (forall l, shuffle calm l ≡ₚ l) /\
  (forall l, l <> [] -> choice_offer calm l ∈ l) /\
  NoDup (List.map fst (Recursos estado_con_madera)) /\
  (decidir_fallback defaults calm estado_con_madera [u "p2"] fresh).1
  = Ok {| razonamiento := u "Oferto a p2: pido oro y ofrezco madera.";
          accion := Ofertar (u "p2") (u "oro") 1 (u "madera") 1 |} /\
  well_formed_offer defaults estado_con_madera [u "p2"]
    (Ofertar (u "p2") (u "oro") 1 (u "madera") 1).
Proof.
  assert (forall l, shuffle calm l ≡ₚ l) as H1 by reflexivity.
  assert (forall l, l <> [] -> choice_offer calm l ∈ l) as H2.
  { intros [|x l] H; [congruence | left]. }
  assert (NoDup (List.map fst (Recursos estado_con_madera))) as H3.
  { apply (bool_decide_unpack (NoDup (List.map fst (Recursos estado_con_madera)))).
    vm_compute. exact I. }
  assert ((decidir_fallback defaults calm estado_con_madera [u "p2"] fresh).1
          = Ok {| razonamiento := u "Oferto a p2: pido oro y ofrezco madera.";
                  accion := Ofertar (u "p2") (u "oro") 1 (u "madera") 1 |}) as H4
    by (vm_compute; reflexivity).
  refine (conj H1 (conj H2 (conj H3 (conj H4 _)))).
  apply (proactive_offer_is_well_formed defaults calm estado_con_madera [u "p2"] fresh _
           H1 H2 H3 H4).
Defined.

(** ** Strings with escapes *)

Lemma below_32 (P : N -> Prop) :
  Forall P (List.map N.of_nat (seq 0 32)) -> forall c, c < 0x20 -> P c.
Proof.
  intros H c Hc. rewrite Forall_forall in H. apply H.
  apply list_elem_of_In, in_map_iff. exists (N.to_nat c). split; [lia|].
  apply in_seq. lia.
Qed.

(** The escape of one character is read back as that character. *)
Lemma scanstring_escape (c : char) (s : str) :
  scanstring (escape_char c ++ s) = cons_to c (scanstring s).
Proof.
  destruct (N.ltb_spec c 0x20) as [Hlow|Hhigh].
  - revert s. pattern c. apply below_32; [|exact Hlow].
    repeat (apply Forall_cons; split;
            [intros s; try reflexivity;
             destruct s as [|b [|x [|l1 [|l2 [|l3 [|l4 s]]]]]]; reflexivity|]).
    apply Forall_nil. exact I.
  - unfold escape_char.
    destruct (N.eqb_spec c 0x22) as [->|H1]; [reflexivity|].
    destruct (N.eqb_spec c 0x5C) as [->|H2]; [reflexivity|].
    rewrite !(proj2 (N.eqb_neq c _)) by lia.
    rewrite (proj2 (N.ltb_ge c 0x20)) by lia.
    cbn [app scanstring].
    rewrite (proj2 (N.eqb_neq c 0x22)) by lia.
    rewrite (proj2 (N.eqb_neq c 0x5C)) by lia.
    rewrite (proj2 (N.ltb_ge c 0x20)) by lia. reflexivity.
Qed.

Lemma scanstring_escaped (k rest : str) :
  scanstring (escaped k ++ 0x22 :: rest) = Some (k, rest).
Proof.
  induction k as [|c k IH]; [reflexivity|].
  unfold escaped in *. cbn [flat_map]. rewrite <- app_assoc, scanstring_escape, IH.
  reflexivity.
Qed.

(** No character that [json.dumps] writes for a string without a closing
    brace stops the lazy [.*?] of the tagged patterns. *)
Lemma escape_inner (c : char) :
  c <> 0x7D -> Forall (fun x => inner x = true) (escape_char c).
Proof.
  intros Hc. destruct (N.ltb_spec c 0x20) as [Hlow|Hhigh].
  - pattern c. apply below_32; [|exact Hlow].
    repeat (apply Forall_cons; split; [repeat constructor|]). apply Forall_nil. exact I.
  - unfold escape_char.
    destruct (N.eqb_spec c 0x22) as [->|H1]; [repeat constructor|].
    destruct (N.eqb_spec c 0x5C) as [->|H2]; [repeat constructor|].
    rewrite !(proj2 (N.eqb_neq c _)) by lia.
    rewrite (proj2 (N.ltb_ge c 0x20)) by lia.
    constructor; [|constructor]. apply plain_inner, plain_spec. lia.
Qed.

Lemma escaped_inner (k : str) :
  0x7D ∉ k -> Forall (fun x => inner x = true) (escaped k).
Proof.
  induction k as [|c k IH]; intros H; [constructor|].
  apply not_elem_of_cons in H as [Hc H]. unfold escaped in *. cbn [flat_map].
  apply Forall_app. split; [apply escape_inner; congruence | apply IH, H].
Qed.

(** ** Integers of either sign *)

(** What [str()] prints for an integer: an optional minus sign and a run of
    digits within the limit that reads back as its absolute value. *)
Lemma str_of_int_inv (v : Z) (s : str) : str_of_int v = Ok s ->
  exists c ds,
    s = (if (v <? 0)%Z then [0x2D] else []) ++ c :: ds /\
    Forall (fun x => is_digit x = true) (c :: ds) /\
    (c = 0x30 -> ds = []) /\
    digits_value (c :: ds) = Z.abs v /\
    (length (c :: ds) <= int_max_str_digits)%nat.
Proof.
  unfold str_of_int, str_of_Z.
  destruct (Nat.ltb_spec int_max_str_digits (length (str_of_N (Z.abs_N v)))) as [|Hlen];
    [discriminate|].
  intros [= <-].
  destruct (str_of_N_spec (Z.abs_N v)) as (Hne & Hall & Hval & Hhead).
  assert (Z.to_N (- v) = Z.abs_N v \/ (0 <= v)%Z) as Hneg by lia.
  assert (Z.to_N v = Z.abs_N v \/ (v < 0)%Z) as Hpos by lia.
  destruct (str_of_N (Z.abs_N v)) as [|c ds] eqn:Hs; [congruence|].
  exists c, ds. split.
  - destruct (Z.ltb_spec v 0).
    + destruct Hneg as [->|]; [|lia]. rewrite Hs. reflexivity.
    + destruct Hpos as [->|]; [|lia]. rewrite Hs. reflexivity.
  - split; [exact Hall|]. split; [|split; [|exact Hlen]].
    + intros ->. destruct (N.eq_dec (Z.abs_N v) 0) as [H0|H0].
      * rewrite H0 in Hs. vm_compute in Hs. congruence.
      * exfalso. apply (Hhead ltac:(lia) 0x30 ds eq_refl). reflexivity.
    + unfold digits_value. etransitivity; [apply (f_equal (default 0%Z) Hval)|]. cbn. lia.
Qed.

Lemma str_of_int_within (v : Z) :
  (length (str_of_N (Z.abs_N v)) <= int_max_str_digits)%nat ->
  str_of_int v = Ok (str_of_Z v).
Proof.
  intros H. unfold str_of_int. rewrite (proj2 (Nat.ltb_ge _ _) H). reflexivity.
Qed.

Lemma match_number_digits (c : char) (ds rest : str) :
  Forall (fun x => is_digit x = true) (c :: ds) -> (c = 0x30 -> ds = []) ->
  (length (c :: ds) <= int_max_str_digits)%nat ->
  match_number ((c :: ds) ++ 0x7D :: rest) = Some (JInt (digits_value (c :: ds)), 0x7D :: rest).
Proof.
  intros Hall Hzero Hlen. destruct (N.eq_dec c 0x30) as [->|Hc].
  - rewrite (Hzero eq_refl) in *. reflexivity.
  - apply match_number_int; assumption.
Qed.

Lemma match_number_minus (c : char) (ds rest : str) :
  Forall (fun x => is_digit x = true) (c :: ds) -> (c = 0x30 -> ds = []) ->
  (length (c :: ds) <= int_max_str_digits)%nat ->
  match_number (0x2D :: (c :: ds) ++ 0x7D :: rest)
  = Some (JInt (- digits_value (c :: ds)), 0x7D :: rest).
Proof.
  intros Hall Hzero Hlen.
  pose proof (match_number_digits c ds rest Hall Hzero Hlen) as H.
  pose proof Hall as Hd. apply Forall_cons in Hd as [Hd _].
  assert (c <> 0x2D) as Hc.
  { unfold is_digit in Hd. destruct (in_range_spec 0x30 0x39 c); [lia | discriminate]. }
  unfold match_number in *. cbn beta iota. change (0x2D =? 0x2D) with true. cbn beta iota.
  change ((c :: ds) ++ 0x7D :: rest) with (c :: ds ++ 0x7D :: rest) in *.
  cbn beta iota in H. rewrite (proj2 (N.eqb_neq c 0x2D) Hc) in H. cbn beta iota in H.
  destruct (int_part (c :: ds ++ 0x7D :: rest)) as [[ip s1]|]; [|discriminate].
  destruct (match frac_part s1 with Some (d, r) => (Some d, r) | None => (None, s1) end)
    as [fp s2].
  destruct (match exp_part s2 with Some (e, r) => (Some e, r) | None => (None, s2) end)
    as [ep s3].
  destruct fp, ep; try discriminate.
  destruct (int_max_str_digits <? length ip)%nat; [discriminate|].
  injection H as H1 H2. rewrite H1, H2. reflexivity.
Qed.

(** The scanner on what [str()] prints, in front of a closing brace. *)
Lemma scan_once_int (f : nat) (v : Z) (s rest : str) :
  str_of_int v = Ok s ->
  skip_ws (s ++ 0x7D :: rest) = s ++ 0x7D :: rest /\
  scan_once (S f) (s ++ 0x7D :: rest) = Some (JInt v, 0x7D :: rest).
Proof.
  intros Hs. destruct (str_of_int_inv v s Hs) as (c & ds & -> & Hall & Hzero & Hval & Hlen).
  pose proof Hall as Hd. apply Forall_cons in Hd as [Hd _].
  destruct (Z.ltb_spec v 0) as [Hneg|Hpos]; cbn [app].
  - split; [reflexivity|].
    change (0x2D :: c :: ds ++ 0x7D :: rest) with (0x2D :: (c :: ds) ++ 0x7D :: rest).
    cbn [scan_once]. change (0x2D =? 0x22) with false. change (0x2D =? 0x7B) with false.
    change (0x2D =? 0x5B) with false. cbn iota.
    assert (constant (0x2D :: (c :: ds) ++ 0x7D :: rest) = None) as ->.
    { unfold constant.
      change (u "null") with (0x6E :: u "ull"). change (u "true") with (0x74 :: u "rue").
      change (u "false") with (0x66 :: u "alse"). change (u "NaN") with (0x4E :: u "aN").
      change (u "Infinity") with (0x49 :: u "nfinity").
      change (u "-Infinity") with (0x2D :: 0x49 :: u "nfinity").
      rewrite !strip_prefix_head by lia.
      cbn [strip_prefix app]. change (0x2D =? 0x2D) with true. cbn iota.
      unfold is_digit in Hd. destruct (in_range_spec 0x30 0x39 c); [|discriminate].
      rewrite (proj2 (N.eqb_neq 0x49 c)) by lia. reflexivity. }
    rewrite match_number_minus by assumption. do 3 f_equal. unfold char, str in *. lia.
  - split; [apply skip_ws_digit, Hd|].
    change (c :: ds ++ 0x7D :: rest) with ((c :: ds) ++ 0x7D :: rest).
    change ((c :: ds) ++ 0x7D :: rest) with (c :: ds ++ 0x7D :: rest) at 1.
    rewrite scan_once_digit by exact Hd.
    change (c :: ds ++ 0x7D :: rest) with ((c :: ds) ++ 0x7D :: rest).
    rewrite match_number_digits by assumption. do 3 f_equal. unfold char, str in *. lia.
Qed.

Lemma str_of_int_inner (v : Z) (s : str) :
  str_of_int v = Ok s -> Forall (fun x => inner x = true) s.
Proof.
  intros Hs. destruct (str_of_int_inv v s Hs) as (c & ds & -> & Hall & _).
  apply Forall_app. split.
  - destruct (v <? 0)%Z; repeat constructor.
  - eapply Forall_impl; [exact Hall|]. intros x Hx. apply plain_inner, digit_plain, Hx.
Qed.

(** ** One object, written and read back *)

Lemma object_items_one (value : str -> option (json * str)) (f : nat)
    (k s rest : str) (v : json) :
  skip_ws (s ++ 0x7D :: rest) = s ++ 0x7D :: rest ->
  value (s ++ 0x7D :: rest) = Some (v, 0x7D :: rest) ->
  object_items value (S f)
    (0x22 :: escaped k ++ 0x22 :: 0x3A :: 0x20 :: s ++ 0x7D :: rest) []
  = Some ([(k, v)], rest).
Proof.
  intros Hws Hv. cbn [object_items]. change (0x22 =? 0x22) with true. cbn iota.
  rewrite scanstring_escaped.
  rewrite (skip_ws_stop 0x3A) by reflexivity. change (0x3A =? 0x3A) with true. cbn iota.
  rewrite (skip_ws_pass 0x20) by reflexivity.
  rewrite Hws, Hv.
  rewrite (skip_ws_stop 0x7D) by reflexivity. change (0x7D =? 0x7D) with true. cbn iota.
  reflexivity.
Qed.

Lemma json_dumps_one (k : str) (v : Z) :
  json_dumps [(k, v)] = (s ← str_of_int v; mret (0x7B :: inside (escaped k) s ++ [0x7D])).
Proof.
  unfold json_dumps, inside, escaped. cbn [dump_items]. unfold encode_basestring.
  destruct (str_of_int v) as [s|e]; [|reflexivity].
  unfold mbind, result_bind, mret, result_ret. cbn [join]. f_equal.
  change (u "{") with [0x7B]. change (u "}") with [0x7D]. change (u ": ") with [0x3A; 0x20].
  cbn [app]. rewrite <- !app_assoc. reflexivity.
Qed.

Lemma json_loads_one (k : str) (v : Z) (s : str) :
  str_of_int v = Ok s ->
  json_loads (0x7B :: inside (escaped k) s ++ [0x7D]) = Ok (JDict [(k, JInt v)]).
Proof.
  intros Hs. unfold json_loads, inside.
  change (match 0x7B :: ?t with 0xFEFF :: _ => ?a | _ => ?b end) with b.
  rewrite (skip_ws_stop 0x7B) by reflexivity.
  cbn [length app]. rewrite <- app_assoc. cbn [app].
  match goal with
  | |- context [scan_once (S ?f)] => remember f as F eqn:HF
  end.
  cbn [scan_once].
  change (0x7B =? 0x22) with false. change (0x7B =? 0x7B) with true. cbn iota.
  rewrite (skip_ws_stop 0x22) by reflexivity. change (0x22 =? 0x7D) with false. cbn iota.
  destruct F as [|[|n]]; [discriminate | discriminate |].
  destruct (scan_once_int (S n) v s [] Hs) as [Hws Hv].
  pose proof (object_items_one (scan_once (S (S n))) (S n) k s [] (JInt v) Hws Hv) as Ho.
  unfold char, str in *. rewrite Ho. reflexivity.
Qed.

Lemma inside_escaped_inner (k s : str) (v : Z) :
  0x7D ∉ k -> str_of_int v = Ok s ->
  Forall (fun c => inner c = true) (inside (escaped k) s).
Proof.
  intros Hk Hs. unfold inside.
  apply Forall_cons. split; [reflexivity|].
  apply Forall_app. split; [apply escaped_inner, Hk|].
  repeat (apply Forall_cons; split; [reflexivity|]).
  apply (str_of_int_inner v s Hs).
Qed.

(** The tagged pattern finds the two objects of an acceptance at the start
    of the text. *)
Lemma tag_accept_search (j1 j2 rest : str) :
  Forall (fun c => inner c = true) j1 ->
  Forall (fun c => inner c = true) j2 ->
  search TAG_ACCEPT_RE
    (u "[ACEPTO_V1]" ++ 0x20 :: u "te_envio=" ++ 0x7B :: j1 ++ 0x7D :: 0x20
       :: u "espero=" ++ 0x7B :: j2 ++ 0x7D :: rest)
  = Some [(2%nat, 0x7B :: j2 ++ [0x7D]); (1%nat, 0x7B :: j1 ++ [0x7D])].
Proof.
  intros H1 H2. apply search_here. unfold TAG_ACCEPT_RE. cbv [seq_of].
  rewrite rmatch_seq, rmatch_lit. cbn beta.
  rewrite rmatch_seq, rmatch_star.
  apply star_greedy_before; [reflexivity | vm_compute; reflexivity |].
  rewrite rmatch_seq, rmatch_lit. cbn beta.
  rewrite rmatch_seq. apply rmatch_group_braces; [exact H1|].
  rewrite rmatch_seq, rmatch_star.
  apply star_greedy_before; [reflexivity | vm_compute; reflexivity |].
  rewrite rmatch_seq, rmatch_lit. cbn beta.
  apply rmatch_group_braces; [exact H2|].
  reflexivity.
Qed.

(** The text of an acceptance, cut where the tagged pattern cuts it. *)
Lemma build_accept_body_one (gk : str) (gv : Z) (ek : str) (ev : Z) :
  build_accept_body [(gk, gv)] [(ek, ev)]
  = (sgv ← str_of_int gv; sev ← str_of_int ev;
     mret (u "[ACEPTO_V1]" ++ 0x20 :: u "te_envio=" ++ 0x7B :: inside (escaped gk) sgv
             ++ 0x7D :: 0x20 :: u "espero=" ++ 0x7B :: inside (escaped ek) sev
             ++ 0x7D :: 0x0A
             :: u "Acepto tu oferta. Te envi" ++ [0xE9] ++ u " " ++ sgv ++ u " " ++ gk
             ++ u ". Enviame " ++ sev ++ u " " ++ ek ++ u ".")).
Proof.
  unfold build_accept_body. rewrite !json_dumps_one.
  unfold mbind, result_bind, mret, result_ret, only_item. cbn beta iota.
  destruct (str_of_int gv) as [sgv|e]; [|reflexivity].
  destruct (str_of_int ev) as [sev|e]; [|reflexivity].
  cbn beta iota. f_equal.
  change (u "[ACEPTO_V1] te_envio=") with (u "[ACEPTO_V1]" ++ 0x20 :: u "te_envio=").
  change (u " espero=") with (0x20 :: u "espero=").
  rewrite <- !app_assoc. cbn [app]. rewrite <- !app_assoc. cbn [app]. reflexivity.
Qed.

Lemma build_offer_body_one (need_item : str) (need_qty : Z) (offer_item : str) (offer_qty : Z) :
  build_offer_body need_item need_qty offer_item offer_qty
  = (need ← str_of_int need_qty; offer ← str_of_int offer_qty;
     mret (u "[OFERTA_V1]" ++ 0x20 :: u "quiero=" ++ 0x7B :: inside (escaped need_item) need
             ++ 0x7D :: 0x20 :: u "ofrezco=" ++ 0x7B :: inside (escaped offer_item) offer
             ++ 0x7D :: 0x0A
             :: u "Necesito " ++ need ++ u " " ++ need_item
             ++ u " y ofrezco " ++ offer ++ u " " ++ offer_item ++ u ".")).
Proof.
  unfold build_offer_body. rewrite !json_dumps_one.
  destruct (str_of_int need_qty) as [need|e]; [|reflexivity].
  destruct (str_of_int offer_qty) as [offer|e]; [|reflexivity].
  unfold mbind, result_bind, mret, result_ret. cbn beta iota. f_equal.
  change (u "[OFERTA_V1] quiero=") with (u "[OFERTA_V1]" ++ 0x20 :: u "quiero=").
  change (u " ofrezco=") with (0x20 :: u "ofrezco=").
  rewrite <- !app_assoc. cbn [app]. rewrite <- !app_assoc. cbn [app]. reflexivity.
Qed.

(** X14. For any two item names without a closing brace and any two
    integers, decoding the body that [build_accept_body] writes for the two
    single-item dicts gives them back; and it writes a body whenever each
    quantity has at most 4300 digits. *)
Theorem accept_round_trip (gk : str) (gv : Z) (ek : str) (ev : Z)
    (Hgk : 0x7D ∉ gk) (Hek : 0x7D ∉ ek) :
  (forall body, build_accept_body [(gk, gv)] [(ek, ev)] = Ok body ->
     parse_accept_from_text body = Ok (Some ([(gk, JInt gv)], [(ek, JInt ev)]))) /\
  ((length (str_of_N (Z.abs_N gv)) <= int_max_str_digits)%nat ->
   (length (str_of_N (Z.abs_N ev)) <= int_max_str_digits)%nat ->
   exists body, build_accept_body [(gk, gv)] [(ek, ev)] = Ok body).
Proof.
  rewrite build_accept_body_one. split.
  - intros body.
    destruct (str_of_int gv) as [sgv|e] eqn:Hsgv; [|discriminate].
    destruct (str_of_int ev) as [sev|e] eqn:Hsev; [|discriminate].
    unfold mbind, result_bind, mret, result_ret. intros Hbody.
    apply (f_equal (fun r => match r with Ok b => b | Raise _ => [] end)) in Hbody.
    cbn beta iota in Hbody. subst body.
    unfold parse_accept_from_text.
    rewrite tag_accept_search by (eapply inside_escaped_inner; eassumption).
    unfold load_pair. cbn [group Nat.eqb].
    rewrite (json_loads_one gk gv sgv Hsgv), (json_loads_one ek ev sev Hsev). reflexivity.
  - intros H1 H2. rewrite !str_of_int_within by assumption.
    unfold mbind, result_bind, mret, result_ret. eauto.
Qed.

Lemma accept_round_trip_witness :
  (0x7D ∉ u "piedra-2") /\ (0x7D ∉ u "oro") /\
  exists body,
    build_accept_body [(u "piedra-2", (-3)%Z)] [(u "oro", 0%Z)] = Ok body /\
    parse_accept_from_text body
    = Ok (Some ([(u "piedra-2", JInt (-3))], [(u "oro", JInt 0)])).
Proof.
  assert (0x7D ∉ u "piedra-2") as H1
    by (apply (bool_decide_unpack (0x7D ∉ u "piedra-2")); vm_compute; exact I).
  assert (0x7D ∉ u "oro") as H2
    by (apply (bool_decide_unpack (0x7D ∉ u "oro")); vm_compute; exact I).
  refine (conj H1 (conj H2 _)).
  destruct (accept_round_trip (u "piedra-2") (-3) (u "oro") 0 H1 H2) as [Hdecode Hbuild].
  destruct Hbuild as [body Hbody]; [vm_compute; lia | vm_compute; lia |].
  exists body. split; [exact Hbody | exact (Hdecode body Hbody)].
Defined.

(** X15. The round trip of an offer does not need letters or positive
    quantities: for any two item names without a closing brace and any two
    integers, zero and negative ones included, decoding the body that
    [build_offer_body] writes gives them back through the tag. *)
Theorem offer_round_trip_any_name (wantItem : str) (wantQty : Z) (giveItem : str) (giveQty : Z)
    (Hwant : 0x7D ∉ wantItem) (Hgive : 0x7D ∉ giveItem) :
  (forall body, build_offer_body wantItem wantQty giveItem giveQty = Ok body ->
     parse_offer_from_text body
     = Ok (Some ([(wantItem, JInt wantQty)], [(giveItem, JInt giveQty)]))) /\
  ((length (str_of_N (Z.abs_N wantQty)) <= int_max_str_digits)%nat ->
   (length (str_of_N (Z.abs_N giveQty)) <= int_max_str_digits)%nat ->
   exists body, build_offer_body wantItem wantQty giveItem giveQty = Ok body).
Proof.
  rewrite build_offer_body_one. split.
  - intros body.
    destruct (str_of_int wantQty) as [need|e] eqn:Hneed; [|discriminate].
    destruct (str_of_int giveQty) as [offer|e] eqn:Hoffer; [|discriminate].
    unfold mbind, result_bind, mret, result_ret. intros Hbody.
    apply (f_equal (fun r => match r with Ok b => b | Raise _ => [] end)) in Hbody.
    cbn beta iota in Hbody. subst body.
    unfold parse_offer_from_text.
    rewrite tag_offer_search by (eapply inside_escaped_inner; eassumption).
    unfold load_pair. cbn [group Nat.eqb].
    rewrite (json_loads_one wantItem wantQty need Hneed),
            (json_loads_one giveItem giveQty offer Hoffer). reflexivity.
  - intros H1 H2. rewrite !str_of_int_within by assumption.
    unfold mbind, result_bind, mret, result_ret. eauto.
Qed.

Lemma offer_round_trip_any_name_witness :
  (0x7D ∉ u "trigo [1kg]") /\ (0x7D ∉ [0x22; 0x0A]) /\
  exists body,
    build_offer_body (u "trigo [1kg]") (-2) [0x22; 0x0A] 0 = Ok body /\
    parse_offer_from_text body
    = Ok (Some ([(u "trigo [1kg]", JInt (-2))], [([0x22; 0x0A], JInt 0)])).
Proof.
  assert (0x7D ∉ u "trigo [1kg]") as H1
    by (apply (bool_decide_unpack (0x7D ∉ u "trigo [1kg]")); vm_compute; exact I).
  assert (0x7D ∉ [0x22; 0x0A]) as H2
    by (apply (bool_decide_unpack (0x7D ∉ [0x22; 0x0A])); vm_compute; exact I).
  refine (conj H1 (conj H2 _)).
  destruct (offer_round_trip_any_name (u "trigo [1kg]") (-2) [0x22; 0x0A] 0 H1 H2)
    as [Hdecode Hbuild].
  destruct Hbuild as [body Hbody]; [vm_compute; lia | vm_compute; lia |].
  exists body. split; [exact Hbody | exact (Hdecode body Hbody)].
Defined.

(** ** Acceptances of one item *)

Lemma json_dumps_raises (d : list (str * Z)) (e : exn) :
  json_dumps d = Raise e -> e = ValueError.
Proof.
  unfold json_dumps.
  assert (forall e', dump_items d = Raise e' -> e' = ValueError) as H.
  { induction d as [|[k v] d IH]; cbn; intros e'; [discriminate|].
    unfold str_of_int. destruct (_ <? _)%nat; cbn; [congruence|].
    destruct (dump_items d) as [items|e0]; cbn; [discriminate|].
    intros [= <-]. apply IH. reflexivity. }
  destruct (dump_items d) as [items|e0]; cbn; [discriminate|].
  intros [= <-]. apply H. reflexivity.
Qed.

(** X16. [build_accept_body] raises [ValueError] unless each of the two
    dicts has exactly one item. *)
Theorem build_accept_body_single_items (give_to_other expect_from_other : list (str * Z))
    (Hsize : length give_to_other <> 1%nat \/ length expect_from_other <> 1%nat) :
  build_accept_body give_to_other expect_from_other = Raise ValueError.
Proof.
  unfold build_accept_body.
  destruct (json_dumps give_to_other) as [te|e] eqn:H1; cbn;
    [|apply json_dumps_raises in H1; subst e; reflexivity].
  destruct (json_dumps expect_from_other) as [es|e] eqn:H2; cbn;
    [|apply json_dumps_raises in H2; subst e; reflexivity].
  destruct give_to_other as [|[gk gv] [|x give]]; cbn; try reflexivity.
  destruct expect_from_other as [|[ek ev] [|y expect]]; cbn; try reflexivity.
  cbn in Hsize. destruct Hsize; congruence.
Qed.

Lemma build_accept_body_single_items_witness :
  (length (@nil (str * Z)) <> 1%nat \/ length [(u "oro", 1%Z)] <> 1%nat) /\
  build_accept_body [] [(u "oro", 1%Z)] = Raise ValueError.
Proof.
  assert (length (@nil (str * Z)) <> 1%nat \/ length [(u "oro", 1%Z)] <> 1%nat) as H
    by (left; discriminate).
  split; [exact H|]. apply (build_accept_body_single_items [] [(u "oro", 1%Z)] H).
Defined.

(** ** Texts that cannot be decoded *)

Lemma lit_i_lbrace (c : char) : lit_i 0x7B c = true -> c = 0x7B.
Proof.
  unfold lit_i. change (unicode_tolower 0x7B) with 0x7B.
  change (0x7B =? 0x69) with false. change (0x7B =? 0x73) with false.
  cbn [andb]. rewrite !orb_false_r. intros H. apply N.eqb_eq in H.
  destruct (unicode_tolower_cases c) as [H'|[H'|[H'|[H'|[H'|H']]]]]; destruct_and!; lia.
Qed.

Lemma lang_braces_brace (w : str) (g g' : groups) : lang braces w g g' -> 0x7B ∈ w.
Proof.
  rewrite braces_unfold. cbn [lang].
  intros (w1 & w2 & g1 & -> & (c & -> & Hc & _) & _).
  apply lit_i_lbrace in Hc. subst c. left.
Qed.

Lemma tag_offer_brace (t : str) (m : groups) : search TAG_OFFER_RE t = Some m -> 0x7B ∈ t.
Proof.
  intros H. apply search_sound in H as (pre & w & post & -> & H).
  unfold TAG_OFFER_RE in H. cbv [seq_of] in H. cbn [lang] in H.
  destruct H as (? & ? & ? & -> & _ & H).
  destruct H as (? & ? & ? & -> & _ & H).
  destruct H as (? & ? & ? & -> & _ & H).
  destruct H as (j & ? & ? & -> & (? & Hj & _) & _).
  apply lang_braces_brace in Hj. set_solver.
Qed.

Lemma tag_accept_brace (t : str) (m : groups) : search TAG_ACCEPT_RE t = Some m -> 0x7B ∈ t.
Proof.
  intros H. apply search_sound in H as (pre & w & post & -> & H).
  unfold TAG_ACCEPT_RE in H. cbv [seq_of] in H. cbn [lang] in H.
  destruct H as (? & ? & ? & -> & _ & H).
  destruct H as (? & ? & ? & -> & _ & H).
  destruct H as (? & ? & ? & -> & _ & H).
  destruct H as (j & ? & ? & -> & (? & Hj & _) & _).
  apply lang_braces_brace in Hj. set_solver.
Qed.

Lemma offer_re_digit (t : str) (m : groups) :
  search OFFER_RE t = Some m -> exists c, c ∈ t /\ isdecimal c = true.
Proof.
  intros H. apply search_sound in H as (pre & w & post & -> & H).
  unfold OFFER_RE in H. cbv [seq_of] in H. cbn [lang] in H.
  destruct H as (? & ? & ? & -> & _ & H).
  destruct H as (? & ? & ? & -> & _ & H).
  destruct H as (? & ? & ? & -> & _ & H).
  destruct H as (d1 & ? & ? & -> & (? & (Hne & Hall & _) & _) & _).
  destruct d1 as [|c d1]; [congruence|].
  apply Forall_cons in Hall as [Hc _]. exists c. split; [set_solver | exact Hc].
Qed.

(** X17. A text without an opening brace is never decoded as an
    acceptance, and when it has no decimal digit either it is not decoded as
    an offer: the decoders return none. *)
Theorem no_decoding_without_brace_or_digit (texto : str) (Hbrace : 0x7B ∉ texto) :
  parse_accept_from_text texto = Ok None /\
  ((forall c, c ∈ texto -> isdecimal c = false) -> parse_offer_from_text texto = Ok None).
Proof.
  split.
  - unfold parse_accept_from_text.
    destruct (search TAG_ACCEPT_RE texto) as [m|] eqn:H; [|reflexivity].
    apply tag_accept_brace in H. contradiction.
  - intros Hdigit. unfold parse_offer_from_text.
    destruct (search TAG_OFFER_RE texto) as [m|] eqn:H.
    { apply tag_offer_brace in H. contradiction. }
    destruct (search OFFER_RE texto) as [m|] eqn:H'; [|reflexivity].
    apply offer_re_digit in H' as (c & Hc & Hd). rewrite (Hdigit c Hc) in Hd. discriminate.
Qed.

Lemma no_decoding_witness :
  (0x7B ∉ u "Necesito madera y ofrezco oro [OFERTA_V1]") /\
  parse_accept_from_text (u "Necesito madera y ofrezco oro [OFERTA_V1]") = Ok None.
Proof.
  assert (0x7B ∉ u "Necesito madera y ofrezco oro [OFERTA_V1]") as H
    by (apply (bool_decide_unpack (0x7B ∉ u "Necesito madera y ofrezco oro [OFERTA_V1]"));
        vm_compute; exact I).
  split; [exact H|].
  exact (proj1 (no_decoding_without_brace_or_digit _ H)).
Defined.

(** ** The address of a request *)

Lemma lstrip_chars_repeat (chars : str) (c : char) (n : nat) (s : str) :
  c ∈ chars -> lstrip_chars chars (List.repeat c n ++ s) = lstrip_chars chars s.
Proof.
  intros Hc. induction n as [|n IH]; [reflexivity|].
  cbn [List.repeat app lstrip_chars]. rewrite bool_decide_eq_true_2 by exact Hc. exact IH.
Qed.

Lemma rev_repeat {X : Type} (x : X) (n : nat) : rev (List.repeat x n) = List.repeat x n.
Proof.
  induction n as [|n IH]; [reflexivity|].
  cbn [List.repeat rev]. rewrite IH. clear IH.
  induction n as [|n IH]; [reflexivity|]. cbn [List.repeat app]. rewrite IH. reflexivity.
Qed.

(** X18. [_url] gives the same address whatever the number of slashes at
    the end of [BUTLER_URL], and appends the path as it is to an address that
    does not end with a slash. *)
Theorem url_ignores_trailing_slashes (base path : str) (n : nat) :
  _url (base ++ List.repeat 0x2F n) path = _url base path /\
  (last base <> Some 0x2F -> _url base path = base ++ path).
Proof.
  unfold _url, rstrip_chars. change (u "/") with [0x2F]. split.
  - rewrite rev_app_distr, rev_repeat, lstrip_chars_repeat by (left). reflexivity.
  - intros Hlast. f_equal. destruct base as [|x b _] using rev_ind; [reflexivity|].
    rewrite last_snoc in Hlast. rewrite rev_app_distr. cbn [rev app lstrip_chars].
    rewrite bool_decide_eq_false_2.
    + cbn [rev]. rewrite rev_involutive. reflexivity.
    + intros Hc. apply list_elem_of_singleton in Hc. subst x. apply Hlast. reflexivity.
Qed.

(** ** What the settlement pass leaves in the mailbox *)

Lemma enviar_paquete_mails cfg E dest paquete :
  preserves same_mails (enviar_paquete cfg E dest paquete).
Proof. intros w. apply (keeps_enviar_paquete cfg E dest paquete w). Qed.

Lemma enviar_carta_mails cfg E dest asunto cuerpo :
  preserves same_mails (enviar_carta cfg E dest asunto cuerpo).
Proof. intros w. apply (keeps_enviar_carta cfg E dest asunto cuerpo w). Qed.

Lemma bind_ok {A B : Type} (m : M A) (f : A -> M B) (w w' : world) (b : B) :
  (m ≫= f) w = (Ok b, w') -> exists a w1, m w = (Ok a, w1) /\ f a w1 = (Ok b, w').
Proof.
  rewrite run_bind. destruct (m w) as [[a|e] w1]; [eauto | discriminate].
Qed.

Lemma discard_ok E mid w w' :
  (borrar_mail E mid;; pop_mail mid) w = (Ok tt, w') ->
  mails_by_id w' = dict_pop mid (mails_by_id w).
Proof.
  intros H. apply bind_ok in H as ([] & w1 & H1 & H2).
  pose proof (borrar_mail_mails E mid w) as Hm. rewrite H1 in Hm. unfold same_mails in Hm.
  cbn in Hm. cbn in H2. injection H2 as <-. cbn. rewrite Hm. reflexivity.
Qed.

Lemma procesar_mail_ok cfg E mid m w w' :
  CLEAN_INBOX cfg = true ->
  procesar_mail cfg E (mid, m) w = (Ok tt, w') ->
  mails_by_id w' = if settled m then dict_pop mid (mails_by_id w) else mails_by_id w.
Proof.
  intros Hclean. unfold procesar_mail, settled. rewrite Hclean.
  destruct (str_eqb (lower (text_of (remi m))) (u "sistema")); cbn [orb].
  { apply discard_ok. }
  intros H. apply bind_ok in H as ([] & w1 & H1 & H).
  cbn in H1. injection H1 as <-.
  apply bind_ok in H as (acc & w2 & H2 & H). unfold lift in H2. injection H2 as H2 <-.
  rewrite H2. destruct acc as [[te espero]|]; [|injection H as <-; reflexivity].
  destruct (str_eqb (text_of (remi m)) []); cbn [negb] in *; [injection H as <-; reflexivity|].
  apply bind_ok in H as (w0 & w3 & H3 & H). cbn in H3. injection H3 as <- <-.
  apply bind_ok in H as (ok_send & w4 & H4 & H). unfold lift in H4. injection H4 as H4 <-.
  apply bind_ok in H as ([] & w5 & H5 & H).
  apply discard_ok in H. rewrite H. f_equal.
  assert (preserves same_mails
            (if ok_send
             then paquete ← lift (int_values espero);
                  _ ← enviar_paquete cfg E (text_of (remi m)) paquete;
                  _ ← enviar_carta cfg E (text_of (remi m)) (u "Env" ++ [0xED] ++ u "o")
                        (Listo espero);
                  mret tt
             else _ ← enviar_carta cfg E (text_of (remi m)) (u "No puedo") (NoTengo espero);
                  mret tt)) as Hsame.
  { destruct ok_send.
    - apply preserves_bind; eauto with frame; [apply preserves_lift; eauto with frame|].
      intros paquete. apply preserves_bind; eauto with frame; [apply enviar_paquete_mails|].
      intros _. apply preserves_bind; eauto with frame; [apply enviar_carta_mails|].
      intros _. apply preserves_ret; eauto with frame.
    - apply preserves_bind; eauto with frame; [apply enviar_carta_mails|].
      intros _. apply preserves_ret; eauto with frame. }
  specialize (Hsame (record (DecodeAccept mid (text_of (cuerpo m))) w)).
  rewrite H5 in Hsame. unfold same_mails in Hsame. cbn in Hsame. symmetry. exact Hsame.
Qed.

Lemma settlement_loop cfg E (todo : list (str * mail)) : forall kept w w',
  CLEAN_INBOX cfg = true ->
  mails_by_id w = kept ++ todo ->
  NoDup (List.map fst (kept ++ todo)) ->
  mfor todo (procesar_mail cfg E) w = (Ok tt, w') ->
  mails_by_id w' = kept ++ List.filter (fun entry => negb (settled (snd entry))) todo.
Proof.
  induction todo as [|[mid m] todo IH]; intros kept w w' Hclean Hw Hnd Hrun.
  - cbn in Hrun. injection Hrun as <-. exact Hw.
  - cbn [mfor] in Hrun. apply bind_ok in Hrun as ([] & w1 & H1 & Hrun).
    apply procesar_mail_ok in H1; [|exact Hclean].
    cbn [List.filter snd]. destruct (settled m); cbn [negb].
    + apply (IH kept w1 w' Hclean); [| |exact Hrun].
      * rewrite H1, Hw. apply dict_pop_middle.
        rewrite map_app in Hnd. cbn [List.map fst] in Hnd.
        apply NoDup_app in Hnd as (_ & Hdisj & _). intros Hin. apply (Hdisj mid Hin). left.
      * rewrite map_app in *. cbn [List.map fst] in Hnd.
        apply NoDup_app in Hnd as (Hk & Hdisj & Ht). apply NoDup_cons in Ht as [_ Ht].
        apply NoDup_app. split; [exact Hk|]. split; [|exact Ht].
        intros x Hx Hx'. apply (Hdisj x Hx). right. exact Hx'.
    + rewrite (IH (kept ++ [(mid, m)]) w1 w' Hclean).
      * rewrite <- app_assoc. reflexivity.
      * rewrite H1, Hw, <- app_assoc. reflexivity.
      * rewrite <- app_assoc. exact Hnd.
      * exact Hrun.
Qed.

(** X19. With cleanup enabled and distinct identifiers, when the
    settlement pass completes the mailbox holds, in order, exactly the
    messages it did not deal with: those that are not from the system and are
    not acceptances of a named sender. No message of the system remains. *)
Theorem settlement_leaves_the_rest (cfg : config) (E : env) (w w' : world)
    (Hclean : CLEAN_INBOX cfg = true)
    (Hkeys : NoDup (List.map fst (mails_by_id w)))
    (Hrun : procesar_mails_automaticos cfg E w = (Ok tt, w')) :
  mails_by_id w' = List.filter (fun entry => negb (settled (snd entry))) (mails_by_id w) /\
  forall mid m, (mid, m) ∈ mails_by_id w' -> lower (text_of (remi m)) <> u "sistema".
Proof.
  rewrite procesar_mails_automaticos_loop in Hrun.
  pose proof (settlement_loop cfg E (mails_by_id w) [] w w' Hclean eq_refl Hkeys Hrun) as H.
  cbn [app] in H. split; [exact H|].
  intros mid m Hin. rewrite H in Hin. apply list_elem_of_In, filter_In in Hin as [_ Hs].
  cbn [snd] in Hs. apply negb_true_iff in Hs. unfold settled in Hs.
  apply orb_false_iff in Hs as [Hs _]. unfold str_eqb in Hs.
  apply bool_decide_eq_false in Hs. exact Hs.
Qed.

Lemma settlement_leaves_the_rest_witness :
  let buzon := [(u "m1", aviso); (u "m2", nota "p3" "que tal"); (u "m7", aceptacion)] in
  let w := con_buzon buzon [(u "madera", 5%Z)] in
  CLEAN_INBOX defaults = true /\
  NoDup (List.map fst (mails_by_id w)) /\
  mails_by_id (procesar_mails_automaticos defaults calm w).2 = [(u "m2", nota "p3" "que tal")].
Proof.
  intros buzon w.
  assert (CLEAN_INBOX defaults = true) as H1 by reflexivity.
  assert (NoDup (List.map fst (mails_by_id w))) as H2.
  { apply (bool_decide_unpack (NoDup (List.map fst (mails_by_id w)))). vm_compute. exact I. }
  assert (procesar_mails_automaticos defaults calm w
          = (Ok tt, (procesar_mails_automaticos defaults calm w).2)) as H3.
  { apply injective_projections; [vm_compute; reflexivity | reflexivity]. }
  refine (conj H1 (conj H2 _)).
  rewrite (proj1 (settlement_leaves_the_rest defaults calm w _ H1 H2 H3)).
  vm_compute. reflexivity.
Defined.

(** ** Where the settlement pass departs from its description *)

Lemma procesar_mail_grows cfg E entry :
  preserves (emits (fun _ => True)) (procesar_mail cfg E entry).
Proof.
  intros w.
  destruct (procesar_mail_settles cfg E (estado_cache w) entry w eq_refl)
    as (Hc & evs & Ht & _).
  split; [exact Hc|]. exists evs. split; [exact Ht|].
  apply Forall_forall. auto.
Qed.

Lemma settlement_grows cfg E (l : list (str * mail)) :
  preserves (emits (fun _ => True)) (mfor l (procesar_mail cfg E)).
Proof.
  apply (preserves_mfor _ (emits_refl _) (emits_trans _)). apply procesar_mail_grows.
Qed.

(** A transfer that is answered: what [enviar_paquete] returns and records. *)
Lemma enviar_paquete_answered cfg E dest paquete w status :
  net E (attempts w) (PostPaquete dest paquete) = Some status ->
  exists w1,
    enviar_paquete cfg E dest paquete w = (Ok (status =? 200)%Z, w1) /\
    trace w1 = trace w ++ [Http (PostPaquete dest paquete) (Some status)] /\
    attempts w1 = S (attempts w) /\
    estado_cache w1 = estado_cache w.
Proof.
  intros H. unfold enviar_paquete. rewrite run_bind.
  rewrite (request_with_retry_answered E _ w status H).
  destruct (status =? 200)%Z; cbn; eexists; repeat split.
Qed.

(** [enviar_carta] returns, and the first event it records is the first
    attempt of the letter. *)
Lemma enviar_carta_first cfg E dest asunto cuerpo w :
  let r := PostCarta (ALIAS cfg) dest asunto cuerpo in
  exists ok w1 evs,
    enviar_carta cfg E dest asunto cuerpo w = (Ok ok, w1) /\
    trace w1 = trace w ++ Http r (net E (attempts w) r) :: evs /\
    estado_cache w1 = estado_cache w.
Proof.
  intros r. rewrite enviar_carta_run. fold r.
  destruct (retry_outcome E r 3 w) as (k & _ & _ & Ht & _ & _ & _ & Hres).
  pose proof (emits_request_with_retry (fun _ => True) E r (fun _ => I) w) as [Hc _].
  unfold request_with_retry in *.
  destruct (retry E 3 r w) as [res w1]. cbn [fst snd] in *.
  assert (exists j, k = S j) as [j ->].
  { destruct res as [status|e]; [destruct Hres as (j & -> & _) | destruct Hres as (_ & -> & _)];
      eauto. }
  cbn [seq List.map] in Ht. rewrite Nat.add_0_r in Ht.
  destruct (match res with Ok status => (status =? 200)%Z | Raise _ => false end);
    do 3 eexists; (split; [reflexivity|]); cbn [trace estado_cache set_bad_dest tick];
    split; eauto.
Qed.

(** The first message of the mailbox is a covered acceptance and its
    transfer is answered: whatever the status, the pass goes on to the
    confirmation letter. *)
Lemma settlement_confirms_any_answer cfg E w mid m rest te_envio espero paquete status :
  mails_by_id w = (mid, m) :: rest ->
  text_of (remi m) <> [] ->
  lower (text_of (remi m)) <> u "sistema" ->
  parse_accept_from_text (text_of (cuerpo m)) = Ok (Some (te_envio, espero)) ->
  covers (estado_cache w) espero = Ok true ->
  int_values espero = Ok paquete ->
  net E (attempts w) (PostPaquete (text_of (remi m)) paquete) = Some status ->
  let peer := text_of (remi m) in
  let carta := PostCarta (ALIAS cfg) peer (u "Env" ++ [0xED] ++ u "o") (Listo espero) in
  exists evs,
    trace (procesar_mails_automaticos cfg E w).2
    = trace w ++ [DecodeAccept mid (text_of (cuerpo m));
                  Http (PostPaquete peer paquete) (Some status);
                  Http carta (net E (S (attempts w)) carta)] ++ evs.
Proof.
  intros Hw Hremi Hsys Hacc Hcov Hp Hnet peer carta.
  rewrite procesar_mails_automaticos_loop, Hw. cbn [mfor]. rewrite run_bind.
  pose proof (settlement_grows cfg E rest) as Hrest.
  generalize dependent (mfor rest (procesar_mail cfg E)). intros loop Hrest.
  unfold procesar_mail. fold peer.
  unfold str_eqb. rewrite bool_decide_eq_false_2 by exact Hsys.
  rewrite run_bind. cbn [modify]. rewrite run_bind. unfold lift at 1. rewrite Hacc.
  rewrite bool_decide_eq_false_2 by exact Hremi. cbn [negb].
  rewrite run_bind. cbn [get_world]. rewrite run_bind. unfold lift at 1.
  cbn [estado_cache record]. rewrite Hcov.
  rewrite run_bind, run_bind. unfold lift at 1. rewrite Hp. rewrite run_bind.
  set (w0 := record (DecodeAccept mid (text_of (cuerpo m))) w).
  destruct (enviar_paquete_answered cfg E peer paquete w0 status Hnet)
    as (w1 & -> & Ht1 & Ha1 & _).
  rewrite run_bind.
  destruct (enviar_carta_first cfg E peer (u "Env" ++ [0xED] ++ u "o") (Listo espero) w1)
    as (ok & w2 & evs2 & -> & Ht2 & _).
  fold carta in Ht2. rewrite Ha1 in Ht2. cbn [attempts w0 record] in Ht2.
  cbn [mret M_ret].
  assert (preserves (emits (fun _ => True))
            (if CLEAN_INBOX cfg then borrar_mail E mid;; pop_mail mid else mret tt)) as Hd.
  { apply preserves_if; repeat emits_step; exact I. }
  specialize (Hd w2).
  destruct ((if CLEAN_INBOX cfg then borrar_mail E mid;; pop_mail mid else mret tt) w2)
    as [[[]|e] w3]; cbn [snd] in Hd; destruct Hd as (_ & evs3 & Ht3 & _).
  - destruct (Hrest w3) as (_ & evs4 & Ht4 & _).
    exists (evs2 ++ evs3 ++ evs4).
    rewrite Ht4, Ht3, Ht2, Ht1. cbn [trace w0 record]. rewrite <- !app_assoc. reflexivity.
  - exists (evs2 ++ evs3). cbn [snd].
    rewrite Ht3, Ht2, Ht1. cbn [trace w0 record]. rewrite <- !app_assoc. reflexivity.
Qed.

(** The first message of the mailbox is an acceptance with a quantity that
    does not convert: the pass stops there, before any request. *)
Lemma settlement_stops_at_bad_quantity cfg E w mid m rest te_envio espero e :
  mails_by_id w = (mid, m) :: rest ->
  text_of (remi m) <> [] ->
  lower (text_of (remi m)) <> u "sistema" ->
  parse_accept_from_text (text_of (cuerpo m)) = Ok (Some (te_envio, espero)) ->
  covers (estado_cache w) espero = Raise e ->
  procesar_mails_automaticos cfg E w
  = (Raise e, record (DecodeAccept mid (text_of (cuerpo m))) w).
Proof.
  intros Hw Hremi Hsys Hacc Hcov.
  rewrite procesar_mails_automaticos_loop, Hw. cbn [mfor]. rewrite run_bind.
  generalize (mfor rest (procesar_mail cfg E)). intros loop.
  unfold procesar_mail.
  unfold str_eqb. rewrite bool_decide_eq_false_2 by exact Hsys.
  rewrite run_bind. cbn [modify]. rewrite run_bind. unfold lift at 1. rewrite Hacc.
  rewrite bool_decide_eq_false_2 by exact Hremi. cbn [negb].
  rewrite run_bind. cbn [get_world]. rewrite run_bind. unfold lift at 1.
  cbn [estado_cache record]. rewrite Hcov. reflexivity.
Qed.

(** C9, at failing inputs. The settlement pass does not do, for every
    acceptance of the mailbox, what the claim describes.

    A transfer that the broker refuses is confirmed. With cleanup enabled
    and holdings that cover what the peer expects, the broker answers 400 to
    the transfer: the pass still sends the letter that says the items were
    sent and deletes the acceptance. This holds whatever the status of the
    answer: once the transfer of a covered acceptance is answered, the next
    request is the confirmation letter. When it executes an accepted offer
    at the same broker, the program sends no letter after the refused
    transfer.

    A quantity that does not convert stops the pass. An acceptance that
    expects [null] of an item decodes as an acceptance; converting the
    quantity raises [TypeError], which nothing in the pass catches: no request
    is made, and the covered acceptance that follows it in the mailbox gets
    neither a transfer nor a letter and stays in the mailbox, as does every
    message behind such an acceptance. *)
Theorem settlement_pass_divergences :
  (let w := con_buzon [(u "m7", aceptacion)] [(u "madera", 5%Z)] in
   let run := procesar_mails_automaticos defaults sin_transferencias w in
   parse_accept_from_text (text_of (cuerpo aceptacion))
   = Ok (Some ([(u "oro", JInt 1)], [(u "madera", JInt 2)])) /\
   covers (estado_cache w) [(u "madera", JInt 2)] = Ok true /\
   run.1 = Ok tt /\
   trace run.2
   = [DecodeAccept (u "m7") (text_of (cuerpo aceptacion));
      Http (PostPaquete (u "p2") [(u "madera", 2%Z)]) (Some 400%Z);
      Http (PostCarta (u "fdi-pln-2612") (u "p2") (u "Env" ++ [0xED] ++ u "o")
              (Listo [(u "madera", JInt 2)])) (Some 200%Z);
      Http (DeleteMail (u "m7")) (Some 200%Z)] /\
   mails_by_id run.2 = []) /\
  (forall cfg E w mid m rest te_envio espero paquete status,
     mails_by_id w = (mid, m) :: rest ->
     text_of (remi m) <> [] ->
     lower (text_of (remi m)) <> u "sistema" ->
     parse_accept_from_text (text_of (cuerpo m)) = Ok (Some (te_envio, espero)) ->
     covers (estado_cache w) espero = Ok true ->
     int_values espero = Ok paquete ->
     net E (attempts w) (PostPaquete (text_of (remi m)) paquete) = Some status ->
     let peer := text_of (remi m) in
     let carta := PostCarta (ALIAS cfg) peer (u "Env" ++ [0xED] ++ u "o") (Listo espero) in
     exists evs,
       trace (procesar_mails_automaticos cfg E w).2
       = trace w ++ [DecodeAccept mid (text_of (cuerpo m));
                     Http (PostPaquete peer paquete) (Some status);
                     Http carta (net E (S (attempts w)) carta)] ++ evs) /\
  (let oferta := nota "p2" "Necesito 1 madera y ofrezco 1 oro." in
   let w := con_buzon [(u "m1", oferta)] [(u "madera", 5%Z)] in
   let dec := {| razonamiento := []; accion := Aceptar (u "m1") |} in
   let run := ejecutar_decision defaults sin_transferencias dec estado_con_madera w in
   run.1 = Ok tt /\
   trace run.2
   = [DecodeOffer (u "m1") (text_of (cuerpo oferta));
      Http (PostPaquete (u "p2") [(u "madera", 1%Z)]) (Some 400%Z)]) /\
  (let buzon := [(u "m6", aceptacion_nula); (u "m7", aceptacion)] in
   let w := con_buzon buzon [(u "madera", 5%Z)] in
   let run := procesar_mails_automaticos defaults calm w in
   parse_accept_from_text (text_of (cuerpo aceptacion_nula))
   = Ok (Some ([(u "oro", JInt 1)], [(u "madera", JNull)])) /\
   run.1 = Raise TypeError /\
   trace run.2 = [DecodeAccept (u "m6") (text_of (cuerpo aceptacion_nula))] /\
   mails_by_id run.2 = buzon) /\
  (forall cfg E w mid m rest te_envio espero e,
     mails_by_id w = (mid, m) :: rest ->
     text_of (remi m) <> [] ->
     lower (text_of (remi m)) <> u "sistema" ->
     parse_accept_from_text (text_of (cuerpo m)) = Ok (Some (te_envio, espero)) ->
     covers (estado_cache w) espero = Raise e ->
     procesar_mails_automaticos cfg E w
     = (Raise e, record (DecodeAccept mid (text_of (cuerpo m))) w)).
Proof.
  split; [|split; [|split; [|split]]].
  - vm_compute. repeat split; reflexivity.
  - intros cfg E w mid m rest te_envio espero paquete status.
    apply settlement_confirms_any_answer.
  - vm_compute. repeat split; reflexivity.
  - vm_compute. repeat split; reflexivity.
  - intros cfg E w mid m rest te_envio espero e.
    apply settlement_stops_at_bad_quantity.
Qed.

(** ** Registering the alias *)

Lemma run_lift_bind {A B : Type} (r : result A) (f : A -> M B) (w : world) :
  (lift r ≫= f) w = match r with Ok a => f a w | Raise e => (Raise e, w) end.
Proof. rewrite run_bind. unfold lift. destruct r; reflexivity. Qed.

Lemma probar_alias_registered cfg http_post attempt :
  returns (fun o => forall c, o = Some c ->
             candidate_of cfg attempt = Ok c /\
             exists w0, (http_post (u "/alias/" ++ c) w0).1 = Ok 200%Z)
          (probar_alias cfg http_post attempt).
Proof.
  unfold probar_alias. intros w. rewrite run_lift_bind.
  destruct (candidate_of cfg attempt) as [c|e]; [|exact I].
  rewrite run_bind.
  destruct (http_post (u "/alias/" ++ c) w) as [[status|e] w1] eqn:Hpost; [|exact I].
  destruct (Z.eqb_spec status 200) as [->|Hne].
  - intros c' Hc'. assert (c' = c) as -> by (unfold mret, M_ret in Hc'; cbn [fst] in Hc'; congruence).
    split; [reflexivity|]. exists w. rewrite Hpost. reflexivity.
  - intros c' Hc'. unfold mret, M_ret in Hc'. cbn [fst] in Hc'. discriminate.
Qed.

Lemma probar_alias_refused cfg http_post attempt w :
  attempt ∈ [1; 2; 3; 4; 5]%Z ->
  (forall path w0, exists status w1,
     http_post path w0 = (Ok status, w1) /\ status <> 200%Z) ->
  exists w', probar_alias cfg http_post attempt w = (Ok None, w').
Proof.
  intros Hin Hrefused. unfold probar_alias. rewrite run_lift_bind.
  assert (exists c, candidate_of cfg attempt = Ok c) as [c ->].
  { repeat (apply elem_of_cons in Hin as [->|Hin]; [eexists; reflexivity|]).
    apply elem_of_nil in Hin. destruct Hin. }
  rewrite run_bind. destruct (Hrefused (u "/alias/" ++ c) w) as (status & w1 & -> & Hne).
  rewrite (proj2 (Z.eqb_neq status 200) Hne). eexists. reflexivity.
Qed.

Lemma digits_fuel_length (fuel : nat) : forall (k : nat) (n : N) (acc : str),
  (1 <= k)%nat -> n < 10 ^ N.of_nat k ->
  (length (digits_fuel fuel n acc) <= k + length acc)%nat.
Proof.
  induction fuel as [|fuel IH]; intros k n acc Hk Hn; cbn [digits_fuel]; [lia|].
  destruct (N.ltb_spec n 10) as [Hlt|Hge]; [cbn [length]; lia|].
  destruct k as [|[|k]]; [lia | cbn in Hn; lia |].
  etransitivity; [apply (IH (S k)); [lia|]|cbn [length]; lia].
  apply N.Div0.div_lt_upper_bound.
  replace (10 * 10 ^ N.of_nat (S k)) with (10 ^ N.of_nat (S (S k))); [exact Hn|].
  rewrite (Nat2N.inj_succ (S k)), N.pow_succ_r'. reflexivity.
Qed.

Lemma str_of_int_randint (z : Z) :
  (1000 <= z <= 9999)%Z -> str_of_int z = Ok (str_of_Z z).
Proof.
  intros Hz. unfold str_of_int.
  pose proof (digits_fuel_length (S (N.to_nat (N.log2 (Z.abs_N z)))) 4 (Z.abs_N z) []
                ltac:(lia) ltac:(cbn; lia)) as Hlen.
  fold (str_of_N (Z.abs_N z)) in Hlen. cbn [length] in Hlen.
  destruct (Nat.ltb_spec int_max_str_digits (length (str_of_N (Z.abs_N z))));
    [unfold int_max_str_digits in *; lia | reflexivity].
Qed.

(** X20. [set_alias_in_butler] returns the base alias, or the base alias
    followed by a number from 2 to 5 or by the random number, and in that case
    the broker answered 200 to the request for that alias. When the broker
    answers 200 to the base alias, that is the only request made; when it
    refuses every request, the base alias is returned all the same, though it
    was not registered. *)
Theorem set_alias_registered_or_base (cfg : config) (http_post : str -> M Z)
    (randint : Z) (w : world) :
  let run := set_alias_in_butler cfg http_post randint w in
  (forall alias, run.1 = Ok alias ->
     alias = ALIAS cfg \/
     ((exists w0, (http_post (u "/alias/" ++ alias) w0).1 = Ok 200%Z) /\
      exists n, alias = ALIAS cfg ++ u "-" ++ str_of_Z n /\
                (n ∈ [2; 3; 4; 5]%Z \/ n = randint))) /\
  ((http_post (u "/alias/" ++ ALIAS cfg) w).1 = Ok 200%Z ->
   run = (Ok (ALIAS cfg), (http_post (u "/alias/" ++ ALIAS cfg) w).2)) /\
  ((forall path w0, exists status w1,
      http_post path w0 = (Ok status, w1) /\ status <> 200%Z) ->
   (1000 <= randint <= 9999)%Z ->
   run.1 = Ok (ALIAS cfg)).
Proof.
  intros run. subst run. split; [|split].
  - intros alias. unfold set_alias_in_butler. rewrite run_bind.
    pose proof (returns_mfor_return_elem
                  (fun attempt c => candidate_of cfg attempt = Ok c /\
                     exists w0, (http_post (u "/alias/" ++ c) w0).1 = Ok 200%Z)
                  [1; 2; 3; 4; 5]%Z (probar_alias cfg http_post)
                  (probar_alias_registered cfg http_post) w) as Hloop.
    destruct (mfor_return _ _ w) as [[[c|]|e] w1];
      cbv beta iota delta [fst] in Hloop |- *; [| |discriminate].
    + unfold mret, M_ret. intros Halias. assert (alias = c) as -> by congruence.
      destruct (Hloop c eq_refl) as (attempt & Hin & Hc & Hpost).
      apply elem_of_cons in Hin as [->|Hin].
      * left. change (candidate_of cfg 1) with (@Ok str (ALIAS cfg)) in Hc. congruence.
      * right. split; [exact Hpost|]. exists attempt. split; [|left; exact Hin].
        assert (candidate_of cfg attempt = Ok (ALIAS cfg ++ u "-" ++ str_of_Z attempt)) as Hc'.
        { repeat (apply elem_of_cons in Hin as [->|Hin]; [reflexivity|]).
          apply elem_of_nil in Hin. destruct Hin. }
        congruence.
    + rewrite run_lift_bind.
      assert (forall n, str_of_int randint = Ok n -> n = str_of_Z randint) as Hstr.
      { intros n. unfold str_of_int. destruct (_ <? _)%nat; congruence. }
      destruct (str_of_int randint) as [n|e]; [|discriminate].
      rewrite (Hstr n eq_refl). rewrite run_bind.
      destruct (http_post (u "/alias/" ++ ALIAS cfg ++ u "-" ++ str_of_Z randint) w1)
        as [[status|e] w2] eqn:Hpost; [|discriminate].
      destruct (Z.eqb_spec status 200) as [->|Hne]; unfold mret, M_ret;
        cbv beta iota delta [fst]; intros Halias.
      * right. assert (alias = ALIAS cfg ++ u "-" ++ str_of_Z randint) as -> by congruence.
        split; [exists w1; rewrite Hpost; reflexivity|].
        exists randint. split; [reflexivity | right; reflexivity].
      * left. congruence.
  - intros H. unfold set_alias_in_butler. rewrite run_bind.
    cbn [mfor_return]. rewrite run_bind. unfold probar_alias at 1.
    rewrite run_lift_bind.
    change (candidate_of cfg 1) with (@Ok str (ALIAS cfg)). cbv beta iota.
    rewrite run_bind.
    destruct (http_post (u "/alias/" ++ ALIAS cfg) w) as [[status|e] w1];
      cbv beta iota delta [fst snd] in H |- *; [|discriminate].
    assert (status = 200%Z) as -> by congruence. reflexivity.
  - intros Hrefused Hrange. unfold set_alias_in_butler. rewrite run_bind.
    cbn [mfor_return].
    repeat (rewrite run_bind;
            match goal with
            | |- context [probar_alias cfg http_post ?a ?w0] =>
                destruct (probar_alias_refused cfg http_post a w0) as [? ->];
                [repeat first [left | right] | exact Hrefused |]
            end; cbv beta iota).
    unfold mret at 1, M_ret at 1. cbv beta iota. rewrite run_lift_bind.
    rewrite (str_of_int_randint randint Hrange).
    rewrite run_bind.
    match goal with
    | |- context [http_post ?p ?w0] => destruct (Hrefused p w0) as (status & w' & -> & Hne)
    end.
    rewrite (proj2 (Z.eqb_neq status 200) Hne). reflexivity.
Qed.

Lemma set_alias_witness :
  (set_alias_in_butler defaults alias_taken 4321 fresh).1 = Ok (u "fdi-pln-2612-4") /\
  exists w0, (alias_taken (u "/alias/" ++ u "fdi-pln-2612-4") w0).1 = Ok 200%Z.
Proof.
  assert ((set_alias_in_butler defaults alias_taken 4321 fresh).1 = Ok (u "fdi-pln-2612-4"))
    as H by (vm_compute; reflexivity).
  split; [exact H|].
  destruct (proj1 (set_alias_registered_or_base defaults alias_taken 4321 fresh) _ H)
    as [Hbase|[Hpost _]]; [|exact Hpost].
  vm_compute in Hbase. discriminate Hbase.
Defined.
